(** * Skipper: the ABC-first program validator

    A shallow embedding of [tools/validate_program.py] and the properties
    its specification states about it.

    Conventions of the embedding.
    - A Python [str] is a Rocq [string]; one [ascii] stands for one code
      point, so the text is ASCII.
    - A Python [float] is an exact rational [Q]: rounding, overflow to
      infinity and NaN are outside the model.  [float(s)] is [Py.float],
      which reads signed decimal literals; it is exact on every string a
      token of [tokenize_abc] can hand to it (digits only).  Where rounding
      decides the outcome, in the bar-length quantizer, the numeric path of
      the builder is given again on binary64 values, in [Binary64].
    - A Python [int] is a [Z].
    - A raised exception is a value of [exn]; a function that can raise
      returns a [result]. *)

From Stdlib Require Import Bool List Sorted ZArith QArith Qabs Qround Lia Lqa.
From Stdlib Require Import Ascii String DecimalString DecimalPos DecimalZ.
From Corelib Require Import SpecFloat.
Import ListNotations.

Open Scope string_scope.
Open Scope Z_scope.

(* ================================================================= *)
(** ** Exceptions *)

Inductive exn : Type :=
| ValueError (msg : string)
| ZeroDivisionError
| KeyError (key : string)
| IndexError
| OverflowError.

Inductive result (A : Type) : Type :=
| Ok (a : A)
| Raise (e : exn).

Arguments Ok {A} a.
Arguments Raise {A} e.

Definition bind {A B : Type} (r : result A) (k : A -> result B) : result B :=
  match r with
  | Ok a => k a
  | Raise e => Raise e
  end.

Notation "x <- r ;; k" := (bind r (fun x => k))
  (at level 61, r at next level, right associativity).
Notation "' p <- r ;; k" := (bind r (fun p => k))
  (at level 61, p pattern, r at next level, right associativity).

(* ================================================================= *)
(** ** Python string primitives *)

Module Py.

Definition chr (n : nat) : ascii := ascii_of_nat n.
Definition ord (c : ascii) : nat := nat_of_ascii c.

(** [c in chars] for a one-character [c]. *)
Fixpoint mem (c : ascii) (chars : string) : bool :=
  match chars with
  | EmptyString => false
  | String d rest => Ascii.eqb c d || mem c rest
  end.

(** [str.isspace] on one character: the ASCII part of Unicode white space. *)
Definition isspace (c : ascii) : bool :=
  let n := ord c in
  ((9 <=? n) && (n <=? 13) || (28 <=? n) && (n <=? 32))%nat.

(** [str.isdigit] and the regular expression class [\d], ASCII part. *)
Definition isdigit (c : ascii) : bool :=
  let n := ord c in ((48 <=? n) && (n <=? 57))%nat.

Definition isupper (c : ascii) : bool :=
  let n := ord c in ((65 <=? n) && (n <=? 90))%nat.

(** [str.lower] on one ASCII character. *)
Definition lower_char (c : ascii) : ascii :=
  if isupper c then chr (ord c + 32) else c.

Fixpoint lower (s : string) : string :=
  match s with
  | EmptyString => EmptyString
  | String c rest => String (lower_char c) (lower rest)
  end.

Definition is_empty (s : string) : bool :=
  match s with EmptyString => true | _ => false end.

Fixpoint all (p : ascii -> bool) (s : string) : bool :=
  match s with
  | EmptyString => true
  | String c rest => p c && all p rest
  end.

(** The longest prefix whose characters satisfy [p], and what follows it:
    the shape of the [while i < len(content) and p(content[i])] loops. *)
Fixpoint span (p : ascii -> bool) (s : string) : string * string :=
  match s with
  | EmptyString => (EmptyString, EmptyString)
  | String c rest =>
      if p c then let '(a, b) := span p rest in (String c a, b)
      else (EmptyString, s)
  end.

Fixpoint lstrip_by (p : ascii -> bool) (s : string) : string :=
  match s with
  | EmptyString => EmptyString
  | String c rest => if p c then lstrip_by p rest else s
  end.

Fixpoint rstrip_by (p : ascii -> bool) (s : string) : string :=
  match s with
  | EmptyString => EmptyString
  | String c rest =>
      let r := rstrip_by p rest in
      if is_empty r && p c then EmptyString else String c r
  end.

(** [s.strip()], [s.strip(chars)] and [s.rstrip(chars)]. *)
Definition strip (s : string) : string := lstrip_by isspace (rstrip_by isspace s).
Definition strip_chars (chars s : string) : string :=
  lstrip_by (fun c => mem c chars) (rstrip_by (fun c => mem c chars) s).
Definition rstrip_chars (chars s : string) : string :=
  rstrip_by (fun c => mem c chars) s.

Definition startswith (s p : string) : bool := String.prefix p s.

(** [s[n:]]. *)
Fixpoint drop (n : nat) (s : string) : string :=
  match n, s with
  | O, _ => s
  | S n', String _ rest => drop n' rest
  | S _, EmptyString => EmptyString
  end.

(** [s.split(sep)] for a one-character separator: never an empty list. *)
Fixpoint split (sep : ascii) (s : string) : list string :=
  match s with
  | EmptyString => [EmptyString]
  | String c rest =>
      if Ascii.eqb c sep then EmptyString :: split sep rest
      else match split sep rest with
           | [] => [String c EmptyString]
           | p :: ps => String c p :: ps
           end
  end.

(** [sep.join(parts)]. *)
Definition join (sep : string) (parts : list string) : string :=
  String.concat sep parts.

(** [s * n]. *)
Fixpoint repeat_str (s : string) (n : nat) : string :=
  match n with
  | O => EmptyString
  | S n' => s ++ repeat_str s n'
  end.

(** [needle in s] for strings. *)
Fixpoint contains (needle s : string) : bool :=
  String.prefix needle s ||
  match s with
  | EmptyString => false
  | String _ rest => contains needle rest
  end.

(** [str(n)] for an int. *)
Definition str_int (n : Z) : string := NilZero.string_of_int (Z.to_int n).

Definition hex_digit (n : nat) : ascii :=
  if (n <? 10)%nat then chr (48 + n) else chr (87 + n).

Definition dquote : ascii := chr 34.
Definition squote : ascii := chr 39.
Definition backslash : ascii := chr 92.

Definition repr_char (quote c : ascii) : string :=
  if Ascii.eqb c backslash || Ascii.eqb c quote then String backslash (String c "")
  else if Ascii.eqb c (chr 9) then String backslash "t"
  else if Ascii.eqb c (chr 10) then String backslash "n"
  else if Ascii.eqb c (chr 13) then String backslash "r"
  else if (ord c <? 32)%nat || (ord c =? 127)%nat then
    String backslash (String "x" (String (hex_digit (ord c / 16))
                                         (String (hex_digit (ord c mod 16)) "")))
  else String c "".

Fixpoint repr_body (quote : ascii) (s : string) : string :=
  match s with
  | EmptyString => EmptyString
  | String c rest => repr_char quote c ++ repr_body quote rest
  end.

(** [repr(s)] for an ASCII string: single quotes unless the text holds a
    single quote and no double quote. *)
Definition repr (s : string) : string :=
  let quote := if mem squote s && negb (mem dquote s) then dquote else squote in
  String quote (repr_body quote s ++ String quote "").

(** The digits of a non-empty all-digit string, as a number. *)
Definition digits_value (s : string) : option Z :=
  match s with
  | EmptyString => None
  | _ => option_map Z.of_uint (NilEmpty.uint_of_string s)
  end.

(** The optional sign of a float literal, and the text after it. *)
Definition float_sign (t : string) : Z * string :=
  match t with
  | String "-" b => ((-1)%Z, b)
  | String "+" b => (1%Z, b)
  | _ => (1%Z, t)
  end.

(** The unsigned part of a float literal: digits [. digits], or . digits. *)
Definition float_magnitude (body : string) : option Q :=
  let '(ip, rest) := span isdigit body in
  match rest with
  | EmptyString => option_map inject_Z (digits_value ip)
  | String "." fp =>
      if is_empty fp then option_map inject_Z (digits_value ip)
      else if all isdigit fp then
        match digits_value fp with
        | Some f =>
            let i := match digits_value ip with Some i => i | None => 0 end in
            Some (inject_Z i + inject_Z f / inject_Z (10 ^ Z.of_nat (String.length fp)))%Q
        | None => None
        end
      else None
  | _ => None
  end.

(** [float(s)]: [None] stands for the [ValueError] Python raises.
    Reads [ws] [sign] digits [. digits] [ws] and [ws] [sign] . digits [ws].
    Exponents, digit-group underscores and the spellings of infinity and NaN
    are not read; no token of the tokenizer contains their characters. *)
Definition float (s : string) : option Q :=
  let '(sign, body) := float_sign (strip s) in
  option_map (fun m => (inject_Z sign * m)%Q) (float_magnitude body).

(** [a / b] on floats. *)
Definition truediv (a b : Q) : result Q :=
  if Qeq_bool b 0 then Raise ZeroDivisionError else Ok (a / b)%Q.

(** [int(x)] on a float: truncation towards zero.  It is total on the
    rationals; the floats on which Python raises, the infinities with
    [OverflowError] and NaN with [ValueError], are none of them. *)
Definition int_of_float (x : Q) : Z :=
  if Qle_bool 0 x then Qfloor x else Qceiling x.

Definition Qlt_bool (a b : Q) : bool := negb (Qle_bool b a).

Fixpoint fraction_digits (places : nat) (num den : Z) : string :=
  match places with
  | O => EmptyString
  | S places' =>
      if num =? 0 then EmptyString
      else String (chr (48 + Z.to_nat (10 * num / den)))
                  (fraction_digits places' (10 * num mod den) den)
  end.

(** [str(x)] for a float, in positional notation.  It is the text Python
    prints when the decimal expansion ends within 17 places, as it does for
    every bar length; longer expansions are cut there. *)
Definition str_float (x : Q) : string :=
  let d := Z.pos (Qden x) in
  let a := Z.abs (Qnum x) in
  (if Qnum x <? 0 then "-" else "") ++ str_int (a / d) ++ "." ++
  (if a mod d =? 0 then "0" else fraction_digits 17 (a mod d) d).

(** [str.upper] on ASCII text, and [s.replace(old, '')] for a one-character
    [old]. *)
Definition islower (c : ascii) : bool :=
  let n := ord c in ((97 <=? n) && (n <=? 122))%nat.

Definition upper_char (c : ascii) : ascii :=
  if islower c then chr (ord c - 32) else c.

Fixpoint upper (s : string) : string :=
  match s with
  | EmptyString => EmptyString
  | String c rest => String (upper_char c) (upper rest)
  end.

Fixpoint remove (old : ascii) (s : string) : string :=
  match s with
  | EmptyString => EmptyString
  | String c rest =>
      if Ascii.eqb c old then remove old rest else String c (remove old rest)
  end.

End Py.

(** The [ValueError] of a failed [float(s)]. *)
Definition float_or_raise (s : string) : result Q :=
  match Py.float s with
  | Some q => Ok q
  | None => Raise (ValueError ("could not convert string to float: " ++ Py.repr s))
  end.

(* ================================================================= *)
(** ** Constants and data model *)

(** [VALID_BAR_LENGTHS]: powers of two from 1/8 to 16 bars. *)
Definition VALID_BAR_LENGTHS : list Q :=
  [0.125; 0.25; 0.5; 1; 2; 4; 8; 16]%Q.

(** [ABC_BASE_NOTES]: [None] when the letter is not a key of the table. *)
Definition ABC_BASE_NOTES (c : ascii) : option Z :=
  match c with
  | "C" => Some 48 | "D" => Some 50 | "E" => Some 52 | "F" => Some 53
  | "G" => Some 55 | "A" => Some 57 | "B" => Some 59
  | "c" => Some 60 | "d" => Some 62 | "e" => Some 64 | "f" => Some 65
  | "g" => Some 67 | "a" => Some 69 | "b" => Some 71
  | _ => None
  end%char.

Definition NOTE_NAMES : list string :=
  ["C"; "C#"; "D"; "D#"; "E"; "F"; "F#"; "G"; "G#"; "A"; "A#"; "B"].

Definition SCALES (name : string) : option (list Z) :=
  if (name =? "major")%string then Some [0; 2; 4; 5; 7; 9; 11]
  else if (name =? "minor")%string then Some [0; 2; 3; 5; 7; 8; 10]
  else if (name =? "dorian")%string then Some [0; 2; 3; 5; 7; 9; 10]
  else if (name =? "mixolydian")%string then Some [0; 2; 4; 5; 7; 9; 10]
  else if (name =? "pentatonic_major")%string then Some [0; 2; 4; 7; 9]
  else if (name =? "pentatonic_minor")%string then Some [0; 3; 5; 7; 10]
  else if (name =? "blues")%string then Some [0; 3; 5; 6; 7; 10]
  else if (name =? "chromatic")%string then Some [0; 1; 2; 3; 4; 5; 6; 7; 8; 9; 10; 11]
  else None.

(** A note dictionary: a key that is absent is [None]. *)
Record NoteEvent : Type := mkNote {
  pitch : option Z;
  startBeat : option Q;
  lengthBeats : option Q;
  velocity : option Q
}.

(** A program dictionary. *)
Record Program : Type := mkProgram {
  lengthBars : option Q;
  notes : list NoteEvent
}.

Record ValidationResult : Type := mkResult {
  valid : bool;
  abc_input : string;
  program : option Program;
  errors : list string;
  warnings : list string;
  abc_output : option string
}.

(* ================================================================= *)
(** ** Note and rest parser *)

(** The fraction branch the source writes out three times
    ([parts = s.split('/')], then [float(parts[0]) / float(parts[1])], or
    [1.0 / float(parts[1])] when [parts[0]] is empty). *)
Definition slash_duration (s : string) : result Q :=
  match Py.split "/" s with
  | p0 :: p1 :: _ =>
      if Py.is_empty p0 then
        d <- float_or_raise p1 ;; Py.truediv 1 d
      else
        n <- float_or_raise p0 ;; d <- float_or_raise p1 ;; Py.truediv n d
  | _ => Raise IndexError
  end.

Definition single_quote : string := String Py.squote "".

(** The accidental prefix of [parse_abc_note]: the semitone delta and the
    text after the prefix. *)
Definition accidental_prefix (note : string) : Z * string :=
  if Py.startswith note "^^" then (2, Py.drop 2 note)
  else if Py.startswith note "^" then (1, Py.drop 1 note)
  else if Py.startswith note "__" then (-2, Py.drop 2 note)
  else if Py.startswith note "_" then (-1, Py.drop 1 note)
  else if Py.startswith note "=" then (0, Py.drop 1 note)
  else (0, note).

Definition parse_abc_note (token : string) : result (Z * Q) :=
  if Py.is_empty token then Raise (ValueError "Empty note token") else
  let note := Py.strip token in
  if Py.startswith note "z" || Py.startswith note "Z" then
    (* Handle rest *)
    let rest_part := Py.drop 1 note in
    duration <-
      (if Py.is_empty rest_part then Ok 1%Q
       else if Py.mem "/" rest_part then slash_duration rest_part
       else match Py.float rest_part with
            | Some d => Ok d
            | None => Ok 1%Q          (* except ValueError: pass *)
            end) ;;
    Ok (-1, duration)
  else
    let '(accidental, note) := accidental_prefix note in
    match note with
    | EmptyString => Raise (ValueError ("Invalid ABC note: " ++ token))
    | String base_char note =>
        match ABC_BASE_NOTES base_char with
        | None =>
            Raise (ValueError ("Invalid note letter '" ++ String base_char ""
                               ++ "' in: " ++ token))
        | Some base =>
            let midi := base + accidental in
            (* Count octave modifiers *)
            let '(ups, note) := Py.span (Ascii.eqb Py.squote) note in
            let midi := midi + 12 * Z.of_nat (String.length ups) in
            let '(downs, note) := Py.span (Ascii.eqb ",") note in
            let midi := midi - 12 * Z.of_nat (String.length downs) in
            if (midi <? 0) || (midi >? 127) then
              Raise (ValueError ("Note out of MIDI range (0-127): " ++ token
                                 ++ " -> " ++ Py.str_int midi))
            else
              duration <-
                (if Py.is_empty note then Ok 1%Q
                 else if Py.mem "/" note then slash_duration note
                 else match Py.float note with
                      | Some d => Ok d
                      | None => Raise (ValueError ("Invalid duration in: " ++ token))
                      end) ;;
              Ok (midi, duration)
        end
    end.

(* ================================================================= *)
(** ** Chord parser *)

(** Whether the whole of [s] reads [\d+(?:/\d+)?] or [\d*/\d+]. *)
Definition is_duration_text (s : string) : bool :=
  let '(a, r) := Py.span Py.isdigit s in
  match r with
  | EmptyString => negb (Py.is_empty a)
  | String "/" b => negb (Py.is_empty b) && Py.all Py.isdigit b
  | _ => false
  end.

(** The pattern anchored by [$] at one position: the end of the text, or
    just before a final line feed. *)
Definition duration_at_end (s : string) : option string :=
  if is_duration_text s then Some s
  else
    let body := Py.rstrip_by (Ascii.eqb (Py.chr 10)) s in
    if (s =? body ++ String (Py.chr 10) "")%string && is_duration_text body
    then Some body else None.

(** [re.search(r'(\d+(?:/\d+)?|\d*/\d+)$', s)]: group 1 of the leftmost
    match. *)
Fixpoint search_duration (s : string) : option string :=
  match duration_at_end s with
  | Some d => Some d
  | None =>
      match s with
      | EmptyString => None
      | String _ rest => search_duration rest
      end
  end.

Definition is_pitch_letter (c : ascii) : bool := Py.mem c "ABCDEFGabcdefg".

(** One match of [note_pattern] at the start of [s]: an optional accidental
    (one or two carets, one or two underscores, or an equals sign), a letter
    of [A-Ga-g], then any run of quotes and commas.  The result holds the
    three groups and the text after the match; the candidates for group 1
    are tried in the order the expression backtracks. *)
Definition note_pattern_at (s : string)
  : option (string * ascii * string * string) :=
  let with_accidental (acc : string) :=
    if Py.startswith s acc then
      match Py.drop (String.length acc) s with
      | String l r =>
          if is_pitch_letter l then
            let '(oct, after) :=
              Py.span (fun c => Py.mem c (String Py.squote ",")) r in
            Some (acc, l, oct, after)
          else None
      | EmptyString => None
      end
    else None in
  List.fold_right
    (fun acc later => match with_accidental acc with
                      | Some m => Some m
                      | None => later
                      end)
    None ["^^"; "^"; "__"; "_"; "="; ""].

(** [note_pattern.finditer(inner)]: the loop may look at every position at
    most once, so [fuel = len(inner)] is enough. *)
Fixpoint note_pattern_finditer (fuel : nat) (s : string)
  : list (string * ascii * string) :=
  match fuel with
  | O => []
  | S fuel' =>
      match s with
      | EmptyString => []
      | String _ rest =>
          match note_pattern_at s with
          | Some (acc, l, oct, after) =>
              (acc, l, oct) :: note_pattern_finditer fuel' after
          | None => note_pattern_finditer fuel' rest
          end
      end
  end.

(** The body of the [for match in ...] loop of [parse_abc_chord]. *)
Fixpoint chord_members (chord_duration : Q)
  (matches : list (string * ascii * string)) : result (list (Z * Q)) :=
  match matches with
  | [] => Ok []
  | (accidental_str, note_letter, octave_mod) :: later =>
      let note_token := accidental_str ++ String note_letter octave_mod in
      match parse_abc_note note_token with
      | Ok (midi, _) =>
          rest <- chord_members chord_duration later ;;
          Ok ((midi, chord_duration) :: rest)
      | Raise (ValueError _) => chord_members chord_duration later
      | Raise e => Raise e
      end
  end.

Definition parse_abc_chord (chord_str : string) : result (list (Z * Q)) :=
  let inner := Py.strip_chars "[]" chord_str in
  if Py.is_empty inner then Ok [] else
  let chord_duration := 1%Q in
  (* computed by the source and never read again *)
  let duration_match := search_duration (Py.rstrip_chars "]" chord_str) in
  chord_members chord_duration
    (note_pattern_finditer (String.length inner) inner).

(* ================================================================= *)
(** ** Tokenizer *)

(** [re.match(r'^[A-Z]:', l)]. *)
Definition is_header_line (l : string) : bool :=
  match l with
  | String c (String ":" _) => Py.isupper c
  | _ => false
  end.

(** [re.sub(r'\|+', ' ', s)] and [re.sub(r'\s+', ' ', s)]: every maximal run
    of characters satisfying [p] becomes one space.  [in_run] tells that the
    previous character belonged to a run already replaced. *)
Fixpoint sub_runs_from (p : ascii -> bool) (in_run : bool) (s : string) : string :=
  match s with
  | EmptyString => EmptyString
  | String c rest =>
      if p c then
        if in_run then sub_runs_from p true rest
        else String " " (sub_runs_from p true rest)
      else String c (sub_runs_from p false rest)
  end.

Definition sub_runs (p : ascii -> bool) (s : string) : string :=
  sub_runs_from p false s.

(** The text [tokenize_abc] scans: header lines removed, bar lines and runs
    of white space turned into single spaces. *)
Definition note_content (abc_str : string) : string :=
  let lines := Py.split (Py.chr 10) (Py.strip abc_str) in
  let note_lines := List.filter (fun l => negb (is_header_line l)) lines in
  let content := Py.join " " note_lines in
  let content := sub_runs (Ascii.eqb "|") content in
  Py.strip (sub_runs Py.isspace content).

(** [content.find(']', i)] from a position: the text before the first [']']
    and the text after it. *)
Fixpoint find_close (s : string) : option (string * string) :=
  match s with
  | EmptyString => None
  | String c rest =>
      if Ascii.eqb c "]" then Some (EmptyString, rest)
      else match find_close rest with
           | Some (inside, after) => Some (String c inside, after)
           | None => None
           end
  end.

Definition is_duration_char (c : ascii) : bool :=
  Py.isdigit c || Ascii.eqb c "/".

(** The [while i < len(content)] loop on the text from position [i] on.
    Every turn moves [i] forward, so [fuel = len(content)] turns suffice. *)
Fixpoint tokenize_loop (fuel : nat) (content : string) : list string :=
  match fuel with
  | O => []
  | S fuel' =>
      match content with
      | EmptyString => []
      | String c rest =>
          if Py.isspace c then tokenize_loop fuel' rest
          else if Ascii.eqb c "[" then
            match find_close rest with
            | None => tokenize_loop fuel' rest
            | Some (inside, after) =>
                let chord := String "[" (inside ++ "]") in
                let '(suffix, after) := Py.span is_duration_char after in
                (chord ++ suffix) :: tokenize_loop fuel' after
            end
          else if Py.mem c "ABCDEFGabcdefgzZ^_=" then
            let '(accidentals, r) := Py.span (fun c => Py.mem c "^_=") content in
            let '(letter, r) :=
              match r with
              | String l r' =>
                  if Py.mem l "ABCDEFGabcdefgzZ" then (String l "", r')
                  else (EmptyString, r)
              | EmptyString => (EmptyString, r)
              end in
            let '(octaves, r) :=
              Py.span (fun c => Py.mem c (String Py.squote ",")) r in
            let '(duration, r) := Py.span is_duration_char r in
            let token := accidentals ++ letter ++ octaves ++ duration in
            (if Py.is_empty token then [] else [token]) ++ tokenize_loop fuel' r
          else tokenize_loop fuel' rest
      end
  end.

Definition tokenize_abc (abc_str : string) : list string :=
  let content := note_content abc_str in
  tokenize_loop (String.length content) content.

(* ================================================================= *)
(** ** Program builder *)

(** The state the [for token in tokens] loop of [abc_to_program] carries. *)
Record Builder : Type := mkBuilder {
  parse_errors : list string;
  built_notes : list NoteEvent;
  current_beat : Q
}.

(** The duration the builder reads from a chord token. *)
Definition chord_token_duration (token : string) : result Q :=
  match search_duration (Py.rstrip_chars "]" token) with
  | Some dur_str =>
      if Py.mem "/" dur_str then slash_duration dur_str
      else float_or_raise dur_str
  | None => Ok 1%Q
  end.

Definition note_event (midi : Z) (start duration default_velocity : Q) : NoteEvent :=
  {| pitch := Some midi;
     startBeat := Some start;
     lengthBeats := Some duration;
     velocity := Some default_velocity |}.

(** The [try] block of one turn of the loop. *)
Definition build_token (default_velocity : Q) (st : Builder) (token : string)
  : result Builder :=
  if Py.startswith token "[" then
    (* Chord - all notes start at same beat *)
    chord_notes <- parse_abc_chord token ;;
    duration <- chord_token_duration token ;;
    Ok {| parse_errors := parse_errors st;
          built_notes :=
            built_notes st ++
            List.map (fun '(midi, _) =>
                        note_event midi (current_beat st) duration default_velocity)
                     chord_notes;
          current_beat := (current_beat st + duration)%Q |}
  else
    (* Single note or rest *)
    '(midi, duration) <- parse_abc_note token ;;
    Ok {| parse_errors := parse_errors st;
          built_notes :=
            built_notes st ++
            (if midi >=? 0
             then [note_event midi (current_beat st) duration default_velocity]
             else []);
          current_beat := (current_beat st + duration)%Q |}.

(** One turn of the loop: the message of a [ValueError] is collected,
    anything else the [try] block raises leaves the function. *)
Definition builder_step (default_velocity : Q) (st : Builder) (token : string)
  : result Builder :=
  match build_token default_velocity st token with
  | Raise (ValueError msg) =>
      Ok {| parse_errors := parse_errors st ++ [msg];
            built_notes := built_notes st;
            current_beat := current_beat st |}
  | other => other
  end.

Fixpoint builder_loop (default_velocity : Q) (st : Builder) (tokens : list string)
  : result Builder :=
  match tokens with
  | [] => Ok st
  | token :: later =>
      st' <- builder_step default_velocity st token ;;
      builder_loop default_velocity st' later
  end.

Definition initial_builder : Builder :=
  {| parse_errors := []; built_notes := []; current_beat := 0%Q |}.

(** [for valid in VALID_BAR_LENGTHS: if valid >= x: ...; break]. *)
Fixpoint first_at_least (x : Q) (lengths : list Q) : option Q :=
  match lengths with
  | [] => None
  | v :: later => if Qle_bool x v then Some v else first_at_least x later
  end.

(** The bar-length computation that ends [abc_to_program]. *)
Definition quantize_bars (total_beats : Q) (beats_per_bar : Z) : Q :=
  let bars :=
    if beats_per_bar >? 0 then (total_beats / inject_Z beats_per_bar)%Q
    else total_beats in
  match first_at_least (bars - 0.001)%Q VALID_BAR_LENGTHS with
  | Some v => v
  | None => List.last VALID_BAR_LENGTHS 1%Q
  end.

Definition abc_to_program (abc_str : string) (beats_per_bar : Z)
  (default_velocity : Q) : result (Program * list string) :=
  let tokens := tokenize_abc abc_str in
  st <- builder_loop default_velocity initial_builder tokens ;;
  let total_beats := current_beat st in
  let length_bars := quantize_bars total_beats beats_per_bar in
  Ok ({| lengthBars := Some length_bars; notes := built_notes st |},
      parse_errors st).

Definition default_beats_per_bar : Z := 4.
Definition default_velocity_value : Q := 0.8%Q.

(* ================================================================= *)
(** ** Serializer *)

Definition index_of (x : Z) (l : list Z) : option nat :=
  (fix go (l : list Z) (i : nat) : option nat :=
     match l with
     | [] => None
     | y :: later => if x =? y then Some i else go later (S i)
     end) l O.

Definition natural_notes : list Z := [0; 2; 4; 5; 7; 9; 11].
Definition note_names_list : list ascii := ["C"; "D"; "E"; "F"; "G"; "A"; "B"]%char.

(** The duration suffix [midi_to_abc] appends to a note. *)
Definition duration_suffix (duration_beats : Q) : string :=
  let near (x : Q) := Py.Qlt_bool (Qabs (duration_beats - x)) 0.01 in
  if near 0.25%Q then "/4"
  else if near 0.5%Q then "/2"
  else if near 1%Q then ""
  else if near 2%Q then "2"
  else if near 3%Q then "3"
  else if near 4%Q then "4"
  else if Qeq_bool duration_beats (inject_Z (Py.int_of_float duration_beats)) then
    Py.str_int (Py.int_of_float duration_beats)
  else
    (* Express as fraction of quarter note *)
    let numerator := Py.int_of_float (duration_beats * 4) in
    if numerator >? 0 then Py.str_int numerator ++ "/4" else "".

Definition midi_to_abc (pitch : Z) (duration_beats : Q) : result string :=
  let octave := pitch / 12 in
  let note_in_octave := pitch mod 12 in
  let is_sharp := negb (existsb (Z.eqb note_in_octave) natural_notes) in
  let base_note := if is_sharp then note_in_octave - 1 else note_in_octave in
  match index_of base_note natural_notes with
  | None => Raise (ValueError (Py.str_int base_note ++ " is not in list"))
  | Some note_idx =>
      let note_char := List.nth note_idx note_names_list "C"%char in
      let result :=
        if octave >=? 5 then
          let note_char := Py.lower_char note_char in
          (if is_sharp then String "^" (String note_char "") else String note_char "")
          ++ (if octave >? 5
              then Py.repeat_str single_quote (Z.to_nat (octave - 5)) else "")
        else
          (if is_sharp then String "^" (String note_char "") else String note_char "")
          ++ (if octave <? 4
              then Py.repeat_str "," (Z.to_nat (4 - octave)) else "") in
      Ok (result ++ duration_suffix duration_beats)
  end.

(** [by_time]: a dictionary from start beats to the notes that start there,
    in insertion order. *)
Fixpoint by_time_add (start : Q) (note : NoteEvent)
  (by_time : list (Q * list NoteEvent)) : list (Q * list NoteEvent) :=
  match by_time with
  | [] => [(start, [note])]
  | (k, group) :: later =>
      if Qeq_bool start k then (k, (group ++ [note])%list) :: later
      else (k, group) :: by_time_add start note later
  end.

Definition start_or_zero (note : NoteEvent) : Q :=
  match startBeat note with Some s => s | None => 0%Q end.

Definition group_by_time (notes : list NoteEvent) : list (Q * list NoteEvent) :=
  List.fold_left (fun by_time note => by_time_add (start_or_zero note) note by_time)
                 notes [].

Fixpoint by_time_get (start : Q) (by_time : list (Q * list NoteEvent))
  : list NoteEvent :=
  match by_time with
  | [] => []
  | (k, group) :: later =>
      if Qeq_bool start k then group else by_time_get start later
  end.

(** [sorted(keys)] for keys that differ pairwise. *)
Fixpoint insert_sorted (x : Q) (l : list Q) : list Q :=
  match l with
  | [] => [x]
  | y :: later => if Qle_bool x y then x :: l else y :: insert_sorted x later
  end.

Definition sorted (l : list Q) : list Q := List.fold_right insert_sorted [] l.

Definition pitch_or_raise (n : NoteEvent) : result Z :=
  match pitch n with Some p => Ok p | None => Raise (KeyError "pitch") end.

Definition length_or_one (n : NoteEvent) : Q :=
  match lengthBeats n with Some d => d | None => 1%Q end.

Fixpoint map_result {A B : Type} (f : A -> result B) (l : list A) : result (list B) :=
  match l with
  | [] => Ok []
  | a :: later => b <- f a ;; bs <- map_result f later ;; Ok (b :: bs)
  end.

(** The text one group of simultaneous notes is written as. *)
Definition group_to_abc (group : list NoteEvent) : result string :=
  match group with
  | [n] =>
      (* Single note *)
      p <- pitch_or_raise n ;;
      midi_to_abc p (length_or_one n)
  | [] => Raise IndexError
  | first :: _ =>
      (* Chord *)
      let duration := length_or_one first in
      chord_notes <-
        map_result (fun n => p <- pitch_or_raise n ;; midi_to_abc p 1%Q) group ;;
      let chord_str := "[" ++ Py.join "" chord_notes ++ "]" in
      Ok (chord_str ++
          (if Py.Qlt_bool 0.01 (Qabs (duration - 1)) then
             if Qeq_bool duration (inject_Z (Py.int_of_float duration)) then
               Py.str_int (Py.int_of_float duration)
             else if Py.Qlt_bool (Qabs (duration - 0.5)) 0.01 then "/2"
             else if Py.Qlt_bool (Qabs (duration - 0.25)) 0.01 then "/4"
             else ""
           else ""))
  end.

(** [x // n] and [x % n] for a float [x] and an int [n]. *)
Definition floordiv (x : Q) (n : Z) : result Q :=
  if n =? 0 then Raise ZeroDivisionError
  else Ok (inject_Z (Qfloor (x / inject_Z n))).

Definition float_mod (x : Q) (n : Z) : result Q :=
  if n =? 0 then Raise ZeroDivisionError
  else Ok (x - inject_Z n * inject_Z (Qfloor (x / inject_Z n)))%Q.

(** The [for start_time in sorted_times] loop: the parts written so far are
    returned with [notes_in_bar]. *)
Fixpoint abc_parts_loop (by_time : list (Q * list NoteEvent)) (beats_per_bar : Z)
  (sorted_times : list Q) (notes_in_bar : Z) : result (list string) :=
  match sorted_times with
  | [] => Ok []
  | start_time :: later =>
      let group := by_time_get start_time by_time in
      q <- floordiv start_time beats_per_bar ;;
      let bar_num := Py.int_of_float q in
      new_bar <-
        (if (bar_num >? 0) && (notes_in_bar >? 0) then
           r <- float_mod start_time beats_per_bar ;; Ok (Py.Qlt_bool r 0.01)
         else Ok false) ;;
      let notes_in_bar := if new_bar then 0 else notes_in_bar in
      text <- group_to_abc group ;;
      parts <- abc_parts_loop by_time beats_per_bar later (notes_in_bar + 1) ;;
      Ok ((if new_bar then ["|"] else []) ++ text :: parts)%list
  end.

Definition program_to_abc (program : Program) (beats_per_bar : Z) : result string :=
  match notes program with
  | [] => Ok "z4 |"
  | _ =>
      let by_time := group_by_time (notes program) in
      let sorted_times := sorted (List.map fst by_time) in
      abc_parts <- abc_parts_loop by_time beats_per_bar sorted_times 0 ;;
      Ok (Py.join " " (abc_parts ++ ["|"])%list)
  end.

(* ================================================================= *)
(** ** Validator *)

Definition midi_to_note_name (midi : Z) : string :=
  let octave := midi / 12 - 1 in
  let note := List.nth (Z.to_nat (midi mod 12)) NOTE_NAMES "" in
  note ++ Py.str_int octave.

(** [get_scale_notes]: the set is a list; only membership and emptiness are
    asked of it. *)
Definition get_scale_notes (root : Z) (scale_name : string) : list Z :=
  match SCALES scale_name with
  | None => []
  | Some intervals =>
      List.flat_map
        (fun octave =>
           let base := octave * 12 in
           List.filter (fun note => (0 <=? note) && (note <=? 127))
             (List.map (fun interval => base + root mod 12 + interval) intervals))
        [0; 1; 2; 3; 4; 5; 6; 7; 8; 9; 10]
  end.

Definition str_float_list (l : list Q) : string :=
  "[" ++ Py.join ", " (List.map Py.str_float l) ++ "]".

(** The checks on one note: its errors and its warnings. *)
Definition validate_note (key : option Z) (scale : option string)
  (scale_notes : option (list Z)) (total_beats : Q) (i : nat) (note : NoteEvent)
  : list string * list string :=
  let prefix := "Note " ++ Py.str_int (Z.of_nat i) in
  let '(pitch_errors, pitch_warnings) :=
    match pitch note with
    | None => ([prefix ++ ": Missing 'pitch'"], [])
    | Some p =>
        if (p <? 0) || (p >? 127) then
          ([prefix ++ ": Invalid pitch " ++ Py.str_int p], [])
        else
          match scale_notes with
          | Some ((_ :: _) as members) =>
              if negb (existsb (Z.eqb p) members) then
                ([], [prefix ++ " (" ++ midi_to_note_name p ++ "): Outside "
                      ++ List.nth (Z.to_nat
                                     (match key with Some k => k | None => 0 end mod 12))
                                  NOTE_NAMES ""
                      ++ " " ++ match scale with Some s => s | None => "" end
                      ++ " scale"])
              else ([], [])
          | _ => ([], [])
          end
    end in
  let start_errors :=
    match startBeat note with
    | None => [prefix ++ ": Missing 'startBeat'"]
    | Some start =>
        if Py.Qlt_bool start 0 then [prefix ++ ": Negative startBeat"]
        else if Py.Qlt_bool 0 total_beats && Qle_bool total_beats start then
          [prefix ++ ": Starts past program end"]
        else []
    end in
  let length_errors :=
    match lengthBeats note with
    | None => [prefix ++ ": Missing 'lengthBeats'"]
    | Some length =>
        if Qle_bool length 0 then [prefix ++ ": Non-positive duration"] else []
    end in
  let velocity_errors :=
    match velocity note with
    | None => [prefix ++ ": Missing 'velocity'"]
    | Some v =>
        if Py.Qlt_bool v 0 || Py.Qlt_bool 1 v then
          [prefix ++ ": Velocity must be 0.0-1.0"]
        else []
    end in
  ((pitch_errors ++ start_errors ++ length_errors ++ velocity_errors)%list,
   pitch_warnings).

(** The [for i, note in enumerate(notes)] loop from index [i] on. *)
Fixpoint validate_notes (key : option Z) (scale : option string)
  (scale_notes : option (list Z)) (total_beats : Q) (i : nat)
  (notes : list NoteEvent) : list string * list string :=
  match notes with
  | [] => ([], [])
  | note :: later =>
      let '(e, w) := validate_note key scale scale_notes total_beats i note in
      let '(es, ws) :=
        validate_notes key scale scale_notes total_beats (S i) later in
      ((e ++ es)%list, (w ++ ws)%list)
  end.

Definition validate_program (program : Program) (key : option Z)
  (scale : option string) (beats_per_bar : Z) : list string * list string :=
  let length_bars := lengthBars program in
  let errors :=
    match length_bars with
    | None => ["Missing 'lengthBars'"]
    | Some lb =>
        if negb (existsb (fun v => Py.Qlt_bool (Qabs (lb - v)) 0.001)
                         VALID_BAR_LENGTHS)
        then ["Invalid bar length " ++ Py.str_float lb ++ ". Must be: "
              ++ str_float_list VALID_BAR_LENGTHS]
        else []
    end in
  match notes program with
  | [] => (errors, ["Empty program (will silence track)"])
  | _ =>
      let total_beats :=
        (match length_bars with Some lb => lb | None => 0 end
         * inject_Z beats_per_bar)%Q in
      let scale_notes :=
        match key, scale with
        | Some k, Some (String _ _ as name) => Some (get_scale_notes k name)
        | _, _ => None
        end in
      let '(note_errors, warnings) :=
        validate_notes key scale scale_notes total_beats O (notes program) in
      ((errors ++ note_errors)%list, warnings)
  end.

(* ================================================================= *)
(** ** The pipeline *)

Definition validate_abc (abc_str : string) (key : option Z)
  (scale : option string) (beats_per_bar : Z) : result ValidationResult :=
  (* Step 1: Parse ABC to program *)
  '(program, parse_errors) <-
    abc_to_program abc_str beats_per_bar default_velocity_value ;;
  match parse_errors with
  | _ :: _ =>
      Ok {| valid := false; abc_input := abc_str; program := None;
            errors := parse_errors; warnings := []; abc_output := None |}
  | [] =>
      (* Step 2: Validate program *)
      let '(val_errors, val_warnings) :=
        validate_program program key scale beats_per_bar in
      match val_errors with
      | _ :: _ =>
          Ok {| valid := false; abc_input := abc_str; program := Some program;
                errors := val_errors; warnings := val_warnings;
                abc_output := None |}
      | [] =>
          (* Step 3: Generate normalized ABC *)
          abc_output <- program_to_abc program beats_per_bar ;;
          Ok {| valid := true; abc_input := abc_str; program := Some program;
                errors := []; warnings := val_warnings;
                abc_output := Some abc_output |}
      end
  end.

(* ================================================================= *)
(** ** The command line *)

(** [key_map] of [main]. *)
Definition key_map (name : string) : option Z :=
  if (name =? "C")%string then Some 0
  else if (name =? "D")%string then Some 2
  else if (name =? "E")%string then Some 4
  else if (name =? "F")%string then Some 5
  else if (name =? "G")%string then Some 7
  else if (name =? "A")%string then Some 9
  else if (name =? "B")%string then Some 11
  else None.

(** The block of [main] that reads the [--key] argument: the pitch class of
    the key, or [None] when there is no argument or it names no key. *)
Definition main_key (arg : option string) : option Z :=
  match arg with
  | Some (String _ _ as k) =>
      let key_upper := Py.remove "B" (Py.remove "#" (Py.upper k)) in
      match key_map key_upper with
      | Some key =>
          let key :=
            if Py.mem "#" k then key + 1
            else if Py.mem "b" (Py.lower k) then key - 1
            else key in
          Some (key mod 12)
      | None => None
      end
  | _ => None
  end.

(* ================================================================= *)
(** ** The token grammar *)

(** The accidental markers and their semitone deltas. *)
Definition accidental_delta (acc : string) : option Z :=
  if (acc =? "")%string then Some 0
  else if (acc =? "^")%string then Some 1
  else if (acc =? "^^")%string then Some 2
  else if (acc =? "_")%string then Some (-1)
  else if (acc =? "__")%string then Some (-2)
  else if (acc =? "=")%string then Some 0
  else None.

Definition quotes (n : nat) : string := Py.repeat_str single_quote n.
Definition commas (n : nat) : string := Py.repeat_str "," n.

(** A note token as the parser reads it: accidental, letter, a run of
    quotes, a run of commas, and the text left for the duration. *)
Definition note_token (acc : string) (letter : ascii) (ups downs : nat)
  (suffix : string) : string :=
  acc ++ String letter (quotes ups ++ commas downs ++ suffix).

(** The characters a slash-free token has after its letter. *)
Definition is_octave_or_digit (c : ascii) : bool :=
  Py.isdigit c || Ascii.eqb c Py.squote || Ascii.eqb c ",".

(** The suffix begins where the parser's two runs end: not at a comma, and
    at a quote only after at least one comma. *)
Definition suffix_after_octaves (downs : nat) (suffix : string) : bool :=
  match suffix with
  | EmptyString => true
  | String c _ =>
      negb (Ascii.eqb c ",") && (negb (Ascii.eqb c Py.squote) || (0 <? downs)%nat)
  end.

(** The pitches one token contributes to the program: those of the chord
    members, or the pitch of the note; none for a rest and for a token the
    builder reports as an error. *)
Definition token_pitches (token : string) : list Z :=
  if Py.startswith token "[" then
    match parse_abc_chord token, chord_token_duration token with
    | Ok members, Ok _ => List.map fst members
    | _, _ => []
    end
  else
    match parse_abc_note token with
    | Ok (midi, _) => if midi >=? 0 then [midi] else []
    | Raise _ => []
    end.

(* ================================================================= *)
(** ** Programs written back to back *)

(** The notes that start together: their pitches and velocities, and the
    length they share. *)
Definition Group : Type := (list (Z * Q) * Q)%type.

Definition group_notes (cursor : Q) (g : Group) : list NoteEvent :=
  List.map (fun '(p, vel) => mkNote (Some p) (Some cursor) (Some (snd g)) (Some vel))
           (fst g).

(** The program whose groups follow one another from [cursor] on, each one
    starting where the one before it ends. *)
Fixpoint lay_out (cursor : Q) (groups : list Group) : list NoteEvent :=
  match groups with
  | [] => []
  | g :: later => (group_notes cursor g ++ lay_out (cursor + snd g) later)%list
  end.

Definition pitch_in_range (p : Z) : bool := (0 <=? p) && (p <=? 127).

(** A positive whole number of quarter beats. *)
Definition is_quarter_multiple (d : Q) : bool :=
  Py.Qlt_bool 0 d && Qeq_bool (d * 4) (inject_Z (Qfloor (d * 4))).

(** A quarter beat, half a beat, or a positive whole number of beats. *)
Definition is_chord_length (d : Q) : bool :=
  Qeq_bool d 0.25 || Qeq_bool d 0.5
  || (Qle_bool 1 d && Qeq_bool d (inject_Z (Qfloor d))).

(** A group the serializer writes without loss: pitches in the MIDI range,
    a single note with a quarter-multiple length, or a chord with a chord
    length. *)
Definition writable_group (g : Group) : bool :=
  match fst g with
  | [] => false
  | [(p, _)] => pitch_in_range p && is_quarter_multiple (snd g)
  | members =>
      List.forallb (fun m => pitch_in_range (fst m)) members
      && is_chord_length (snd g)
  end.

Definition same_beat (a b : option Q) : Prop :=
  match a, b with
  | Some x, Some y => (x == y)%Q
  | None, None => True
  | _, _ => False
  end.

(** Two note events with the same pitch, start and length. *)
Definition same_triple (a b : NoteEvent) : Prop :=
  pitch a = pitch b /\
  same_beat (startBeat a) (startBeat b) /\
  same_beat (lengthBeats a) (lengthBeats b).

(* ================================================================= *)
(** * Notions used in the statements and in the proofs *)

Local Open Scope Q_scope.

(** The character [c] does not occur in the text. *)
Definition free (c : ascii) (s : string) : Prop := Py.mem c s = false.

Definition is_note_token_char (c : ascii) : bool :=
  Py.mem c "^_=" || Py.mem c "ABCDEFGabcdefgzZ"
  || Py.mem c (String Py.squote ",") || is_duration_char c.

(** A token either opens with a bracket or is made of the characters of the
    note grammar. *)
Definition token_shape (t : string) : Prop :=
  Py.startswith t "[" = true \/ Py.all is_note_token_char t = true.

(** The start beats so far are in order and none lies after the cursor. *)
Definition starts_in_order (st : Builder) : Prop :=
  exists starts : list Q,
    List.map startBeat (built_notes st) = List.map Some starts /\
    StronglySorted Qle starts /\
    Forall (fun s => s <= current_beat st) starts.

(** The accidental, the letter and the numbers of quotes and commas
    [midi_to_abc] writes for a pitch. *)
Definition pitch_parts (p : Z) : string * ascii * nat * nat :=
  let octave := (p / 12)%Z in
  let note_in_octave := (p mod 12)%Z in
  let is_sharp := negb (existsb (Z.eqb note_in_octave) natural_notes) in
  let base_note := if is_sharp then (note_in_octave - 1)%Z else note_in_octave in
  let note_char :=
    match index_of base_note natural_notes with
    | Some i => List.nth i note_names_list "C"%char
    | None => "C"%char
    end in
  let acc := if is_sharp then "^"%string else ""%string in
  if (octave >=? 5)%Z then
    (acc, Py.lower_char note_char,
     if (octave >? 5)%Z then Z.to_nat (octave - 5) else O, O)
  else
    (acc, note_char, O, if (octave <? 4)%Z then Z.to_nat (4 - octave) else O).

Definition pitch_text (p : Z) : string :=
  let '(acc, letter, ups, downs) := pitch_parts p in
  note_token acc letter ups downs "".

(** The facts about one pitch that the round trip needs, as a test. *)
Definition pitch_writes_back (p : Z) : bool :=
  let '(acc, letter, ups, downs) := pitch_parts p in
  match midi_to_abc p 1, accidental_delta acc, ABC_BASE_NOTES letter with
  | Ok text, Some delta, Some base =>
      (text =? pitch_text p)%string
      && (base + delta + 12 * Z.of_nat ups - 12 * Z.of_nat downs =? p)%Z
      && ((acc =? "")%string || (acc =? "^")%string)
  | _, _, _ => false
  end.

(** The duration a suffix stands for, as the note parser and the builder of
    chords read it. *)
Definition suffix_value (s : string) : result Q :=
  if Py.is_empty s then Ok 1
  else if Py.mem "/" s then slash_duration s
  else float_or_raise s.

(** What a written duration has to be for the round trip: its characters
    are those of a duration, it is empty or matches the pattern of a
    duration, and it reads back as [d]. *)
Definition writes_duration (suffix : string) (d : Q) : Prop :=
  Py.all is_duration_char suffix = true /\
  (suffix = ""%string \/ is_duration_text suffix = true) /\
  exists q, suffix_value suffix = Ok q /\ q == d.

(** The duration [program_to_abc] writes after a chord. *)
Definition chord_suffix (duration : Q) : string :=
  if Py.Qlt_bool 0.01 (Qabs (duration - 1)) then
    if Qeq_bool duration (inject_Z (Py.int_of_float duration)) then
      Py.str_int (Py.int_of_float duration)
    else if Py.Qlt_bool (Qabs (duration - 0.5)) 0.01 then "/2"
    else if Py.Qlt_bool (Qabs (duration - 0.25)) 0.01 then "/4"
    else ""
  else "".

(** The table [program_to_abc] builds for a program written back to back:
    one entry for each group, in order. *)
Fixpoint entries (cursor : Q) (groups : list Group) : list (Q * list NoteEvent) :=
  match groups with
  | [] => []
  | g :: later => (cursor, group_notes cursor g) :: entries (cursor + snd g) later
  end.

Definition proper_group (g : Group) : Prop := fst g <> [] /\ 0 < snd g.

Definition keys_below (c : Q) (table : list (Q * list NoteEvent)) : Prop :=
  Forall (fun e => fst e < c) table.

Definition add_note (by_time : list (Q * list NoteEvent)) (note : NoteEvent) :=
  by_time_add (start_or_zero note) note by_time.

Definition flat (l : list string) : string := fold_right String.append ""%string l.

(** The text [program_to_abc] writes for one group. *)
Definition group_text (g : Group) : string :=
  match fst g with
  | [(p, _)] => (pitch_text p ++ duration_suffix (snd g))%string
  | members =>
      String "[" (flat (List.map (fun m => pitch_text (fst m)) members) ++ "]")
      ++ chord_suffix (snd g)
  end.

(** The parts [abc_parts_loop] returns: each text, after a bar line when the
    flag is set. *)
Fixpoint with_bars (items : list (bool * string)) : list string :=
  match items with
  | [] => []
  | (bar, text) :: later => ((if bar then ["|"%string] else []) ++ text :: with_bars later)%list
  end.

(** A character of a written token: no white space, no bar, no colon. *)
Definition clean_char (c : ascii) : bool :=
  negb (Py.isspace c) && negb (Ascii.eqb c "|") && negb (Ascii.eqb c ":").

Definition clean (t : string) : Prop :=
  Py.is_empty t = false /\ Py.all clean_char t = true.

(** Every text followed by one space. *)
Definition units (l : list string) : string :=
  flat (List.map (fun t => t ++ " ")%string l).

(** The text after the bar lines have become spaces: a text after a bar line
    has two more spaces in front. *)
Definition spaced (items : list (bool * string)) : string :=
  flat (List.map (fun '(bar, t) => (if bar : bool then "  " else "") ++ t ++ " ")%string
                 items).

(** A character of the written program: of a token, a space or a bar. *)
Definition written_char (c : ascii) : bool :=
  clean_char c || Ascii.eqb c " " || Ascii.eqb c "|".

Definition is_octave_char (c : ascii) : bool := Py.mem c (String Py.squote ",").

(** A written note and a written chord, as the tokenizer takes them apart. *)
Definition note_form (t : string) : Prop :=
  exists acc letter octs sfx,
    t = (acc ++ String letter (octs ++ sfx))%string /\
    (acc = ""%string \/ acc = "^"%string) /\
    is_pitch_letter letter = true /\
    Py.all is_octave_char octs = true /\
    Py.all is_duration_char sfx = true.

Definition chord_form (t : string) : Prop :=
  exists body sfx,
    t = (String "[" (body ++ "]") ++ sfx)%string /\
    Py.mem "]" body = false /\
    Py.all is_duration_char sfx = true.

(** The text after a token: nothing, or a space first. *)
Definition stops (rest : string) : Prop :=
  match rest with
  | EmptyString => True
  | String c _ => c = " "%char
  end.

Definition written_token (t : string) : Prop := note_form t \/ chord_form t.

Definition is_pitch_text_char (c : ascii) : bool := Py.mem c "^ABCDEFGabcdefg',".

Definition chord_body (members : list (Z * Q)) : string :=
  flat (List.map (fun m => pitch_text (fst m)) members).

(** What is left of a chord token after its closing bracket is stripped,
    when nothing follows the bracket. *)
Definition after_body (sfx : string) : string :=
  if Py.is_empty sfx then ""%string else String "]" sfx.

(** The two kinds of exception the parsers raise. *)
Definition value_or_zero_division (e : exn) : Prop :=
  (exists msg, e = ValueError msg) \/ e = ZeroDivisionError.

(** Every note has a pitch. *)
Definition pitched (ns : list NoteEvent) : Prop :=
  Forall (fun n => exists p, pitch n = Some p) ns.

(** Every group of the table has a note, and all its notes have a pitch. *)
Definition sound_table (table : list (Q * list NoteEvent)) : Prop :=
  Forall (fun e => snd e <> [] /\ pitched (snd e)) table.

(** A note the validator accepts in a program of [total_beats] beats. *)
Definition well_formed_note (total_beats : Q) (n : NoteEvent) : Prop :=
  exists p s l v,
    n = mkNote (Some p) (Some s) (Some l) (Some v) /\
    (0 <= p <= 127)%Z /\
    0 <= s /\ (0 < total_beats -> s < total_beats) /\
    0 < l /\
    0 <= v <= 1.

(** A bar length within the tolerance of a legal one. *)
Definition legal_bar_length (lb : Q) : Prop :=
  exists v, In v VALID_BAR_LENGTHS /\ Qabs (lb - v) < 0.001.

(** The characters [midi_to_abc] writes. *)
Definition is_note_text_char (c : ascii) : bool :=
  Py.mem c "^ABCDEFGabcdefg',0123456789/-".

(** The characters [program_to_abc] writes for a program with notes. *)
Definition is_program_text_char (c : ascii) : bool :=
  is_note_text_char c || Py.mem c "[]| ".

(** A character that cannot open a token. *)
Definition opens_no_token (c : ascii) : bool :=
  negb (Py.mem c "ABCDEFGabcdefgzZ^_=[").

(** A match of the chord parser's pattern: one of the accidentals the
    pattern allows, a letter of A-G or a-g, and a run of quotes and commas. *)
Definition member_match (m : string * ascii * string) : Prop :=
  let '(acc, l, oct) := m in
  In acc ["^^"; "^"; "__"; "_"; "="; ""]%string /\
  is_pitch_letter l = true /\
  Py.all is_octave_char oct = true.

(** A note event as the builder makes it: a pitch in the MIDI range, a
    start beat and a length that are not negative, the given velocity. *)
Definition built_note (v : Q) (n : NoteEvent) : Prop :=
  exists p start d,
    n = note_event p start d v /\ (0 <= p <= 127)%Z /\ 0 <= start /\ 0 <= d.

(** A note the pipeline accepts in a program of [total_beats] beats: its
    length is positive and it starts before the end of the program (when
    the program has a positive length). *)
Definition playable_note (total_beats : Q) (n : NoteEvent) : Prop :=
  exists start d,
    startBeat n = Some start /\ lengthBeats n = Some d /\
    0 < d /\ (0 < total_beats -> start < total_beats).

(** A note or rest token as the tokenizer cuts it: accidental signs, at
    most one letter, octave marks, duration characters, with a sign or a
    letter at least. *)
Definition note_shape (t : string) : Prop :=
  exists acc letter octs sfx,
    t = (acc ++ letter ++ octs ++ sfx)%string /\
    Py.all (fun c => Py.mem c "^_=") acc = true /\
    (letter = ""%string \/
     exists l, letter = String l "" /\ Py.mem l "ABCDEFGabcdefgzZ" = true) /\
    Py.all is_octave_char octs = true /\
    Py.all is_duration_char sfx = true /\
    Py.is_empty (acc ++ letter) = false.

(** A text in which white space only occurs as single spaces, and which
    holds no bar line: every white-space character is a space and is not
    followed by white space. *)
Fixpoint single_spaced (s : string) : bool :=
  match s with
  | EmptyString => true
  | String c rest =>
      negb (Ascii.eqb c "|")
      && (negb (Py.isspace c)
          || (Ascii.eqb c " "
              && match rest with
                 | String d _ => negb (Py.isspace d)
                 | EmptyString => true
                 end))
      && single_spaced rest
  end.

(** The first character, if any, is not white space; likewise the last. *)
Definition head_tight (s : string) : bool :=
  match s with
  | String c _ => negb (Py.isspace c)
  | EmptyString => true
  end.

Fixpoint last_tight (s : string) : bool :=
  match s with
  | EmptyString => true
  | String c EmptyString => negb (Py.isspace c)
  | String _ rest => last_tight rest
  end.

(** A token as the tokenizer returns it. *)
Definition cut_token (t : string) : Prop :=
  (note_shape t \/ chord_form t) /\
  single_spaced t = true /\ last_tight t = true.

(** A run of [n] zeros. *)
Definition zeros (n : nat) : string := Py.repeat_str "0" n.

(** A duration suffix that is written out and stands for zero: one or more
    zeros, alone or as the numerator of a fraction whose denominator is a
    number other than zero. *)
Definition zero_suffix (sfx : string) : Prop :=
  exists n : nat,
    sfx = zeros (S n) \/
    exists (den : string) (v : Z),
      sfx = (zeros (S n) ++ String "/" den)%string /\
      Py.all Py.isdigit den = true /\
      Py.digits_value den = Some v /\ v <> 0%Z.

(** A note token with a zero duration suffix, and the pitch it names: an
    accidental, a letter of [ABC_BASE_NOTES], quotes, commas and the suffix,
    with the pitch within the MIDI range. *)
Definition zero_length_token (token : string) (midi : Z) : Prop :=
  exists acc delta letter base ups downs sfx,
    token = note_token acc letter ups downs sfx /\
    accidental_delta acc = Some delta /\
    ABC_BASE_NOTES letter = Some base /\
    midi = (base + delta + 12 * Z.of_nat ups - 12 * Z.of_nat downs)%Z /\
    (0 <= midi <= 127)%Z /\
    zero_suffix sfx.

(* ================================================================= *)
(** ** The builder in binary64 arithmetic *)

(** The rationals above stand for Python's floats wherever rounding,
    infinities and NaN do not decide the outcome.  The bar-length quantizer
    is decided by them: its test [valid >= bars - 0.001] compares a rounded
    difference of a rounded quotient.  The numeric path of [abc_to_program]
    is therefore given a second time, on IEEE 754 binary64 values, every
    operation rounding to nearest, ties to even, as Python's does. *)

Module Binary64.

Definition prec : Z := 53.
Definition emax : Z := 1024.

Definition float : Type := spec_float.

Definition add (x y : float) : float := SFadd prec emax x y.
Definition sub (x y : float) : float := SFsub prec emax x y.
Definition div (x y : float) : float := SFdiv prec emax x y.

(** [x <= y]; false when either side is NaN. *)
Definition leb (x y : float) : bool := SFleb x y.

(** The float nearest to the rational [n / d]. *)
Definition nearest (negative : bool) (n d : positive) : float :=
  SFdiv prec emax (S754_finite negative n 0) (S754_finite false d 0).

(** A decimal literal of the source: [digits] with the point [places]
    digits from the right, as in [0.001 = decimal 1 3]. *)
Definition decimal (digits : positive) (places : nat) : float :=
  nearest false digits (Z.to_pos (10 ^ Z.of_nat places)).

(** [float(s)]: the float nearest to the number [s] spells, infinity when
    it is beyond the floats.  The spellings read are those of [Py.float]. *)
Definition float_or_raise (s : string) : result float :=
  let '(sign, body) := Py.float_sign (Py.strip s) in
  match Py.float_magnitude body with
  | Some m =>
      Ok match Qnum m with
         | Z.pos n => nearest (sign <? 0) n (Qden m)
         | _ => S754_zero (sign <? 0)
         end
  | None => Raise (ValueError ("could not convert string to float: " ++ Py.repr s))
  end.

Definition is_zero (x : float) : bool :=
  match x with
  | S754_zero _ => true
  | _ => false
  end.

(** [a / b] on floats: only a zero divisor raises. *)
Definition truediv (a b : float) : result float :=
  if is_zero b then Raise ZeroDivisionError else Ok (div a b).

(** [float(n)] for an [int]: the nearest float, or [OverflowError]. *)
Definition of_int (n : Z) : result float :=
  match binary_normalize prec emax n 0 false with
  | S754_infinity _ => Raise OverflowError
  | x => Ok x
  end.

(** [x / n] for a float and an [int]: the [int] is converted first. *)
Definition truediv_int (x : float) (n : Z) : result float :=
  b <- of_int n ;;
  if (n =? 0)%Z then Raise ZeroDivisionError else Ok (div x b).

Definition one : float := decimal 10 1.
Definition zero : float := S754_zero false.

Definition VALID_BAR_LENGTHS : list float :=
  [decimal 125 3; decimal 25 2; decimal 5 1; decimal 10 1;
   decimal 20 1; decimal 40 1; decimal 80 1; decimal 160 1].

Record NoteEvent : Type := mkNote {
  pitch : option Z;
  startBeat : option float;
  lengthBeats : option float;
  velocity : option float
}.

Record Program : Type := mkProgram {
  lengthBars : option float;
  notes : list NoteEvent
}.

Definition slash_duration (s : string) : result float :=
  match Py.split "/" s with
  | p0 :: p1 :: _ =>
      if Py.is_empty p0 then
        d <- float_or_raise p1 ;; truediv one d
      else
        n <- float_or_raise p0 ;; d <- float_or_raise p1 ;; truediv n d
  | _ => Raise IndexError
  end.

Definition parse_abc_note (token : string) : result (Z * float) :=
  if Py.is_empty token then Raise (ValueError "Empty note token") else
  let note := Py.strip token in
  if Py.startswith note "z" || Py.startswith note "Z" then
    let rest_part := Py.drop 1 note in
    duration <-
      (if Py.is_empty rest_part then Ok one
       else if Py.mem "/" rest_part then slash_duration rest_part
       else match float_or_raise rest_part with
            | Raise (ValueError _) => Ok one      (* except ValueError: pass *)
            | other => other
            end) ;;
    Ok ((-1)%Z, duration)
  else
    let '(accidental, note) := accidental_prefix note in
    match note with
    | EmptyString => Raise (ValueError ("Invalid ABC note: " ++ token))
    | String base_char note =>
        match ABC_BASE_NOTES base_char with
        | None =>
            Raise (ValueError ("Invalid note letter '" ++ String base_char ""
                               ++ "' in: " ++ token))
        | Some base =>
            let midi := (base + accidental)%Z in
            let '(ups, note) := Py.span (Ascii.eqb Py.squote) note in
            let midi := (midi + 12 * Z.of_nat (String.length ups))%Z in
            let '(downs, note) := Py.span (Ascii.eqb ",") note in
            let midi := (midi - 12 * Z.of_nat (String.length downs))%Z in
            if (midi <? 0)%Z || (midi >? 127)%Z then
              Raise (ValueError ("Note out of MIDI range (0-127): " ++ token
                                 ++ " -> " ++ Py.str_int midi))
            else
              duration <-
                (if Py.is_empty note then Ok one
                 else if Py.mem "/" note then slash_duration note
                 else match float_or_raise note with
                      | Raise (ValueError _) =>
                          Raise (ValueError ("Invalid duration in: " ++ token))
                      | other => other
                      end) ;;
              Ok (midi, duration)
        end
    end.

Fixpoint chord_members (chord_duration : float)
  (matches : list (string * ascii * string)) : result (list (Z * float)) :=
  match matches with
  | [] => Ok []
  | (accidental_str, note_letter, octave_mod) :: later =>
      let note_token := (accidental_str ++ String note_letter octave_mod)%string in
      match parse_abc_note note_token with
      | Ok (midi, _) =>
          rest <- chord_members chord_duration later ;;
          Ok ((midi, chord_duration) :: rest)
      | Raise (ValueError _) => chord_members chord_duration later
      | Raise e => Raise e
      end
  end.

Definition parse_abc_chord (chord_str : string) : result (list (Z * float)) :=
  let inner := Py.strip_chars "[]" chord_str in
  if Py.is_empty inner then Ok [] else
  let chord_duration := one in
  (* computed by the source and never read again *)
  let duration_match := search_duration (Py.rstrip_chars "]" chord_str) in
  chord_members chord_duration
    (note_pattern_finditer (String.length inner) inner).

Record Builder : Type := mkBuilder {
  parse_errors : list string;
  built_notes : list NoteEvent;
  current_beat : float
}.

Definition chord_token_duration (token : string) : result float :=
  match search_duration (Py.rstrip_chars "]" token) with
  | Some dur_str =>
      if Py.mem "/" dur_str then slash_duration dur_str
      else float_or_raise dur_str
  | None => Ok one
  end.

Definition note_event (midi : Z) (start duration default_velocity : float)
  : NoteEvent :=
  {| pitch := Some midi;
     startBeat := Some start;
     lengthBeats := Some duration;
     velocity := Some default_velocity |}.

Definition build_token (default_velocity : float) (st : Builder) (token : string)
  : result Builder :=
  if Py.startswith token "[" then
    chord_notes <- parse_abc_chord token ;;
    duration <- chord_token_duration token ;;
    Ok {| parse_errors := parse_errors st;
          built_notes :=
            built_notes st ++
            List.map (fun '(midi, _) =>
                        note_event midi (current_beat st) duration default_velocity)
                     chord_notes;
          current_beat := add (current_beat st) duration |}
  else
    '(midi, duration) <- parse_abc_note token ;;
    Ok {| parse_errors := parse_errors st;
          built_notes :=
            built_notes st ++
            (if (midi >=? 0)%Z
             then [note_event midi (current_beat st) duration default_velocity]
             else []);
          current_beat := add (current_beat st) duration |}.

Definition builder_step (default_velocity : float) (st : Builder) (token : string)
  : result Builder :=
  match build_token default_velocity st token with
  | Raise (ValueError msg) =>
      Ok {| parse_errors := parse_errors st ++ [msg];
            built_notes := built_notes st;
            current_beat := current_beat st |}
  | other => other
  end.

Fixpoint builder_loop (default_velocity : float) (st : Builder)
  (tokens : list string) : result Builder :=
  match tokens with
  | [] => Ok st
  | token :: later =>
      st' <- builder_step default_velocity st token ;;
      builder_loop default_velocity st' later
  end.

Definition initial_builder : Builder :=
  {| parse_errors := []; built_notes := []; current_beat := zero |}.

(** [for valid in VALID_BAR_LENGTHS: if valid >= x: ...; break]. *)
Fixpoint first_at_least (x : float) (lengths : list float) : option float :=
  match lengths with
  | [] => None
  | v :: later => if leb x v then Some v else first_at_least x later
  end.

(** The bar-length computation that ends [abc_to_program]. *)
Definition quantize_bars (total_beats : float) (beats_per_bar : Z) : result float :=
  bars <- (if (beats_per_bar >? 0)%Z then truediv_int total_beats beats_per_bar
           else Ok total_beats) ;;
  match first_at_least (sub bars (decimal 1 3)) VALID_BAR_LENGTHS with
  | Some v => Ok v
  | None => Ok (List.last VALID_BAR_LENGTHS one)
  end.

Definition abc_to_program (abc_str : string) (beats_per_bar : Z)
  (default_velocity : float) : result (Program * list string) :=
  let tokens := tokenize_abc abc_str in
  st <- builder_loop default_velocity initial_builder tokens ;;
  let total_beats := current_beat st in
  length_bars <- quantize_bars total_beats beats_per_bar ;;
  Ok ({| lengthBars := Some length_bars; notes := built_notes st |},
      parse_errors st).

Definition default_velocity_value : float := decimal 8 1.

End Binary64.

(** An [int] that converts to a float.  For a number of beats per bar
    beyond the floats the conversion raises [OverflowError] in
    [total_beats / beats_per_bar] and in [length_bars * beats_per_bar],
    where the rationals go on. *)
Definition float_holds (n : Z) : Prop := exists b, Binary64.of_int n = Ok b.

(* ================================================================= *)
(** * Properties *)

(** ** Worked inputs *)

Lemma quantize_bars_zero (beats_per_bar : Z) :
  quantize_bars 0 beats_per_bar = 0.125.
Proof.
  unfold quantize_bars.
  assert (E : Qle_bool ((if (beats_per_bar >? 0)%Z
                         then 0 / inject_Z beats_per_bar else 0) - 0.001)
                       0.125 = true).
  { apply Qle_bool_iff.
    assert (Z0 : (if (beats_per_bar >? 0)%Z
                  then 0 / inject_Z beats_per_bar else 0) == 0).
    { destruct (beats_per_bar >? 0)%Z; [unfold Qdiv; apply Qmult_0_l | reflexivity]. }
    rewrite Z0. discriminate. }
  cbn [VALID_BAR_LENGTHS first_at_least]. rewrite E. reflexivity.
Qed.

(** C2: the builder on ["[CEG]2"] with four beats per bar.  The text is one
    chord token; the loop ends with exactly three note events, pitches 48,
    52 and 55, all starting at beat 0, all two beats long, all with the
    default velocity 0.8, and with the beat cursor at 2. *)
Theorem chord_CEG2_builds_three_notes :
  tokenize_abc "[CEG]2" = ["[CEG]2"%string] /\
  builder_loop default_velocity_value initial_builder (tokenize_abc "[CEG]2") =
    Ok {| parse_errors := [];
          built_notes := [note_event 48 0 2 0.8; note_event 52 0 2 0.8;
                          note_event 55 0 2 0.8];
          current_beat := 2 |} /\
  abc_to_program "[CEG]2" 4 default_velocity_value =
    Ok ({| lengthBars := Some 0.5;
           notes := [note_event 48 0 2 0.8; note_event 52 0 2 0.8;
                     note_event 55 0 2 0.8] |}, []).
Proof. repeat split; vm_compute; reflexivity. Qed.

(** C8: the pipeline on the empty text, whatever the key, the scale and the
    beats per bar.  The result is valid, its program has no notes, there is
    no error, and the only warning is "Empty program (will silence track)":
    a text that contains the word empty, here capitalised. *)
Theorem validate_abc_empty_text :
  forall (key : option Z) (scale : option string) (beats_per_bar : Z),
  exists r : ValidationResult,
    validate_abc "" key scale beats_per_bar = Ok r /\
    valid r = true /\
    option_map notes (program r) = Some [] /\
    errors r = [] /\
    warnings r = ["Empty program (will silence track)"%string] /\
    List.Exists (fun w => Py.contains "empty" (Py.lower w) = true) (warnings r).
Proof.
  intros key scale beats_per_bar.
  eexists. split.
  - unfold validate_abc, abc_to_program.
    change (tokenize_abc "") with (@nil string).
    cbn [builder_loop bind initial_builder current_beat built_notes parse_errors].
    rewrite quantize_bars_zero. vm_compute. reflexivity.
  - cbn. repeat split. constructor. vm_compute. reflexivity.
Qed.

(** C1: the token ["C/0"] is a note with the duration suffix [/0].  The
    parser divides by zero: the exception is a [ZeroDivisionError], which the
    builder's [except ValueError] does not catch, so it leaves
    [abc_to_program] and [validate_abc] instead of becoming a parse error. *)
Theorem zero_denominator_escapes_the_builder :
  tokenize_abc "C/0" = ["C/0"%string] /\
  parse_abc_note "C/0" = Raise ZeroDivisionError /\
  abc_to_program "C/0" 4 default_velocity_value = Raise ZeroDivisionError /\
  validate_abc "C/0" None None 4 = Raise ZeroDivisionError.
Proof. repeat split; vm_compute; reflexivity. Qed.

(** C3: the chord parser on ["[CEG]2"] pairs every pitch with the duration
    1, not with the suffix 2. *)
Theorem parse_abc_chord_ignores_the_suffix :
  parse_abc_chord "[CEG]2" = Ok [(48%Z, 1); (52%Z, 1); (55%Z, 1)] /\
  search_duration (Py.rstrip_chars "]" "[CEG]2") = Some "2"%string.
Proof. split; vm_compute; reflexivity. Qed.

(* ================================================================= *)
(** ** Bar-length quantizer *)

Section FirstAtLeast.

Variable x : Q.

Lemma first_at_least_some (l : list Q) (v : Q) :
  first_at_least x l = Some v -> In v l /\ x <= v.
Proof.
  induction l as [|w l IH]; cbn; [discriminate|].
  destruct (Qle_bool x w) eqn:T.
  - intros [= <-]. split; [now left | now apply Qle_bool_iff].
  - intros E. destruct (IH E). split; [now right | assumption].
Qed.

End FirstAtLeast.

(** The program [abc_to_program] returns carries the quantized length of the
    beats its loop has counted. *)
Lemma abc_to_program_lengthBars abc_str beats_per_bar v p errs :
  abc_to_program abc_str beats_per_bar v = Ok (p, errs) ->
  exists st, builder_loop v initial_builder (tokenize_abc abc_str) = Ok st /\
             lengthBars p = Some (quantize_bars (current_beat st) beats_per_bar) /\
             notes p = built_notes st /\ errs = parse_errors st.
Proof.
  unfold abc_to_program.
  destruct (builder_loop v initial_builder (tokenize_abc abc_str)) as [st|e];
    cbn; [|discriminate].
  intros [= <- <-]. exists st. auto.
Qed.

Section FirstAtLeastBinary64.

Variable x : Binary64.float.

Lemma binary64_first_at_least_none (l : list Binary64.float) :
  Binary64.first_at_least x l = None ->
  forall v, In v l -> Binary64.leb x v = false.
Proof.
  induction l as [|w l IH]; cbn [Binary64.first_at_least]; intros E v Hv;
    [contradiction|].
  destruct (Binary64.leb x w) eqn:T; [discriminate|].
  destruct Hv as [<-|Hv]; [assumption | now apply IH].
Qed.

Lemma binary64_first_at_least_some (l : list Binary64.float) (v : Binary64.float) :
  Binary64.first_at_least x l = Some v -> In v l /\ Binary64.leb x v = true.
Proof.
  induction l as [|w l IH]; cbn [Binary64.first_at_least]; [discriminate|].
  destruct (Binary64.leb x w) eqn:T.
  - intros [= <-]. split; [now left | assumption].
  - intros E. destruct (IH E). split; [now right | assumption].
Qed.

(** On an ascending list the first member that passes the test is the
    smallest one that does. *)
Lemma binary64_first_at_least_smallest (l : list Binary64.float)
  (v : Binary64.float) :
  StronglySorted (fun a b => Binary64.leb a b = true) l ->
  Forall (fun a => Binary64.leb a a = true) l ->
  Binary64.first_at_least x l = Some v ->
  forall w, In w l -> Binary64.leb x w = true -> Binary64.leb v w = true.
Proof.
  induction 1 as [|a l Hs IH Ha]; cbn [Binary64.first_at_least]; [discriminate|].
  intros Hrefl. inversion Hrefl as [|? ? Haa Hl]; subst.
  destruct (Binary64.leb x a) eqn:T.
  - intros [= <-] w [<-|Hw] _; [assumption|].
    rewrite Forall_forall in Ha. now apply Ha.
  - intros E w [<-|Hw] Hx; [congruence | now apply IH].
Qed.

End FirstAtLeastBinary64.

Lemma binary64_lengths_ascending :
  StronglySorted (fun a b => Binary64.leb a b = true) Binary64.VALID_BAR_LENGTHS /\
  Forall (fun a => Binary64.leb a a = true) Binary64.VALID_BAR_LENGTHS.
Proof.
  split.
  - repeat (constructor; [|repeat (constructor; [vm_compute; reflexivity|]); constructor]).
    constructor.
  - repeat (constructor; [vm_compute; reflexivity|]). constructor.
Qed.

(** The program [Binary64.abc_to_program] returns carries the quantized
    length of the beats its loop has counted. *)
Lemma binary64_program_length abc_str beats_per_bar v p errs :
  Binary64.abc_to_program abc_str beats_per_bar v = Ok (p, errs) ->
  exists st length_bars,
    Binary64.builder_loop v Binary64.initial_builder (tokenize_abc abc_str) = Ok st /\
    Binary64.quantize_bars (Binary64.current_beat st) beats_per_bar = Ok length_bars /\
    Binary64.lengthBars p = Some length_bars /\
    Binary64.notes p = Binary64.built_notes st /\ errs = Binary64.parse_errors st.
Proof.
  unfold Binary64.abc_to_program.
  destruct (Binary64.builder_loop v Binary64.initial_builder (tokenize_abc abc_str))
    as [st|e]; cbn [bind]; [|discriminate].
  destruct (Binary64.quantize_bars (Binary64.current_beat st) beats_per_bar)
    as [lb|e] eqn:Eq; cbn [bind]; [|discriminate].
  intros [= <- <-]. exists st, lb. repeat split; try reflexivity. exact Eq.
Qed.

(** Where rounding decides.  A rest of 3003/1000 beats in bars of three:
    the quotient rounds to a float above 1.001, the difference to the float
    after 1, and the length is 2 where the rationals give 1; likewise for
    rests of 3/10 and 463/125 beats in bars of four.  And the float 0.126
    in bars of one: it lies above 0.126, yet the difference rounds to 0.125
    itself, and the length is 0.125. *)
Lemma rounding_decides_the_quantizer :
  Binary64.abc_to_program "z3003/1000" 3 Binary64.default_velocity_value
    = Ok ({| Binary64.lengthBars := Some (Binary64.decimal 20 1);
             Binary64.notes := [] |}, []) /\
  abc_to_program "z3003/1000" 3 default_velocity_value
    = Ok ({| lengthBars := Some 1; notes := [] |}, []) /\
  Binary64.abc_to_program "z3/10 z463/125" 4 Binary64.default_velocity_value
    = Ok ({| Binary64.lengthBars := Some (Binary64.decimal 20 1);
             Binary64.notes := [] |}, []) /\
  abc_to_program "z3/10 z463/125" 4 default_velocity_value
    = Ok ({| lengthBars := Some 1; notes := [] |}, []) /\
  Binary64.quantize_bars (Binary64.decimal 126 3) 1 = Ok (Binary64.decimal 125 3).
Proof. repeat split; vm_compute; reflexivity. Qed.

(** C6: in binary64 arithmetic, for every float of elapsed beats and every
    positive number of beats per bar that converts to a float, the
    quantizer returns a member of the legal lengths.  With
    [bars = total_beats / beats_per_bar] and the difference [bars - 0.001]
    rounded as the code rounds them, it is the smallest member that the
    difference is at most, whenever there is such a member, and it is 16
    when the test fails for every member.  Three beats in bars of four give
    the length 1. *)
Theorem quantizer_picks_smallest_legal_length :
  forall (total_beats : Binary64.float) (beats_per_bar : Z) (b : Binary64.float),
    (0 < beats_per_bar)%Z ->
    Binary64.of_int beats_per_bar = Ok b ->
    let bars := Binary64.div total_beats b in
    let least := Binary64.sub bars (Binary64.decimal 1 3) in
    exists length_bars : Binary64.float,
      Binary64.quantize_bars total_beats beats_per_bar = Ok length_bars /\
      In length_bars Binary64.VALID_BAR_LENGTHS /\
      ((exists v, In v Binary64.VALID_BAR_LENGTHS /\ Binary64.leb least v = true) ->
         Binary64.leb least length_bars = true /\
         forall v, In v Binary64.VALID_BAR_LENGTHS ->
                   Binary64.leb least v = true ->
                   Binary64.leb length_bars v = true) /\
      ((forall v, In v Binary64.VALID_BAR_LENGTHS -> Binary64.leb least v = false) ->
         length_bars = Binary64.decimal 160 1) /\
      (total_beats = Binary64.decimal 30 1 -> beats_per_bar = 4%Z ->
         length_bars = Binary64.one).
Proof.
  intros total_beats beats_per_bar b Hpos Hb bars least.
  assert (Hq : Binary64.quantize_bars total_beats beats_per_bar =
               Ok match Binary64.first_at_least least Binary64.VALID_BAR_LENGTHS with
                  | Some v => v
                  | None => Binary64.decimal 160 1
                  end).
  { unfold Binary64.quantize_bars, Binary64.truediv_int.
    assert (G : (beats_per_bar >? 0)%Z = true) by (apply Z.gtb_lt; lia).
    assert (N : (beats_per_bar =? 0)%Z = false) by (apply Z.eqb_neq; lia).
    rewrite G, Hb. cbn [bind]. rewrite N. cbn [bind].
    fold bars. fold least.
    destruct (Binary64.first_at_least least Binary64.VALID_BAR_LENGTHS); reflexivity. }
  destruct binary64_lengths_ascending as [Hsorted Hrefl].
  destruct (Binary64.first_at_least least Binary64.VALID_BAR_LENGTHS) as [v|] eqn:E.
  - destruct (binary64_first_at_least_some _ _ _ E) as [Hin Hle].
    pose proof (binary64_first_at_least_smallest _ _ _ Hsorted Hrefl E) as Hmin.
    exists v. split; [exact Hq|]. split; [exact Hin|]. split; [now split|]. split.
    + intros Hall. rewrite (Hall _ Hin) in Hle. discriminate.
    + intros -> ->. injection Hb as <-.
      revert E. unfold least, bars. vm_compute. now intros [= <-].
  - pose proof (binary64_first_at_least_none _ _ E) as Hnone.
    exists (Binary64.decimal 160 1). split; [exact Hq|].
    split; [vm_compute; tauto|]. split; [|split].
    + intros (w & Hw & Hle). rewrite (Hnone _ Hw) in Hle. discriminate.
    + reflexivity.
    + intros -> ->. injection Hb as <-.
      revert E. unfold least, bars. vm_compute. discriminate.
Qed.

Lemma quantizer_picks_smallest_legal_length_witness :
  exists length_bars : Binary64.float,
    Binary64.quantize_bars (Binary64.decimal 30 1) 4 = Ok length_bars /\
    length_bars = Binary64.one.
Proof.
  destruct (quantizer_picks_smallest_legal_length (Binary64.decimal 30 1) 4
              (Binary64.decimal 40 1) ltac:(lia) ltac:(vm_compute; reflexivity))
    as (length_bars & H1 & _ & _ & _ & H5).
  exists length_bars. split; [exact H1 | apply H5; reflexivity].
Defined.

(* ================================================================= *)
(** ** Facts about the string primitives *)

Section StringFacts.

Variable p : ascii -> bool.

Lemma all_app (s t : string) :
  Py.all p (s ++ t) = Py.all p s && Py.all p t.
Proof.
  induction s as [|c s IH]; cbn; [reflexivity|].
  rewrite IH. now rewrite andb_assoc.
Qed.

Lemma all_repeat_str (c : ascii) (n : nat) :
  p c = true -> Py.all p (Py.repeat_str (String c "") n) = true.
Proof. intros H. induction n; cbn; [reflexivity|]. now rewrite H, IHn. Qed.

Lemma lstrip_by_head (c : ascii) (s : string) :
  p c = false -> Py.lstrip_by p (String c s) = String c s.
Proof. intros H. cbn. now rewrite H. Qed.

Lemma rstrip_by_none (s : string) :
  Py.all (fun c => negb (p c)) s = true -> Py.rstrip_by p s = s.
Proof.
  induction s as [|c s IH]; cbn; [reflexivity|].
  intros H. apply andb_prop in H as [Hc Hs]. rewrite (IH Hs).
  apply negb_true_iff in Hc. rewrite Hc, andb_false_r. reflexivity.
Qed.

Lemma lstrip_by_none (s : string) :
  Py.all (fun c => negb (p c)) s = true -> Py.lstrip_by p s = s.
Proof.
  destruct s as [|c s]; cbn; [reflexivity|].
  intros H. apply andb_prop in H as [Hc _].
  apply negb_true_iff in Hc. now rewrite Hc.
Qed.

(** [span] stops in front of a character that fails the test. *)
Lemma span_app_stop (s t : string) :
  Py.all p s = true ->
  match t with String c _ => p c = false | EmptyString => True end ->
  Py.span p (s ++ t) = (s, t).
Proof.
  intros Hs Ht. induction s as [|c s IH]; cbn.
  - destruct t as [|c t]; cbn; [reflexivity|]. now rewrite Ht.
  - cbn in Hs. apply andb_prop in Hs as [Hc Hs].
    rewrite Hc, (IH Hs). reflexivity.
Qed.

Lemma span_spec (s a b : string) :
  Py.span p s = (a, b) ->
  s = a ++ b /\ Py.all p a = true /\
  match b with String c _ => p c = false | EmptyString => True end.
Proof.
  revert a b. induction s as [|c s IH]; cbn; intros a b.
  - intros [= <- <-]. auto.
  - destruct (p c) eqn:Hc.
    + destruct (Py.span p s) as [a' b'] eqn:E. intros [= <- <-].
      destruct (IH _ _ eq_refl) as (-> & Ha & Hb).
      cbn. rewrite Hc, Ha. auto.
    + intros [= <- <-]. auto.
Qed.

End StringFacts.

Lemma all_impl (p q : ascii -> bool) (s : string) :
  (forall c, p c = true -> q c = true) ->
  Py.all p s = true -> Py.all q s = true.
Proof.
  intros Hpq. induction s as [|c s IH]; cbn; [reflexivity|].
  intros H. apply andb_prop in H as [Hc Hs]. now rewrite (Hpq _ Hc), IH.
Qed.

Lemma mem_all_false (c : ascii) (s : string) :
  Py.all (fun d => negb (Ascii.eqb c d)) s = true -> Py.mem c s = false.
Proof.
  induction s as [|d s IH]; cbn; [reflexivity|].
  intros H. apply andb_prop in H as [Hd Hs].
  apply negb_true_iff in Hd. now rewrite Hd, IH.
Qed.

Lemma length_repeat_char (c : ascii) (n : nat) :
  String.length (Py.repeat_str (String c "") n) = n.
Proof. induction n; cbn; congruence. Qed.

Lemma app_assoc_str (a b c : string) : ((a ++ b) ++ c = a ++ (b ++ c))%string.
Proof. induction a; cbn; congruence. Qed.

Lemma app_empty_r (a : string) : (a ++ "")%string = a.
Proof. induction a; cbn; congruence. Qed.

Lemma strip_no_space (s : string) :
  Py.all (fun c => negb (Py.isspace c)) s = true -> Py.strip s = s.
Proof.
  intros H. unfold Py.strip.
  now rewrite (rstrip_by_none _ _ H), (lstrip_by_none _ _ H).
Qed.

(* ================================================================= *)
(** ** Duration suffixes that are not numbers *)

Ltac bits c := destruct c as [[|] [|] [|] [|] [|] [|] [|] [|]].

Lemma float_sign_plain (c : ascii) (s : string) :
  c <> "-"%char -> c <> "+"%char ->
  Py.float_sign (String c s) = (1%Z, String c s).
Proof. intros H1 H2. bits c; try reflexivity; congruence. Qed.

Lemma octave_or_digit_no_space (s : string) :
  Py.all is_octave_or_digit s = true ->
  Py.all (fun c => negb (Py.isspace c)) s = true.
Proof. apply all_impl. intros c. bits c; vm_compute; congruence. Qed.

Lemma octave_or_digit_no_slash (s : string) :
  Py.all is_octave_or_digit s = true -> Py.mem "/" s = false.
Proof.
  intros H. apply mem_all_false. revert H. apply all_impl.
  intros c. bits c; vm_compute; congruence.
Qed.

(** Digits, quotes and commas that do not spell a number are rejected by
    [float]. *)
Lemma float_rejects_octave_text (s : string) :
  s <> EmptyString ->
  Py.all is_octave_or_digit s = true ->
  is_duration_text s = false ->
  Py.float s = None.
Proof.
  intros Hne Hall Hdur.
  unfold Py.float. rewrite (strip_no_space _ (octave_or_digit_no_space _ Hall)).
  destruct s as [|c s]; [congruence|].
  rewrite float_sign_plain.
  2,3: cbn in Hall; apply andb_prop in Hall as [Hc _]; intros ->; discriminate.
  unfold Py.float_magnitude. unfold is_duration_text in Hdur.
  destruct (Py.span Py.isdigit (String c s)) as [ip rest] eqn:E.
  destruct (span_spec _ _ _ _ E) as (Hs & Hip & Hrest).
  destruct rest as [|d rest].
  - rewrite app_empty_r in Hs. subst ip. discriminate.
  - rewrite Hs, all_app in Hall. apply andb_prop in Hall as [_ Hd].
    cbn in Hd. apply andb_prop in Hd as [Hd _].
    revert Hd Hrest. clear. bits d; vm_compute; congruence.
Qed.

Lemma base_letter_cases (c : ascii) (b : Z) :
  ABC_BASE_NOTES c = Some b ->
  In c ["C"; "D"; "E"; "F"; "G"; "A"; "B"; "c"; "d"; "e"; "f"; "g"; "a"; "b"]%char.
Proof. bits c; cbn; intros H; try discriminate; tauto. Qed.

Lemma accidental_cases (acc : string) (delta : Z) :
  accidental_delta acc = Some delta ->
  (acc, delta) = (""%string, 0%Z) \/ (acc, delta) = ("^"%string, 1%Z) \/
  (acc, delta) = ("^^"%string, 2%Z) \/ (acc, delta) = ("_"%string, (-1)%Z) \/
  (acc, delta) = ("__"%string, (-2)%Z) \/ (acc, delta) = ("="%string, 0%Z).
Proof.
  unfold accidental_delta.
  repeat match goal with
         | |- context [String.eqb acc ?lit] =>
             destruct (String.eqb_spec acc lit) as [->|_];
             [intros [= <-]; tauto|]
         end.
  discriminate.
Qed.

(** The head of a grammatical note token, as [parse_abc_note] sees it. *)
Lemma note_token_head acc delta letter base (tail : string) :
  accidental_delta acc = Some delta -> ABC_BASE_NOTES letter = Some base ->
  let token := (acc ++ String letter tail)%string in
  Py.is_empty token = false /\
  Py.startswith token "z" || Py.startswith token "Z" = false /\
  accidental_prefix token = (delta, String letter tail) /\
  Py.all (fun c => negb (Py.isspace c)) (acc ++ String letter "")%string = true.
Proof.
  intros Ha Hb.
  apply accidental_cases in Ha.
  apply base_letter_cases in Hb. cbn in Hb.
  repeat (destruct Ha as [[= -> ->]|Ha]);
    try (injection Ha as -> ->);
    repeat (destruct Hb as [<-|Hb]); try contradiction;
    cbn; repeat split; reflexivity.
Qed.

Lemma quotes_commas_no_space ups downs suffix :
  Py.all is_octave_or_digit suffix = true ->
  Py.all (fun c => negb (Py.isspace c)) (quotes ups ++ commas downs ++ suffix)%string = true.
Proof.
  intros H. rewrite !all_app.
  unfold quotes, commas, single_quote.
  rewrite !all_repeat_str by reflexivity.
  now rewrite octave_or_digit_no_space.
Qed.

Lemma span_quotes ups downs suffix :
  suffix_after_octaves downs suffix = true ->
  Py.span (Ascii.eqb Py.squote) (quotes ups ++ commas downs ++ suffix)%string =
    (quotes ups, (commas downs ++ suffix)%string).
Proof.
  intros H. apply span_app_stop.
  - apply all_repeat_str. reflexivity.
  - destruct downs as [|downs]; [|reflexivity].
    destruct suffix as [|c s]; [exact I|].
    change ((Py.squote =? c)%char = false).
    unfold suffix_after_octaves in H. apply andb_prop in H as [_ H].
    rewrite orb_false_r in H. apply negb_true_iff in H.
    now rewrite Ascii.eqb_sym.
Qed.

Lemma span_commas downs suffix :
  suffix_after_octaves downs suffix = true ->
  Py.span (Ascii.eqb ",") (commas downs ++ suffix)%string = (commas downs, suffix).
Proof.
  intros H. apply span_app_stop.
  - apply all_repeat_str. reflexivity.
  - destruct suffix as [|c s]; [exact I|].
    unfold suffix_after_octaves in H. apply andb_prop in H as [H _].
    apply negb_true_iff in H. now rewrite Ascii.eqb_sym.
Qed.

(** What [parse_abc_note] computes before it reads the duration of a
    grammatical note token. *)
Lemma parse_abc_note_grammatical acc delta letter base ups downs suffix :
  accidental_delta acc = Some delta -> ABC_BASE_NOTES letter = Some base ->
  suffix_after_octaves downs suffix = true ->
  Py.all (fun c => negb (Py.isspace c)) suffix = true ->
  let token := note_token acc letter ups downs suffix in
  let midi := (base + delta + 12 * Z.of_nat ups - 12 * Z.of_nat downs)%Z in
  parse_abc_note token =
    if (midi <? 0)%Z || (midi >? 127)%Z then
      Raise (ValueError ("Note out of MIDI range (0-127): " ++ token
                         ++ " -> " ++ Py.str_int midi))
    else
      duration <-
        (if Py.is_empty suffix then Ok 1
         else if Py.mem "/" suffix then slash_duration suffix
         else match Py.float suffix with
              | Some d => Ok d
              | None => Raise (ValueError ("Invalid duration in: " ++ token))
              end) ;;
      Ok (midi, duration).
Proof.
  intros Ha Hb Hs Hsp token midi.
  destruct (note_token_head acc delta letter base
              (quotes ups ++ commas downs ++ suffix) Ha Hb) as (H1 & H2 & H3 & H4).
  fold (note_token acc letter ups downs suffix) in H1, H2, H3. fold token in H1, H2, H3.
  assert (Hstrip : Py.strip token = token).
  { apply strip_no_space. unfold token, note_token.
    change (String letter (quotes ups ++ commas downs ++ suffix))%string
      with (String letter "" ++ (quotes ups ++ commas downs ++ suffix))%string.
    rewrite <- app_assoc_str, all_app, H4. cbn [andb].
    rewrite !all_app. unfold quotes, commas, single_quote.
    rewrite !all_repeat_str by reflexivity. now rewrite Hsp. }
  unfold parse_abc_note.
  rewrite H1, Hstrip, H2, H3, Hb, (span_quotes _ _ _ Hs), (span_commas _ _ Hs).
  unfold quotes, commas, single_quote. rewrite !length_repeat_char.
  fold midi. reflexivity.
Qed.

Lemma prefix_empty (s : string) : String.prefix "" s = true.
Proof. destruct s; reflexivity. Qed.

(** What [parse_abc_note] computes for a rest token. *)
Lemma parse_abc_note_rest (z : ascii) (rest_part : string) :
  z = "z"%char \/ z = "Z"%char ->
  Py.all (fun c => negb (Py.isspace c)) rest_part = true ->
  parse_abc_note (String z rest_part) =
    duration <-
      (if Py.is_empty rest_part then Ok 1
       else if Py.mem "/" rest_part then slash_duration rest_part
       else match Py.float rest_part with
            | Some d => Ok d
            | None => Ok 1
            end) ;;
    Ok ((-1)%Z, duration).
Proof.
  intros Hz Hsp.
  assert (Hstrip : Py.strip (String z rest_part) = String z rest_part).
  { apply strip_no_space. cbn [Py.all]. rewrite Hsp.
    destruct Hz as [->| ->]; reflexivity. }
  unfold parse_abc_note. rewrite Hstrip.
  cbn [Py.is_empty Py.drop]. unfold Py.startswith.
  destruct Hz as [->| ->]; cbn [String.prefix];
    repeat match goal with
           | |- context [ascii_dec ?a ?b] => destruct (ascii_dec a b); try discriminate
           end;
    rewrite ?prefix_empty; try reflexivity; congruence.
Qed.

(** C7, as the code has it: take a duration suffix that is present, is made
    of digits, quotes and commas (so without a slash) and is not a number.
    A rest token with that suffix raises nothing and gets the default
    duration 1; a note token with it fails with the [ValueError] "Invalid
    duration in: " followed by the token. *)
Theorem plain_suffix_that_is_not_a_number :
  forall suffix : string,
    suffix <> EmptyString ->
    Py.all is_octave_or_digit suffix = true ->
    is_duration_text suffix = false ->
    (forall z, z = "z"%char \/ z = "Z"%char ->
       parse_abc_note (String z suffix) = Ok ((-1)%Z, 1)) /\
    (forall acc delta letter base ups downs,
       accidental_delta acc = Some delta ->
       ABC_BASE_NOTES letter = Some base ->
       (0 <= base + delta + 12 * Z.of_nat ups - 12 * Z.of_nat downs <= 127)%Z ->
       suffix_after_octaves downs suffix = true ->
       parse_abc_note (note_token acc letter ups downs suffix) =
         Raise (ValueError ("Invalid duration in: "
                            ++ note_token acc letter ups downs suffix))).
Proof.
  intros suffix Hne Hall Hdur.
  pose proof (float_rejects_octave_text _ Hne Hall Hdur) as Hfloat.
  pose proof (octave_or_digit_no_slash _ Hall) as Hslash.
  pose proof (octave_or_digit_no_space _ Hall) as Hspace.
  assert (Hemp : Py.is_empty suffix = false) by (destruct suffix; [congruence|reflexivity]).
  split.
  - intros z Hz.
    rewrite (parse_abc_note_rest _ _ Hz Hspace), Hemp, Hslash, Hfloat.
    reflexivity.
  - intros acc delta letter base ups downs Ha Hb Hrange Hs.
    rewrite (parse_abc_note_grammatical _ _ _ _ _ _ _ Ha Hb Hs Hspace).
    replace ((base + delta + 12 * Z.of_nat ups - 12 * Z.of_nat downs <? 0)%Z
             || (base + delta + 12 * Z.of_nat ups - 12 * Z.of_nat downs >? 127)%Z)
      with false.
    2:{ symmetry. apply orb_false_iff.
        split; [apply Z.ltb_ge | rewrite Z.gtb_ltb; apply Z.ltb_ge]; lia. }
    rewrite Hemp, Hslash, Hfloat. reflexivity.
Qed.

Lemma plain_suffix_that_is_not_a_number_witness :
  parse_abc_note "z'" = Ok ((-1)%Z, 1) /\
  parse_abc_note "^C,'" = Raise (ValueError "Invalid duration in: ^C,'").
Proof.
  destruct (plain_suffix_that_is_not_a_number single_quote) as [Hrest Hnote];
    [discriminate | reflexivity | reflexivity |].
  split.
  - apply (Hrest "z"%char). now left.
  - apply (Hnote "^"%string 1%Z "C"%char 48%Z 0%nat 1%nat);
      [reflexivity | reflexivity | lia | reflexivity].
Defined.

(** C7 fails as it is stated: the rest token ["z,"] has the suffix [","],
    which is no integer and no fraction, and parses without an error to the
    default duration; the note token ["C1/2/3"] has a suffix that is no
    fraction either and parses to the duration 1/2. *)
Lemma bad_suffix_accepted_silently :
  tokenize_abc "z, C1/2/3" = ["z,"%string; "C1/2/3"%string] /\
  is_duration_text "," = false /\
  parse_abc_note "z," = Ok ((-1)%Z, 1) /\
  is_duration_text "1/2/3" = false /\
  parse_abc_note "C1/2/3" = Ok (48%Z, 1 # 2) /\
  abc_to_program "z, C1/2/3" 4 default_velocity_value =
    Ok ({| lengthBars := Some 0.5; notes := [note_event 48 1 (1 # 2) 0.8] |}, []).
Proof. repeat split; vm_compute; reflexivity. Qed.

(* ================================================================= *)
(** ** The shape of the validation result *)

(** C4: let [abc_to_program] return a program and its parse errors.  With
    parse errors, the pipeline returns them in an invalid result that has
    neither program nor normalized text.  Without parse errors but with
    validation errors, it returns an invalid result with the program and
    without normalized text.  With no error at all, and when the serializer
    returns, the result is valid and carries its text.  In every result the
    pipeline returns, the normalized text is present exactly when the result
    is valid. *)
Theorem validation_result_shape :
  forall (abc_str : string) (key : option Z) (scale : option string)
         (beats_per_bar : Z) (prog : Program) (perrs : list string),
    abc_to_program abc_str beats_per_bar default_velocity_value = Ok (prog, perrs) ->
    let run := validate_abc abc_str key scale beats_per_bar in
    let verrs := fst (validate_program prog key scale beats_per_bar) in
    let vwarns := snd (validate_program prog key scale beats_per_bar) in
    (perrs <> [] ->
       run = Ok {| valid := false; abc_input := abc_str; program := None;
                   errors := perrs; warnings := []; abc_output := None |}) /\
    (perrs = [] -> verrs <> [] ->
       run = Ok {| valid := false; abc_input := abc_str; program := Some prog;
                   errors := verrs; warnings := vwarns; abc_output := None |}) /\
    (perrs = [] -> verrs = [] ->
       forall text, program_to_abc prog beats_per_bar = Ok text ->
       run = Ok {| valid := true; abc_input := abc_str; program := Some prog;
                   errors := []; warnings := vwarns; abc_output := Some text |}) /\
    (forall r, run = Ok r -> (abc_output r <> None <-> valid r = true)).
Proof.
  intros abc_str key scale beats_per_bar prog perrs Hparse run verrs vwarns.
  subst run verrs vwarns. unfold validate_abc. rewrite Hparse. cbn [bind].
  destruct perrs as [|e perrs].
  - destruct (validate_program prog key scale beats_per_bar) as [[|ve verrs] vwarns];
      cbn [fst snd].
    + split; [congruence|]. split; [congruence|]. split.
      * intros _ _ text ->. reflexivity.
      * intros r. destruct (program_to_abc prog beats_per_bar); cbn [bind];
          intros [= <-]; cbn; split; congruence.
    + split; [congruence|]. split; [reflexivity|]. split; [congruence|].
      intros r [= <-]. cbn. split; congruence.
  - split; [reflexivity|]. split; [congruence|]. split; [congruence|].
    intros r [= <-]. cbn. split; congruence.
Qed.

Lemma validation_result_shape_witness :
  validate_abc "^2 C" None None 4 =
    Ok {| valid := false; abc_input := "^2 C"; program := None;
          errors := ["Invalid note letter '2' in: ^2"%string];
          warnings := []; abc_output := None |} /\
  validate_abc "C0" None None 4 =
    Ok {| valid := false; abc_input := "C0";
          program := Some {| lengthBars := Some 0.125;
                             notes := [note_event 48 0 0 0.8] |};
          errors := ["Note 0: Non-positive duration"%string];
          warnings := []; abc_output := None |}.
Proof.
  split.
  - refine (proj1 (validation_result_shape "^2 C" None None 4
              {| lengthBars := Some 0.25; notes := [note_event 48 0 1 0.8] |}
              ["Invalid note letter '2' in: ^2"%string] _) _);
      [reflexivity | discriminate].
  - refine (proj1 (proj2 (validation_result_shape "C0" None None 4
              {| lengthBars := Some 0.125; notes := [note_event 48 0 0 0.8] |}
              [] _)) _ _);
      [reflexivity | reflexivity | discriminate].
Defined.

(* ================================================================= *)
(** ** Durations are never negative *)

Section CharacterFree.

Variable c : ascii.

Lemma mem_app (a b : string) :
  Py.mem c (a ++ b) = Py.mem c a || Py.mem c b.
Proof. induction a as [|d a IH]; cbn; [reflexivity|]. now rewrite IH, orb_assoc. Qed.

Lemma free_app (a b : string) : free c (a ++ b) <-> free c a /\ free c b.
Proof. unfold free. rewrite mem_app. apply orb_false_iff. Qed.

Lemma free_tail (d : ascii) (s : string) : free c (String d s) -> free c s.
Proof. unfold free. cbn. intros H. now apply orb_false_iff in H. Qed.

Lemma free_lstrip_by (p : ascii -> bool) (s : string) :
  free c s -> free c (Py.lstrip_by p s).
Proof.
  induction s as [|d s IH]; cbn; [easy|].
  intros H. destruct (p d); [apply IH; exact (free_tail _ _ H) | exact H].
Qed.

Lemma free_rstrip_by (p : ascii -> bool) (s : string) :
  free c s -> free c (Py.rstrip_by p s).
Proof.
  unfold free. induction s as [|d s IH]; cbn; [easy|].
  intros H. apply orb_false_iff in H as [Hd Hs].
  destruct (Py.is_empty (Py.rstrip_by p s) && p d); cbn; [reflexivity|].
  now rewrite Hd, IH.
Qed.

Lemma free_strip (s : string) : free c s -> free c (Py.strip s).
Proof. intros H. unfold Py.strip. now apply free_lstrip_by, free_rstrip_by. Qed.

Lemma free_drop (n : nat) (s : string) : free c s -> free c (Py.drop n s).
Proof.
  revert s. induction n as [|n IH]; intros [|d s]; cbn; try easy.
  intros H. apply IH. exact (free_tail _ _ H).
Qed.

Lemma free_span (p : ascii -> bool) (s a b : string) :
  Py.span p s = (a, b) -> free c s -> free c a /\ free c b.
Proof.
  intros E H. destruct (span_spec _ _ _ _ E) as (-> & _). now apply free_app.
Qed.

Lemma free_split (sep : ascii) (s : string) :
  free c s -> Forall (free c) (Py.split sep s).
Proof.
  induction s as [|d s IH]; cbn.
  - intros _. repeat constructor.
  - intros H. pose proof (IH (free_tail _ _ H)) as IHs.
    destruct (Ascii.eqb d sep).
    + constructor; [reflexivity | assumption].
    + destruct (Py.split sep s) as [|part parts].
      * constructor; [|constructor]. unfold free in *. cbn in *.
        apply orb_false_iff in H as [Hd _]. now rewrite Hd.
      * inversion IHs as [|? ? Hp Hps]; subst.
        constructor; [|assumption].
        unfold free in *. cbn in *.
        apply orb_false_iff in H as [Hd _]. now rewrite Hd, Hp.
Qed.

End CharacterFree.

Lemma Qplus_nonneg (a b : Q) : 0 <= a -> 0 <= b -> 0 <= a + b.
Proof.
  intros Ha Hb. apply (Qle_trans _ (0 + 0)); [discriminate|].
  now apply Qplus_le_compat.
Qed.

Lemma digits_value_nonneg (s : string) (z : Z) :
  Py.digits_value s = Some z -> (0 <= z)%Z.
Proof.
  unfold Py.digits_value. destruct s as [|c s]; [discriminate|].
  destruct (NilEmpty.uint_of_string (String c s)) as [u|]; cbn; [|discriminate].
  intros [= <-]. unfold Z.of_uint. apply N2Z.is_nonneg.
Qed.

Lemma float_sign_cases (t body : string) (sign : Z) :
  Py.float_sign t = (sign, body) ->
  sign = 1%Z \/ (sign = (-1)%Z /\ t = String "-" body).
Proof.
  destruct t as [|c t]; cbn; [intros [= <- <-]; now left|].
  bits c; cbn; intros [= <- <-]; auto.
Qed.

Lemma float_magnitude_nonneg (body : string) (q : Q) :
  Py.float_magnitude body = Some q -> 0 <= q.
Proof.
  unfold Py.float_magnitude.
  destruct (Py.span Py.isdigit body) as [ip rest].
  assert (Hint : forall s, option_map inject_Z (Py.digits_value s) = Some q -> 0 <= q).
  { intros s. destruct (Py.digits_value s) as [z|] eqn:E; cbn; [|discriminate].
    intros [= <-]. apply digits_value_nonneg in E.
    unfold Qle. cbn. lia. }
  destruct rest as [|d fp]; [apply Hint|].
  destruct (Ascii.eqb_spec d "."%char) as [->|Hd].
  - destruct (Py.is_empty fp); [apply Hint|].
    destruct (Py.all Py.isdigit fp); [|discriminate].
    destruct (Py.digits_value fp) as [f|] eqn:Ef; [|discriminate].
    intros [= <-]. apply digits_value_nonneg in Ef.
    assert (Hi : (0 <= match Py.digits_value ip with Some i => i | None => 0 end)%Z).
    { destruct (Py.digits_value ip) as [i|] eqn:Ei;
        [exact (digits_value_nonneg _ _ Ei) | lia]. }
    apply Qplus_nonneg; [unfold Qle; cbn; lia|].
    apply Qle_shift_div_l.
    + unfold Qlt. cbn. rewrite Z.mul_1_r. apply Z.pow_pos_nonneg; lia.
    + rewrite Qmult_0_l. unfold Qle. cbn. lia.
  - revert Hd. clear. bits d; intros Hd; try discriminate. congruence.
Qed.

(** A text without a minus sign never reads as a negative float. *)
Lemma float_nonneg (s : string) (q : Q) :
  free "-" s -> Py.float s = Some q -> 0 <= q.
Proof.
  intros Hfree. unfold Py.float.
  destruct (Py.float_sign (Py.strip s)) as [sign body] eqn:Es.
  destruct (Py.float_magnitude body) as [m|] eqn:Em; cbn; [|discriminate].
  intros [= <-].
  apply float_sign_cases in Es as [->|[_ Es]].
  - rewrite Qmult_1_l. exact (float_magnitude_nonneg _ _ Em).
  - apply (free_strip "-") in Hfree. rewrite Es in Hfree. discriminate.
Qed.

Lemma truediv_nonneg (n d q : Q) :
  0 <= n -> 0 <= d -> Py.truediv n d = Ok q -> 0 <= q.
Proof.
  unfold Py.truediv. intros Hn Hd.
  destruct (Qeq_bool d 0) eqn:E; [discriminate|]. intros [= <-].
  apply Qeq_bool_neq in E.
  apply Qle_shift_div_l; [|now rewrite Qmult_0_l].
  apply Qle_lteq in Hd as [Hd|Hd]; [assumption|]. symmetry in Hd. contradiction.
Qed.

Lemma float_or_raise_nonneg (s : string) (q : Q) :
  free "-" s -> float_or_raise s = Ok q -> 0 <= q.
Proof.
  unfold float_or_raise. intros Hf.
  destruct (Py.float s) as [d|] eqn:E; [|discriminate].
  intros [= <-]. exact (float_nonneg _ _ Hf E).
Qed.

Lemma slash_duration_nonneg (s : string) (q : Q) :
  free "-" s -> slash_duration s = Ok q -> 0 <= q.
Proof.
  intros Hfree. unfold slash_duration.
  pose proof (free_split "-" "/" s Hfree) as Hparts.
  destruct (Py.split "/" s) as [|p0 [|p1 parts]]; try discriminate.
  inversion Hparts as [|? ? H0 Hrest]; subst.
  inversion Hrest as [|? ? H1 _]; subst.
  destruct (Py.is_empty p0).
  - destruct (float_or_raise p1) as [d|] eqn:E1; cbn; [|discriminate].
    apply truediv_nonneg; [discriminate | exact (float_or_raise_nonneg _ _ H1 E1)].
  - destruct (float_or_raise p0) as [n|] eqn:E0; cbn; [|discriminate].
    destruct (float_or_raise p1) as [d|] eqn:E1; cbn; [|discriminate].
    apply truediv_nonneg;
      [exact (float_or_raise_nonneg _ _ H0 E0) | exact (float_or_raise_nonneg _ _ H1 E1)].
Qed.

Lemma accidental_prefix_drop (note : string) :
  exists k, snd (accidental_prefix note) = Py.drop k note.
Proof.
  unfold accidental_prefix.
  repeat match goal with
         | |- context [if ?b then _ else _] => destruct b; [eexists; reflexivity|]
         end.
  exists O. reflexivity.
Qed.

(** A note or rest token without a minus sign has a duration that is not
    negative. *)
Lemma parse_abc_note_nonneg (token : string) (midi : Z) (duration : Q) :
  free "-" token -> parse_abc_note token = Ok (midi, duration) -> 0 <= duration.
Proof.
  intros Hfree. unfold parse_abc_note.
  destruct (Py.is_empty token); [discriminate|].
  pose proof (free_strip "-" _ Hfree) as Hnote.
  set (note := Py.strip token) in *.
  destruct (Py.startswith note "z" || Py.startswith note "Z").
  - pose proof (free_drop "-" 1 _ Hnote) as Hrest.
    destruct (Py.is_empty (Py.drop 1 note)); [intros [= _ <-]; discriminate|].
    destruct (Py.mem "/" (Py.drop 1 note)).
    + destruct (slash_duration (Py.drop 1 note)) as [d|] eqn:E; cbn; [|discriminate].
      intros [= _ <-]. exact (slash_duration_nonneg _ _ Hrest E).
    + destruct (Py.float (Py.drop 1 note)) as [d|] eqn:E; cbn; intros [= _ <-];
        [exact (float_nonneg _ _ Hrest E) | discriminate].
  - destruct (accidental_prefix_drop note) as [k Hk].
    destruct (accidental_prefix note) as [accidental note1]. cbn in Hk. subst note1.
    pose proof (free_drop "-" k _ Hnote) as H1.
    destruct (Py.drop k note) as [|base_char note2]; [discriminate|].
    apply free_tail in H1.
    destruct (ABC_BASE_NOTES base_char) as [base|]; [|discriminate].
    destruct (Py.span (Ascii.eqb Py.squote) note2) as [ups note3] eqn:E3.
    destruct (free_span _ _ _ _ _ E3 H1) as [_ H3].
    destruct (Py.span (Ascii.eqb ",") note3) as [downs note4] eqn:E4.
    destruct (free_span _ _ _ _ _ E4 H3) as [_ H4].
    match goal with |- context [if ?b then _ else _] => destruct b end;
      [discriminate|].
    destruct (Py.is_empty note4); [intros [= _ <-]; discriminate|].
    destruct (Py.mem "/" note4).
    + destruct (slash_duration note4) as [d|] eqn:E; cbn; [|discriminate].
      intros [= _ <-]. exact (slash_duration_nonneg _ _ H4 E).
    + destruct (Py.float note4) as [d|] eqn:E; cbn; [|discriminate].
      intros [= _ <-]. exact (float_nonneg _ _ H4 E).
Qed.

Lemma all_free (p : ascii -> bool) (c : ascii) (s : string) :
  p c = false -> Py.all p s = true -> free c s.
Proof.
  intros Hc. unfold free. induction s as [|d s IH]; cbn; [reflexivity|].
  intros H. apply andb_prop in H as [Hd Hs]. rewrite (IH Hs), orb_false_r.
  destruct (Ascii.eqb_spec c d) as [->|]; congruence.
Qed.

Lemma is_duration_text_chars (d : string) :
  is_duration_text d = true -> Py.all is_duration_char d = true.
Proof.
  unfold is_duration_text.
  destruct (Py.span Py.isdigit d) as [a r] eqn:E.
  destruct (span_spec _ _ _ _ E) as (-> & Ha & _).
  assert (Hdigits : forall s, Py.all Py.isdigit s = true ->
                              Py.all is_duration_char s = true).
  { intros s. apply all_impl. intros c Hc. unfold is_duration_char. now rewrite Hc. }
  intros H. rewrite all_app, (Hdigits _ Ha). cbn [andb].
  destruct r as [|c b]; [reflexivity|].
  destruct (Ascii.eqb_spec c "/"%char) as [->|Hc].
  - apply andb_prop in H as [_ Hb]. cbn. exact (Hdigits _ Hb).
  - revert H Hc. clear. bits c; intros H Hc; try discriminate. congruence.
Qed.

Lemma search_duration_text (s d : string) :
  search_duration s = Some d -> is_duration_text d = true.
Proof.
  induction s as [|c s IH]; cbn [search_duration]; unfold duration_at_end.
  - cbn. discriminate.
  - destruct (is_duration_text (String c s)) eqn:E; [now intros [= <-]|].
    match goal with
    | |- context [if ?b && is_duration_text ?body then _ else _] =>
        destruct b; cbn [andb]; [destruct (is_duration_text body) eqn:Eb|]
    end; try (intros [= <-]; assumption); apply IH.
Qed.

(** The duration the builder reads from a chord token is never negative. *)
Lemma chord_token_duration_nonneg (token : string) (d : Q) :
  chord_token_duration token = Ok d -> 0 <= d.
Proof.
  unfold chord_token_duration.
  destruct (search_duration (Py.rstrip_chars "]" token)) as [dur_str|] eqn:E;
    [|intros [= <-]; discriminate].
  apply search_duration_text, is_duration_text_chars in E.
  assert (Hfree : free "-" dur_str) by (exact (all_free is_duration_char "-" _ eq_refl E)).
  destruct (Py.mem "/" dur_str);
    [apply slash_duration_nonneg | apply float_or_raise_nonneg]; assumption.
Qed.

(** ** The tokens of the tokenizer *)

Lemma tokenize_loop_shape (fuel : nat) (content : string) :
  Forall token_shape (tokenize_loop fuel content).
Proof.
  revert content. induction fuel as [|fuel IH]; intros content;
    cbn [tokenize_loop]; [constructor|].
  destruct content as [|c rest]; [constructor|].
  destruct (Py.isspace c); [apply IH|].
  destruct (Ascii.eqb c "[").
  - destruct (find_close rest) as [[inside after]|]; [|apply IH].
    destruct (Py.span is_duration_char after) as [suffix after'].
    constructor; [|apply IH]. left.
    unfold Py.startswith. cbn. apply prefix_empty.
  - destruct (Py.mem c "ABCDEFGabcdefgzZ^_="); [|apply IH].
    destruct (Py.span (fun c0 => Py.mem c0 "^_=") (String c rest)) as [accidentals r1] eqn:E1.
    set (pick := match r1 with
                 | String l r' =>
                     if Py.mem l "ABCDEFGabcdefgzZ" then (String l "", r') else (""%string, r1)
                 | EmptyString => (""%string, r1)
                 end).
    assert (Hpick : Py.all is_note_token_char (fst pick) = true).
    { subst pick. destruct r1 as [|l r']; [reflexivity|].
      destruct (Py.mem l "ABCDEFGabcdefgzZ") eqn:El; [|reflexivity].
      cbn [fst Py.all]. unfold is_note_token_char. rewrite El.
      now rewrite orb_true_r. }
    destruct pick as [letter r2]. cbn [fst] in Hpick.
    destruct (Py.span (fun c0 => Py.mem c0 (String Py.squote ",")) r2) as [octaves r3] eqn:E3.
    destruct (Py.span is_duration_char r3) as [duration r4] eqn:E4.
    apply Forall_app. split; [|apply IH].
    destruct (Py.is_empty (accidentals ++ letter ++ octaves ++ duration));
      constructor; [|constructor].
    right.
    destruct (span_spec _ _ _ _ E1) as (_ & H1 & _).
    destruct (span_spec _ _ _ _ E3) as (_ & H3 & _).
    destruct (span_spec _ _ _ _ E4) as (_ & H4 & _).
    assert (A1 : Py.all is_note_token_char accidentals = true).
    { revert H1. apply all_impl. intros x Hx.
      unfold is_note_token_char. now rewrite Hx. }
    assert (A3 : Py.all is_note_token_char octaves = true).
    { revert H3. apply all_impl. intros x Hx.
      unfold is_note_token_char. rewrite Hx. now rewrite !orb_true_r. }
    assert (A4 : Py.all is_note_token_char duration = true).
    { revert H4. apply all_impl. intros x Hx.
      unfold is_note_token_char. rewrite Hx. now rewrite !orb_true_r. }
    now rewrite !all_app, Hpick, A1, A3, A4.
Qed.

Lemma tokenize_abc_shape (abc_str : string) :
  Forall token_shape (tokenize_abc abc_str).
Proof. apply tokenize_loop_shape. Qed.

(** ** The builder keeps the start beats in order *)

(** What a successful [try] block does to the state of the loop. *)
Lemma build_token_ok (v : Q) (st st' : Builder) (token : string) :
  token_shape token ->
  build_token v st token = Ok st' ->
  exists d,
    0 <= d /\
    parse_errors st' = parse_errors st /\
    built_notes st' =
      (built_notes st ++
       List.map (fun midi => note_event midi (current_beat st) d v)
                (token_pitches token))%list /\
    current_beat st' = current_beat st + d.
Proof.
  intros Hshape. unfold build_token, token_pitches.
  destruct (Py.startswith token "[") eqn:Hb.
  - destruct (parse_abc_chord token) as [members|]; cbn [bind]; [|discriminate].
    destruct (chord_token_duration token) as [d|] eqn:Ed; cbn [bind]; [|discriminate].
    intros [= <-]. exists d. cbn.
    split; [exact (chord_token_duration_nonneg _ _ Ed)|].
    split; [reflexivity|]. split; [|reflexivity].
    f_equal. rewrite map_map. apply map_ext. now intros [midi x].
  - destruct Hshape as [Hs|Hs]; [congruence|].
    destruct (parse_abc_note token) as [[midi d]|] eqn:En; cbn [bind]; [|discriminate].
    intros [= <-]. exists d. cbn.
    split; [apply (parse_abc_note_nonneg token midi); [|assumption]|].
    { exact (all_free is_note_token_char "-" _ eq_refl Hs). }
    split; [reflexivity|]. split; [|reflexivity].
    destruct (midi >=? 0)%Z; reflexivity.
Qed.

Lemma build_token_error (v : Q) (st : Builder) (token : string) (e : exn) :
  build_token v st token = Raise e -> token_pitches token = [].
Proof.
  unfold build_token, token_pitches.
  destruct (Py.startswith token "[").
  - destruct (parse_abc_chord token) as [members|]; cbn [bind]; [|reflexivity].
    destruct (chord_token_duration token) as [d|]; cbn [bind];
      [discriminate | reflexivity].
  - destruct (parse_abc_note token) as [[midi d]|]; cbn [bind];
      [discriminate | reflexivity].
Qed.

Lemma sorted_then_cursor (starts : list Q) (cur : Q) (k : nat) :
  StronglySorted Qle starts -> Forall (fun s => s <= cur) starts ->
  StronglySorted Qle (starts ++ List.repeat cur k).
Proof.
  intros Hs Hb. induction Hs as [|a l Hl IH Ha].
  - cbn. induction k; cbn; constructor; [assumption|].
    apply Forall_forall. intros x Hx. apply repeat_spec in Hx. subst. apply Qle_refl.
  - inversion Hb; subst. cbn. constructor; [now apply IH|].
    apply Forall_app. split; [assumption|].
    apply Forall_forall. intros x Hx. apply repeat_spec in Hx. now subst.
Qed.

Lemma starts_of_new_events (cur d v : Q) (ms : list Z) :
  List.map startBeat (List.map (fun midi => note_event midi cur d v) ms) =
  List.map Some (List.repeat cur (List.length ms)).
Proof. induction ms as [|m ms IH]; cbn; [reflexivity|]. now rewrite IH. Qed.

Lemma builder_step_invariant (v : Q) (st st' : Builder) (token : string) :
  token_shape token -> starts_in_order st ->
  builder_step v st token = Ok st' ->
  starts_in_order st' /\
  List.map pitch (built_notes st') =
    (List.map pitch (built_notes st) ++ List.map Some (token_pitches token))%list.
Proof.
  intros Hshape (starts & Hmap & Hsorted & Hbound). unfold builder_step.
  destruct (build_token v st token) as [st1|e] eqn:E.
  - intros [= <-].
    destruct (build_token_ok _ _ _ _ Hshape E) as (d & Hd & _ & Hnotes & Hcur).
    split.
    + exists (starts ++ List.repeat (current_beat st) (List.length (token_pitches token)))%list.
      rewrite Hnotes, Hcur, !map_app, Hmap. split; [|split].
      * f_equal. apply starts_of_new_events.
      * now apply sorted_then_cursor.
      * assert (Hle : current_beat st <= current_beat st + d).
        { rewrite <- (Qplus_0_r (current_beat st)) at 1.
          now apply Qplus_le_r. }
        apply Forall_app. split.
        -- eapply Forall_impl; [|exact Hbound]. intros a Ha. cbn in Ha.
           exact (Qle_trans _ _ _ Ha Hle).
        -- apply Forall_forall. intros x Hx. apply repeat_spec in Hx. now subst.
    + rewrite Hnotes, map_app, map_map. reflexivity.
  - rewrite (build_token_error _ _ _ _ E), app_nil_r.
    destruct e; try discriminate. intros [= <-]. cbn.
    split; [|reflexivity]. exists starts. auto.
Qed.

Lemma builder_loop_invariant (v : Q) (tokens : list string) :
  Forall token_shape tokens ->
  forall st st',
    starts_in_order st ->
    builder_loop v st tokens = Ok st' ->
    starts_in_order st' /\
    List.map pitch (built_notes st') =
      (List.map pitch (built_notes st)
       ++ List.map Some (List.flat_map token_pitches tokens))%list.
Proof.
  induction 1 as [|token tokens Ht _ IH]; intros st st' Hinv; cbn.
  - intros [= <-]. now rewrite app_nil_r.
  - destruct (builder_step v st token) as [st1|] eqn:E; cbn [bind]; [|discriminate].
    intros Hloop.
    destruct (builder_step_invariant _ _ _ _ Ht Hinv E) as [Hinv1 Hp1].
    destruct (IH _ _ Hinv1 Hloop) as [Hinv' Hp'].
    split; [assumption|].
    now rewrite Hp', Hp1, map_app, app_assoc.
Qed.



(* ================================================================= *)
(** ** What the builder collects and what escapes it *)

Lemma prefix_app (a b : string) : String.prefix a (a ++ b) = true.
Proof.
  induction a as [|c a IH]; cbn; [apply prefix_empty|].
  destruct (ascii_dec c c); [assumption | congruence].
Qed.

Lemma contains_suffix (a needle : string) : Py.contains needle (a ++ needle) = true.
Proof.
  induction a as [|c a IH]; cbn [String.append].
  - destruct needle as [|d needle]; cbn [Py.contains]; [reflexivity|].
    rewrite <- (app_empty_r (String d needle)) at 2.
    now rewrite prefix_app.
  - cbn [Py.contains]. rewrite IH. apply orb_true_r.
Qed.

(** A token whose letter is not in the table of base notes is refused with
    a [ValueError] whose message ends with the token. *)
Lemma unknown_letter_is_reported (token : string) (delta : Z) (c : ascii)
  (rest : string) :
  Py.is_empty token = false ->
  Py.startswith (Py.strip token) "z" || Py.startswith (Py.strip token) "Z" = false ->
  accidental_prefix (Py.strip token) = (delta, String c rest) ->
  ABC_BASE_NOTES c = None ->
  exists msg,
    parse_abc_note token = Raise (ValueError msg) /\
    msg = ("Invalid note letter '" ++ String c "" ++ "' in: " ++ token)%string /\
    Py.contains token msg = true.
Proof.
  intros He Hz Ha Hb. eexists. split; [|split; [reflexivity|]].
  - unfold parse_abc_note. now rewrite He, Hz, Ha, Hb.
  - rewrite <- !app_assoc_str. apply contains_suffix.
Qed.

Lemma split_two_parts (sep : ascii) (s : string) :
  Py.mem sep s = true -> exists p0 p1 parts, Py.split sep s = p0 :: p1 :: parts.
Proof.
  induction s as [|c s IH]; cbn [Py.mem Py.split]; [discriminate|].
  rewrite Ascii.eqb_sym. destruct (Ascii.eqb c sep); cbn [orb].
  - intros _. destruct (Py.split sep s) as [|p parts] eqn:E.
    + destruct s; cbn in E; [discriminate|].
      destruct (Ascii.eqb _ sep); [discriminate|].
      destruct (Py.split sep s); discriminate.
    + eauto.
  - intros H. destruct (IH H) as (p0 & p1 & parts & ->). eauto.
Qed.

Lemma float_or_raise_raises (s : string) (e : exn) :
  float_or_raise s = Raise e -> value_or_zero_division e.
Proof.
  unfold float_or_raise. destruct (Py.float s); [discriminate|].
  intros [= <-]. left. eauto.
Qed.

Lemma truediv_raises (a b : Q) (e : exn) :
  Py.truediv a b = Raise e -> value_or_zero_division e.
Proof.
  unfold Py.truediv. destruct (Qeq_bool b 0); [|discriminate].
  intros [= <-]. now right.
Qed.

Lemma slash_duration_raises (s : string) (e : exn) :
  Py.mem "/" s = true -> slash_duration s = Raise e -> value_or_zero_division e.
Proof.
  intros H. unfold slash_duration.
  destruct (split_two_parts _ _ H) as (p0 & p1 & parts & ->).
  destruct (Py.is_empty p0).
  - destruct (float_or_raise p1) eqn:E1; cbn [bind];
      [apply truediv_raises | intros [= <-]; exact (float_or_raise_raises _ _ E1)].
  - destruct (float_or_raise p0) eqn:E0; cbn [bind];
      [|intros [= <-]; exact (float_or_raise_raises _ _ E0)].
    destruct (float_or_raise p1) eqn:E1; cbn [bind];
      [apply truediv_raises | intros [= <-]; exact (float_or_raise_raises _ _ E1)].
Qed.

Lemma parse_abc_note_raises (token : string) (e : exn) :
  parse_abc_note token = Raise e -> value_or_zero_division e.
Proof.
  unfold parse_abc_note.
  destruct (Py.is_empty token); [intros [= <-]; left; eauto|].
  destruct (Py.startswith _ "z" || Py.startswith _ "Z").
  - destruct (Py.is_empty _); [discriminate|].
    destruct (Py.mem "/" _) eqn:Hs.
    + destruct (slash_duration _) eqn:E; cbn [bind]; [discriminate|].
      intros [= <-]. exact (slash_duration_raises _ _ Hs E).
    + destruct (Py.float _); discriminate.
  - destruct (accidental_prefix _) as [accidental note].
    destruct note as [|base_char note]; [intros [= <-]; left; eauto|].
    destruct (ABC_BASE_NOTES base_char); [|intros [= <-]; left; eauto].
    destruct (Py.span (Ascii.eqb Py.squote) note) as [ups note1].
    destruct (Py.span (Ascii.eqb ",") note1) as [downs note2].
    match goal with |- context [if ?b then _ else _] => destruct b end;
      [intros [= <-]; left; eauto|].
    destruct (Py.is_empty note2); [discriminate|].
    destruct (Py.mem "/" note2) eqn:Hs.
    + destruct (slash_duration note2) eqn:E; cbn [bind]; [discriminate|].
      intros [= <-]. exact (slash_duration_raises _ _ Hs E).
    + destruct (Py.float note2); cbn [bind]; [discriminate|].
      intros [= <-]. left. eauto.
Qed.

Lemma chord_members_raises (d : Q) (matches : list (string * ascii * string))
  (e : exn) :
  chord_members d matches = Raise e -> e = ZeroDivisionError.
Proof.
  induction matches as [|[[acc l] oct] matches IH]; cbn [chord_members];
    [discriminate|].
  destruct (parse_abc_note _) as [[midi x]|e'] eqn:E.
  - destruct (chord_members d matches); cbn [bind]; [discriminate|].
    intros [= <-]. now apply IH.
  - destruct (parse_abc_note_raises _ _ E) as [[msg ->]| ->];
      [assumption | now intros [= <-]].
Qed.

Lemma chord_token_duration_raises (token : string) (e : exn) :
  chord_token_duration token = Raise e -> value_or_zero_division e.
Proof.
  unfold chord_token_duration.
  destruct (search_duration _) as [dur_str|]; [|discriminate].
  destruct (Py.mem "/" dur_str) eqn:Hs;
    [now apply slash_duration_raises | apply float_or_raise_raises].
Qed.

Lemma builder_step_raises (v : Q) (st : Builder) (token : string) (e : exn) :
  builder_step v st token = Raise e -> e = ZeroDivisionError.
Proof.
  unfold builder_step.
  destruct (build_token v st token) as [st'|e'] eqn:E; [discriminate|].
  assert (H : value_or_zero_division e').
  { revert E. unfold build_token. destruct (Py.startswith token "[").
    - unfold parse_abc_chord.
      destruct (Py.is_empty _); cbn [bind].
      + destruct (chord_token_duration token) eqn:Ed; cbn [bind]; [discriminate|].
        intros [= <-]. exact (chord_token_duration_raises _ _ Ed).
      + destruct (chord_members _ _) eqn:Em; cbn [bind].
        * destruct (chord_token_duration token) eqn:Ed; cbn [bind]; [discriminate|].
          intros [= <-]. exact (chord_token_duration_raises _ _ Ed).
        * intros [= <-]. right. exact (chord_members_raises _ _ _ Em).
    - destruct (parse_abc_note token) as [[midi d]|] eqn:En; cbn [bind];
        [discriminate|].
      intros [= <-]. exact (parse_abc_note_raises _ _ En). }
  destruct H as [[msg ->]| ->]; [discriminate | now intros [= <-]].
Qed.

(** The one exception that leaves [abc_to_program] is the division by zero:
    every other failure of a parser is collected as a parse error. *)
Lemma abc_to_program_raises (abc_str : string) (beats_per_bar : Z) (v : Q)
  (e : exn) :
  abc_to_program abc_str beats_per_bar v = Raise e -> e = ZeroDivisionError.
Proof.
  unfold abc_to_program.
  generalize (tokenize_abc abc_str) initial_builder.
  intros tokens. induction tokens as [|token tokens IH]; intros st;
    cbn [builder_loop bind]; [discriminate|].
  destruct (builder_step v st token) as [st'|e'] eqn:E; cbn [bind].
  - apply IH.
  - intros [= <-]. exact (builder_step_raises _ _ _ _ E).
Qed.

(** Whatever follows the closing bracket, every pair the chord parser
    returns carries the duration 1. *)
Lemma parse_abc_chord_durations_are_one (chord_str : string)
  (pairs : list (Z * Q)) :
  parse_abc_chord chord_str = Ok pairs -> Forall (fun pr => snd pr = 1) pairs.
Proof.
  unfold parse_abc_chord.
  destruct (Py.is_empty _); [intros [= <-]; constructor|].
  generalize (note_pattern_finditer
                (String.length (Py.strip_chars "[]" chord_str))
                (Py.strip_chars "[]" chord_str)).
  intros matches. revert pairs.
  induction matches as [|[[acc l] oct] matches IH]; intros pairs;
    cbn [chord_members]; [intros [= <-]; constructor|].
  destruct (parse_abc_note _) as [[midi x]|[msg| | | |]].
  - destruct (chord_members 1 matches) as [later|]; cbn [bind]; [|discriminate].
    intros [= <-]. constructor; [reflexivity | now apply IH].
  - apply IH.
  - discriminate.
  - discriminate.
  - discriminate.
  - discriminate.
Qed.

(* ================================================================= *)
(** ** The serializer on a built program *)

Lemma midi_to_abc_returns (p : Z) (d : Q) : exists text, midi_to_abc p d = Ok text.
Proof.
  unfold midi_to_abc.
  assert (Hm : (0 <= p mod 12 < 12)%Z) by (apply Z.mod_pos_bound; lia).
  set (m := (p mod 12)%Z) in *.
  assert (Hcases : In m [0; 1; 2; 3; 4; 5; 6; 7; 8; 9; 10; 11]%Z).
  { cbn. lia. }
  assert (Hidx : exists i,
            index_of (if negb (existsb (Z.eqb m) natural_notes)
                      then (m - 1)%Z else m) natural_notes = Some i).
  { clearbody m. cbn [In] in Hcases.
    repeat (destruct Hcases as [<-|Hcases]; [vm_compute; eauto|]).
    contradiction. }
  destruct Hidx as [i Hidx]. cbv zeta. rewrite Hidx. eexists. reflexivity.
Qed.

Lemma group_to_abc_returns (group : list NoteEvent) :
  group <> [] -> pitched group -> exists text, group_to_abc group = Ok text.
Proof.
  intros Hne Hp.
  assert (Hmembers : forall ns, pitched ns ->
            exists texts,
              map_result (fun n => p <- pitch_or_raise n ;; midi_to_abc p 1) ns
              = Ok texts).
  { induction 1 as [|n ns [p Hn] _ [texts IH]]; [eexists; reflexivity|].
    cbn [map_result]. unfold pitch_or_raise at 1. rewrite Hn. cbn [bind].
    destruct (midi_to_abc_returns p 1) as [t ->]. cbn [bind]. rewrite IH.
    eexists. reflexivity. }
  destruct group as [|n [|n' ns]]; [congruence | |].
  - inversion Hp as [|? ? [p Hn] _]; subst.
    cbn [group_to_abc]. unfold pitch_or_raise. rewrite Hn. cbn [bind].
    apply midi_to_abc_returns.
  - cbn [group_to_abc]. destruct (Hmembers _ Hp) as [texts ->]. cbn [bind].
    eexists. reflexivity.
Qed.

Lemma by_time_add_sound (start : Q) (n : NoteEvent)
  (table : list (Q * list NoteEvent)) :
  (exists p, pitch n = Some p) -> sound_table table ->
  sound_table (by_time_add start n table).
Proof.
  intros Hn. induction 1 as [|[k g] table [Hne Hg] Ht IH]; cbn [by_time_add].
  - constructor; [|constructor]. cbn [snd]. split; [discriminate|].
    constructor; [assumption | constructor].
  - cbn [snd] in *. destruct (Qeq_bool start k).
    + constructor; [|assumption]. cbn [snd]. split.
      * destruct g; discriminate.
      * apply Forall_app. split; [assumption | now repeat constructor].
    + constructor; [now split | assumption].
Qed.

Lemma group_by_time_sound (ns : list NoteEvent) :
  pitched ns -> sound_table (group_by_time ns).
Proof.
  unfold group_by_time. intros H.
  assert (G : forall table, sound_table table ->
            sound_table (fold_left (fun by_time note =>
                           by_time_add (start_or_zero note) note by_time) ns table)).
  { induction H as [|n ns Hn _ IH]; intros table Ht; [assumption|].
    cbn [fold_left]. apply IH. now apply by_time_add_sound. }
  apply G. constructor.
Qed.

Lemma by_time_get_sound (k : Q) (table : list (Q * list NoteEvent)) :
  sound_table table -> In k (List.map fst table) ->
  by_time_get k table <> [] /\ pitched (by_time_get k table).
Proof.
  induction 1 as [|[k' g] table Hg _ IH]; cbn [List.map In by_time_get fst];
    [contradiction|].
  intros [->|Hin].
  - now rewrite Qeq_bool_refl.
  - destruct (Qeq_bool k k'); [exact Hg | now apply IH].
Qed.

Lemma insert_sorted_in (x y : Q) (l : list Q) :
  In y (insert_sorted x l) -> y = x \/ In y l.
Proof.
  induction l as [|z l IH]; cbn [insert_sorted].
  - intros [<-|[]]. now left.
  - destruct (Qle_bool x z).
    + intros [<-|H]; [now left | now right].
    + intros [<-|H]; [right; now left|].
      destruct (IH H) as [->|H']; [now left | right; now right].
Qed.

Lemma sorted_in (y : Q) (l : list Q) : In y (sorted l) -> In y l.
Proof.
  unfold sorted. induction l as [|x l IH]; cbn [fold_right]; [easy|].
  intros H. apply insert_sorted_in in H as [->|H]; [now left | right; now apply IH].
Qed.

(** On a sound table the loop of the serializer stops only for a division
    by zero. *)
Lemma abc_parts_loop_sound (table : list (Q * list NoteEvent)) (beats_per_bar : Z)
  (times : list Q) :
  sound_table table -> (forall k, In k times -> In k (List.map fst table)) ->
  forall notes_in_bar,
    (exists parts, abc_parts_loop table beats_per_bar times notes_in_bar = Ok parts)
    \/ abc_parts_loop table beats_per_bar times notes_in_bar = Raise ZeroDivisionError.
Proof.
  intros Ht. induction times as [|k times IH]; intros Hk nib;
    cbn [abc_parts_loop]; [left; eexists; reflexivity|].
  unfold floordiv, float_mod.
  destruct (beats_per_bar =? 0)%Z; cbn [bind]; [now right|].
  match goal with
  | |- context [if ?b then ?x else Ok false] =>
      assert (E : exists new_bar, (if b then x else Ok false) = Ok new_bar)
  end.
  { match goal with |- context [if ?b then _ else _] => destruct b end;
      eexists; cbn [bind]; reflexivity. }
  destruct E as [new_bar ->]. cbn [bind].
  destruct (by_time_get_sound k table Ht (Hk k (or_introl eq_refl))) as [Hne Hp].
  destruct (group_to_abc_returns _ Hne Hp) as [text ->]. cbn [bind].
  destruct (IH (fun k' H => Hk k' (or_intror H))
               ((if new_bar then 0 else nib) + 1)%Z) as [[parts ->]| ->];
    cbn [bind]; [left; eexists; reflexivity | now right].
Qed.

Lemma program_to_abc_sound (prog : Program) (beats_per_bar : Z) :
  pitched (notes prog) ->
  (exists text, program_to_abc prog beats_per_bar = Ok text)
  \/ program_to_abc prog beats_per_bar = Raise ZeroDivisionError.
Proof.
  intros Hp. unfold program_to_abc.
  destruct (notes prog) as [|n ns] eqn:En; [left; eexists; reflexivity|].
  rewrite <- En in *.
  destruct (abc_parts_loop_sound (group_by_time (notes prog)) beats_per_bar
              (sorted (List.map fst (group_by_time (notes prog))))
              (group_by_time_sound _ Hp) (fun k H => sorted_in _ _ H) 0%Z)
    as [[parts ->]| ->]; cbn [bind]; [left; eexists; reflexivity | now right].
Qed.

Lemma pitched_by_pitches (ns : list NoteEvent) (ps : list Z) :
  List.map pitch ns = List.map Some ps -> pitched ns.
Proof.
  revert ps. induction ns as [|n ns IH]; intros [|p ps] H; try discriminate;
    [constructor|].
  cbn in H. injection H as Hn Hns. constructor; [eauto | now apply (IH ps)].
Qed.

(** On the rationals the pipeline either returns a result or stops for a
    division by zero: one by a zero denominator in a duration, or one by
    zero beats per bar in the serializer.  (On floats a length can also be
    infinite, and [int] then raises in the serializer.) *)
Lemma validate_abc_returns_or_divides_by_zero (abc_str : string)
  (key : option Z) (scale : option string) (beats_per_bar : Z) :
  (exists r, validate_abc abc_str key scale beats_per_bar = Ok r)
  \/ validate_abc abc_str key scale beats_per_bar = Raise ZeroDivisionError.
Proof.
  unfold validate_abc.
  destruct (abc_to_program abc_str beats_per_bar default_velocity_value)
    as [[prog perrs]|e] eqn:E; cbn [bind].
  - destruct perrs as [|perr perrs]; [|left; eexists; reflexivity].
    destruct (validate_program prog key scale beats_per_bar) as [[|ve verrs] vwarns];
      [|left; eexists; reflexivity].
    apply abc_to_program_lengthBars in E as (st & Hloop & _ & Hnotes & _).
    assert (Hinit : starts_in_order initial_builder).
    { exists []. cbn. repeat constructor. }
    destruct (builder_loop_invariant _ _ (tokenize_abc_shape abc_str) _ _ Hinit Hloop)
      as [_ Hpitches].
    cbn [initial_builder built_notes List.map app] in Hpitches.
    rewrite <- Hnotes in Hpitches.
    destruct (program_to_abc_sound prog beats_per_bar (pitched_by_pitches _ _ Hpitches))
      as [[text ->]| ->]; cbn [bind]; [left; eexists; reflexivity | now right].
  - right. now rewrite (abc_to_program_raises _ _ _ _ E).
Qed.

(* ================================================================= *)
(** ** Round trip: what the serializer writes *)

Lemma all_pitches_write_back :
  List.forallb pitch_writes_back (List.map Z.of_nat (List.seq 0 128)) = true.
Proof. vm_compute. reflexivity. Qed.

Lemma pitch_in_range_writes_back (p : Z) :
  pitch_in_range p = true -> pitch_writes_back p = true.
Proof.
  unfold pitch_in_range. intros H. apply andb_prop in H as [H0 H1].
  apply Z.leb_le in H0, H1.
  pose proof all_pitches_write_back as Hall.
  rewrite forallb_forall in Hall. apply Hall.
  apply in_map_iff. exists (Z.to_nat p). split; [lia|].
  apply in_seq. lia.
Qed.

Lemma duration_suffix_one : duration_suffix 1 = ""%string.
Proof. vm_compute. reflexivity. Qed.

(** [midi_to_abc] writes the pitch first and the duration after it. *)
Lemma midi_to_abc_split (p : Z) (d : Q) :
  midi_to_abc p d =
  (text <- midi_to_abc p 1 ;; Ok (text ++ duration_suffix d)%string).
Proof.
  unfold midi_to_abc.
  destruct (index_of _ natural_notes); cbn [bind]; [|reflexivity].
  now rewrite duration_suffix_one, app_empty_r.
Qed.

Lemma note_token_suffix acc letter ups downs (suffix : string) :
  (note_token acc letter ups downs "" ++ suffix)%string =
  note_token acc letter ups downs suffix.
Proof.
  unfold note_token. rewrite app_assoc_str. cbn [String.append].
  now rewrite !app_assoc_str.
Qed.

(** The text of a pitch in the MIDI range, taken apart. *)
Lemma midi_to_abc_in_range (p : Z) (d : Q) :
  pitch_in_range p = true ->
  exists acc delta letter base ups downs,
    midi_to_abc p d = Ok (note_token acc letter ups downs (duration_suffix d)) /\
    accidental_delta acc = Some delta /\
    ABC_BASE_NOTES letter = Some base /\
    (base + delta + 12 * Z.of_nat ups - 12 * Z.of_nat downs)%Z = p /\
    (acc = ""%string \/ acc = "^"%string).
Proof.
  intros Hp. apply pitch_in_range_writes_back in Hp.
  unfold pitch_writes_back, pitch_text in Hp.
  destruct (pitch_parts p) as [[[acc letter] ups] downs].
  destruct (midi_to_abc p 1) as [text|] eqn:Et; [|discriminate].
  destruct (accidental_delta acc) as [delta|] eqn:Ea; [|discriminate].
  destruct (ABC_BASE_NOTES letter) as [base|] eqn:Eb; [|discriminate].
  apply andb_prop in Hp as [Hp Hacc]. apply andb_prop in Hp as [Htext Hsum].
  apply String.eqb_eq in Htext. apply Z.eqb_eq in Hsum.
  exists acc, delta, letter, base, ups, downs.
  rewrite midi_to_abc_split, Et. cbn [bind]. subst text.
  rewrite note_token_suffix. repeat split; try assumption.
  apply orb_prop in Hacc as [H|H]; apply String.eqb_eq in H; auto.
Qed.

(* ================================================================= *)
(** ** Round trip: durations *)

Lemma string_of_uint_digits (u : Decimal.uint) :
  Py.all Py.isdigit (NilEmpty.string_of_uint u) = true.
Proof. induction u; cbn; auto. Qed.

(** The decimal text of a natural number and what it reads back as. *)
Lemma str_int_digits (n : Z) :
  (0 <= n)%Z ->
  Py.is_empty (Py.str_int n) = false /\
  Py.all Py.isdigit (Py.str_int n) = true /\
  Py.digits_value (Py.str_int n) = Some n.
Proof.
  intros Hn. destruct n as [|p|p]; [now vm_compute | | lia].
  unfold Py.str_int. cbn [Z.to_int NilZero.string_of_int].
  pose proof (DecimalPos.Unsigned.to_uint_nonnil p) as Hnil.
  assert (E : NilZero.string_of_uint (Pos.to_uint p) =
              NilEmpty.string_of_uint (Pos.to_uint p)).
  { unfold NilZero.string_of_uint. destruct (Pos.to_uint p); congruence. }
  rewrite E.
  assert (Hne : Py.is_empty (NilEmpty.string_of_uint (Pos.to_uint p)) = false).
  { destruct (Pos.to_uint p); [congruence | reflexivity ..]. }
  split; [assumption|]. split; [apply string_of_uint_digits|].
  unfold Py.digits_value.
  destruct (NilEmpty.string_of_uint (Pos.to_uint p)) eqn:Es; [discriminate|].
  rewrite <- Es, NilEmpty.usu. cbn.
  unfold Z.of_uint. now rewrite DecimalPos.Unsigned.of_to.
Qed.

Lemma digits_no_space (s : string) :
  Py.all Py.isdigit s = true -> Py.all (fun c => negb (Py.isspace c)) s = true.
Proof. apply all_impl. intros c. bits c; vm_compute; congruence. Qed.

Lemma float_of_digits (s : string) (z : Z) :
  Py.all Py.isdigit s = true -> Py.digits_value s = Some z ->
  Py.float s = Some (inject_Z 1 * inject_Z z).
Proof.
  intros Hd Hv. unfold Py.float.
  rewrite (strip_no_space _ (digits_no_space _ Hd)).
  destruct s as [|c s]; [discriminate|].
  rewrite float_sign_plain.
  2,3: cbn in Hd; apply andb_prop in Hd as [Hc _]; intros ->; discriminate.
  unfold Py.float_magnitude.
  rewrite <- (app_empty_r (String c s)) at 1.
  rewrite (span_app_stop Py.isdigit (String c s) "" Hd I), Hv. reflexivity.
Qed.

Lemma float_of_str_int (n : Z) :
  (0 <= n)%Z -> Py.float (Py.str_int n) = Some (inject_Z 1 * inject_Z n).
Proof.
  intros Hn. destruct (str_int_digits n Hn) as (_ & Hd & Hv).
  exact (float_of_digits _ _ Hd Hv).
Qed.

Lemma digits_no_slash (s : string) :
  Py.all Py.isdigit s = true -> Py.mem "/" s = false.
Proof.
  intros H. apply mem_all_false. revert H. apply all_impl.
  intros c. bits c; vm_compute; congruence.
Qed.

Lemma split_at_first (sep : ascii) (a b : string) :
  Py.mem sep a = false ->
  Py.split sep (a ++ String sep b) = a :: Py.split sep b.
Proof.
  induction a as [|c a IH]; cbn; intros H.
  - now rewrite Ascii.eqb_refl.
  - apply orb_false_iff in H as [Hc Ha]. rewrite Ascii.eqb_sym, Hc, (IH Ha).
    reflexivity.
Qed.

(** A whole number of beats, written and read back. *)
Lemma suffix_value_str_int (n : Z) :
  (0 <= n)%Z ->
  suffix_value (Py.str_int n) = Ok (inject_Z 1 * inject_Z n).
Proof.
  intros Hn. destruct (str_int_digits n Hn) as (He & Hd & _).
  unfold suffix_value, float_or_raise.
  now rewrite He, (digits_no_slash _ Hd), (float_of_str_int n Hn).
Qed.

(** A number of quarter beats, written and read back. *)
Lemma suffix_value_quarters (k : Z) :
  (0 < k)%Z ->
  suffix_value (Py.str_int k ++ "/4") = Ok (inject_Z 1 * inject_Z k / (inject_Z 1 * inject_Z 4)).
Proof.
  intros Hk. destruct (str_int_digits k ltac:(lia)) as (He & Hd & _).
  unfold suffix_value.
  assert (E1 : Py.is_empty (Py.str_int k ++ "/4") = false).
  { destruct (Py.str_int k); [discriminate | reflexivity]. }
  assert (E2 : Py.mem "/" (Py.str_int k ++ "/4") = true).
  { rewrite mem_app. cbn. now rewrite orb_true_r. }
  rewrite E1, E2. unfold slash_duration.
  rewrite (split_at_first _ _ _ (digits_no_slash _ Hd)), He.
  unfold float_or_raise at 1. rewrite (float_of_str_int k ltac:(lia)).
  cbn [bind]. reflexivity.
Qed.

Lemma all_duration_char_digits (s : string) :
  Py.all Py.isdigit s = true -> Py.all is_duration_char s = true.
Proof. apply all_impl. intros c Hc. unfold is_duration_char. now rewrite Hc. Qed.

Lemma is_duration_text_digits (s : string) :
  Py.is_empty s = false -> Py.all Py.isdigit s = true ->
  is_duration_text s = true.
Proof.
  intros He Hd. unfold is_duration_text.
  rewrite <- (app_empty_r s) at 1. rewrite (span_app_stop Py.isdigit s "" Hd I).
  now rewrite He.
Qed.

Lemma is_duration_text_fraction (s t : string) :
  Py.all Py.isdigit s = true -> Py.is_empty t = false ->
  Py.all Py.isdigit t = true ->
  is_duration_text (s ++ String "/" t) = true.
Proof.
  intros Hs Ht Hd. unfold is_duration_text.
  rewrite (span_app_stop _ _ _ Hs); [|reflexivity].
  now rewrite Ht, Hd.
Qed.

Lemma writes_duration_str_int (n : Z) (d : Q) :
  (0 <= n)%Z -> d == inject_Z n -> writes_duration (Py.str_int n) d.
Proof.
  intros Hn Hd. destruct (str_int_digits n Hn) as (He & Hdig & _).
  split; [now apply all_duration_char_digits|].
  split; [right; now apply is_duration_text_digits|].
  exists (inject_Z 1 * inject_Z n). split; [now apply suffix_value_str_int|].
  rewrite Hd. ring.
Qed.

Lemma writes_duration_quarters (k : Z) (d : Q) :
  (0 < k)%Z -> d * 4 == inject_Z k -> writes_duration (Py.str_int k ++ "/4") d.
Proof.
  intros Hk Hd. destruct (str_int_digits k ltac:(lia)) as (He & Hdig & _).
  split; [|split].
  - rewrite all_app, (all_duration_char_digits _ Hdig). reflexivity.
  - right. now apply is_duration_text_fraction.
  - eexists. split; [now apply suffix_value_quarters|].
    rewrite <- Hd. field.
Qed.

Lemma writes_duration_literal (suffix : string) (q d : Q) :
  Py.all is_duration_char suffix = true ->
  (suffix = ""%string \/ is_duration_text suffix = true) ->
  suffix_value suffix = Ok q -> q == d -> writes_duration suffix d.
Proof. intros. split; [|split]; eauto. Qed.

Lemma Qlt_bool_true (a b : Q) : Py.Qlt_bool a b = true <-> a < b.
Proof.
  unfold Py.Qlt_bool. rewrite negb_true_iff. split.
  - intros H. apply Qnot_le_lt. intros Hle. apply Qle_bool_iff in Hle. congruence.
  - intros H. apply not_true_iff_false. intros Hle. apply Qle_bool_iff in Hle.
    exact (Qlt_not_le _ _ H Hle).
Qed.

Lemma Qlt_bool_comp (a a' b b' : Q) :
  a == a' -> b == b' -> Py.Qlt_bool a b = Py.Qlt_bool a' b'.
Proof. intros Ha Hb. unfold Py.Qlt_bool. now rewrite Ha, Hb. Qed.

Lemma int_of_float_comp (d d' : Q) :
  d == d' -> Py.int_of_float d = Py.int_of_float d'.
Proof.
  intros H. unfold Py.int_of_float.
  rewrite (Qfloor_comp _ _ H), (Qceiling_comp _ _ H).
  now rewrite (Qleb_comp 0 0 (Qeq_refl 0) d d' H).
Qed.

Lemma int_of_float_nonneg (d : Q) : 0 <= d -> Py.int_of_float d = Qfloor d.
Proof.
  intros H. unfold Py.int_of_float. apply Qle_bool_iff in H. now rewrite H.
Qed.

Lemma Qfloor_nonneg (d : Q) : 0 <= d -> (0 <= Qfloor d)%Z.
Proof. intros H. apply Qfloor_resp_le in H. exact H. Qed.

(** Two numbers of quarter beats that are a hundredth apart are equal. *)
Lemma near_quarters_equal (d x : Q) (k a : Z) :
  d * 4 == inject_Z k -> x * 4 == inject_Z a ->
  Py.Qlt_bool (Qabs (d - x)) 0.01 = true -> d == x.
Proof.
  intros Hd Hx Hnear. apply Qlt_bool_true in Hnear.
  apply Qabs_Qlt_condition in Hnear as [Hlo Hhi].
  assert (Hk : k = a).
  { assert (H1 : inject_Z k < inject_Z (a + 1)).
    { rewrite inject_Z_plus, <- Hd, <- Hx. change (inject_Z 1) with 1. lra. }
    assert (H2 : inject_Z a < inject_Z (k + 1)).
    { rewrite inject_Z_plus, <- Hd, <- Hx. change (inject_Z 1) with 1. lra. }
    rewrite <- Zlt_Qlt in H1, H2. lia. }
  subst a. rewrite <- Hx in Hd. lra.
Qed.

Lemma is_quarter_multiple_spec (d : Q) :
  is_quarter_multiple d = true ->
  0 < d /\ (0 < Qfloor (d * 4))%Z /\ d * 4 == inject_Z (Qfloor (d * 4)).
Proof.
  unfold is_quarter_multiple. intros H. apply andb_prop in H as [Hpos Hq].
  apply Qlt_bool_true in Hpos. apply Qeq_bool_eq in Hq.
  split; [assumption|]. split; [|assumption].
  rewrite Zlt_Qlt, <- Hq. change (inject_Z 0) with 0. lra.
Qed.

(** The duration [midi_to_abc] writes after a note reads back as it was,
    when it is a positive number of quarter beats. *)
Lemma duration_suffix_writes (d : Q) :
  is_quarter_multiple d = true -> writes_duration (duration_suffix d) d.
Proof.
  intros H. apply is_quarter_multiple_spec in H as (Hpos & Hk & Hq).
  set (k := Qfloor (d * 4)) in *.
  unfold duration_suffix.
  assert (Hnear : forall (x : Q) (a : Z) (suffix : string) (q : Q),
             x * 4 == inject_Z a ->
             Py.all is_duration_char suffix = true ->
             (suffix = ""%string \/ is_duration_text suffix = true) ->
             suffix_value suffix = Ok q -> q == x ->
             Py.Qlt_bool (Qabs (d - x)) 0.01 = true ->
             writes_duration suffix d).
  { intros x a suffix q Hx Hc Ht Hv Hqx Hn.
    apply (writes_duration_literal suffix q d Hc Ht Hv).
    rewrite Hqx. symmetry. exact (near_quarters_equal d x k a Hq Hx Hn). }
  destruct (Py.Qlt_bool (Qabs (d - 0.25)) 0.01) eqn:N1.
  { apply (Hnear 0.25 1%Z "/4"%string (1 / (inject_Z 1 * inject_Z 4)));
      try reflexivity; auto. }
  destruct (Py.Qlt_bool (Qabs (d - 0.5)) 0.01) eqn:N2.
  { apply (Hnear 0.5 2%Z "/2"%string (1 / (inject_Z 1 * inject_Z 2)));
      try reflexivity; auto. }
  destruct (Py.Qlt_bool (Qabs (d - 1)) 0.01) eqn:N3.
  { apply (Hnear 1 4%Z ""%string 1); try reflexivity; auto. }
  destruct (Py.Qlt_bool (Qabs (d - 2)) 0.01) eqn:N4.
  { apply (Hnear 2 8%Z "2"%string (inject_Z 1 * inject_Z 2));
      try reflexivity; auto. }
  destruct (Py.Qlt_bool (Qabs (d - 3)) 0.01) eqn:N5.
  { apply (Hnear 3 12%Z "3"%string (inject_Z 1 * inject_Z 3));
      try reflexivity; auto. }
  destruct (Py.Qlt_bool (Qabs (d - 4)) 0.01) eqn:N6.
  { apply (Hnear 4 16%Z "4"%string (inject_Z 1 * inject_Z 4));
      try reflexivity; auto. }
  rewrite (int_of_float_nonneg d) by lra.
  destruct (Qeq_bool d (inject_Z (Qfloor d))) eqn:Hint.
  - apply Qeq_bool_eq in Hint.
    apply writes_duration_str_int; [apply Qfloor_nonneg; lra | assumption].
  - rewrite (int_of_float_nonneg (d * 4)) by lra. fold k.
    assert (G : (k >? 0)%Z = true) by (apply Z.gtb_lt; lia).
    rewrite G. now apply writes_duration_quarters.
Qed.

Lemma chord_suffix_comp (d d' : Q) : d == d' -> chord_suffix d = chord_suffix d'.
Proof.
  intros H. unfold chord_suffix.
  rewrite (Qlt_bool_comp 0.01 0.01 (Qabs (d - 1)) (Qabs (d' - 1)))
    by (try reflexivity; now rewrite H).
  rewrite (Qlt_bool_comp (Qabs (d - 0.5)) (Qabs (d' - 0.5)) 0.01 0.01)
    by (try reflexivity; now rewrite H).
  rewrite (Qlt_bool_comp (Qabs (d - 0.25)) (Qabs (d' - 0.25)) 0.01 0.01)
    by (try reflexivity; now rewrite H).
  rewrite (int_of_float_comp d d' H).
  now rewrite H.
Qed.

Lemma writes_duration_comp (suffix : string) (d d' : Q) :
  d == d' -> writes_duration suffix d' -> writes_duration suffix d.
Proof.
  intros H (Hc & Ht & q & Hv & Hq). split; [|split]; try assumption.
  exists q. split; [assumption|]. now rewrite H.
Qed.

Lemma is_chord_length_positive (d : Q) : is_chord_length d = true -> 0 < d.
Proof.
  unfold is_chord_length. intros H.
  apply orb_prop in H as [H|H]; [apply orb_prop in H as [H|H]|].
  - apply Qeq_bool_eq in H. rewrite H. reflexivity.
  - apply Qeq_bool_eq in H. rewrite H. reflexivity.
  - apply andb_prop in H as [H _]. apply Qle_bool_iff in H. lra.
Qed.

(** The duration written after a chord reads back as it was, when it is a
    quarter beat, half a beat or a positive number of beats. *)
Lemma chord_suffix_writes (d : Q) :
  is_chord_length d = true -> writes_duration (chord_suffix d) d.
Proof.
  unfold is_chord_length. intros H.
  apply orb_prop in H as [H|H]; [apply orb_prop in H as [H|H]|].
  - apply Qeq_bool_eq in H. rewrite (chord_suffix_comp _ _ H).
    apply (writes_duration_comp _ _ _ H).
    apply (writes_duration_literal "/4" (1 / (inject_Z 1 * inject_Z 4)));
      try reflexivity. now right.
  - apply Qeq_bool_eq in H. rewrite (chord_suffix_comp _ _ H).
    apply (writes_duration_comp _ _ _ H).
    apply (writes_duration_literal "/2" (1 / (inject_Z 1 * inject_Z 2)));
      try reflexivity. now right.
  - apply andb_prop in H as [H1 Hint].
    apply Qle_bool_iff in H1. apply Qeq_bool_eq in Hint.
    set (n := Qfloor d) in *.
    assert (Hn : (1 <= n)%Z).
    { rewrite Zle_Qle, <- Hint. exact H1. }
    rewrite (chord_suffix_comp _ _ Hint).
    apply (writes_duration_comp _ _ _ Hint).
    unfold chord_suffix.
    destruct (Py.Qlt_bool 0.01 (Qabs (inject_Z n - 1))) eqn:T.
    + rewrite (int_of_float_nonneg (inject_Z n)) by (rewrite <- Hint; lra).
      rewrite Qfloor_Z, Qeq_bool_refl.
      apply writes_duration_str_int; [lia | reflexivity].
    + assert (Hn1 : n = 1%Z).
      { destruct (Z.eq_dec n 1) as [|Hne]; [assumption|].
        assert (H2 : (2 <= n)%Z) by lia. rewrite Zle_Qle in H2. change (inject_Z 2) with 2 in H2.
        assert (Hlt : 0.01 < Qabs (inject_Z n - 1)).
        { apply Qlt_le_trans with (inject_Z n - 1); [lra | apply Qle_Qabs]. }
        apply Qlt_bool_true in Hlt. congruence. }
      subst n. rewrite Hn1.
      apply (writes_duration_literal "" 1); try reflexivity. now left.
Qed.

(* ================================================================= *)
(** ** Round trip: grouping by start beat *)

Lemma is_quarter_multiple_positive (d : Q) : is_quarter_multiple d = true -> 0 < d.
Proof. intros H. now apply is_quarter_multiple_spec in H. Qed.

Lemma writable_group_proper (g : Group) :
  writable_group g = true -> proper_group g.
Proof.
  unfold writable_group, proper_group. destruct g as [members d]. cbn [fst snd].
  destruct members as [|[p vel] [|m members]]; [discriminate | |];
    intros H; apply andb_prop in H as [_ H]; (split; [discriminate|]).
  - now apply is_quarter_multiple_positive.
  - now apply is_chord_length_positive.
Qed.

Lemma by_time_add_new (c : Q) (n : NoteEvent) (table : list (Q * list NoteEvent)) :
  keys_below c table -> by_time_add c n table = (table ++ [(c, [n])])%list.
Proof.
  induction 1 as [|[k g] table Hk _ IH]; cbn; [reflexivity|].
  cbn in Hk. destruct (Qeq_bool c k) eqn:E.
  - apply Qeq_bool_eq in E. rewrite E in Hk. now apply Qlt_irrefl in Hk.
  - now rewrite IH.
Qed.

Lemma by_time_add_last (c : Q) (n : NoteEvent) (g : list NoteEvent)
  (table : list (Q * list NoteEvent)) :
  keys_below c table ->
  by_time_add c n (table ++ [(c, g)]) = (table ++ [(c, (g ++ [n])%list)])%list.
Proof.
  induction 1 as [|[k g'] table Hk _ IH]; cbn.
  - now rewrite Qeq_bool_refl.
  - cbn in Hk. destruct (Qeq_bool c k) eqn:E.
    + apply Qeq_bool_eq in E. rewrite E in Hk. now apply Qlt_irrefl in Hk.
    + now rewrite IH.
Qed.

Lemma start_of_group_note (c : Q) (g : Group) (n : NoteEvent) :
  In n (group_notes c g) -> start_or_zero n = c.
Proof.
  unfold group_notes. intros H. apply in_map_iff in H as ([p vel] & <- & _).
  reflexivity.
Qed.

Lemma fold_same_start (c : Q) (ns g : list NoteEvent)
  (table : list (Q * list NoteEvent)) :
  keys_below c table -> (forall n, In n ns -> start_or_zero n = c) ->
  fold_left add_note ns (table ++ [(c, g)])%list = (table ++ [(c, (g ++ ns)%list)])%list.
Proof.
  intros Hk. revert g. induction ns as [|n ns IH]; intros g Hs; cbn.
  - now rewrite app_nil_r.
  - unfold add_note at 2. rewrite (Hs n (or_introl eq_refl)).
    rewrite (by_time_add_last _ _ _ _ Hk), IH by (intros; apply Hs; now right).
    now rewrite <- app_assoc.
Qed.

Lemma fold_group (c : Q) (g : Group) (table : list (Q * list NoteEvent)) :
  keys_below c table -> fst g <> [] ->
  fold_left add_note (group_notes c g) table =
  (table ++ [(c, group_notes c g)])%list.
Proof.
  intros Hk Hne.
  pose proof (start_of_group_note c g) as Hs.
  destruct (group_notes c g) as [|n ns] eqn:E.
  - unfold group_notes in E. destruct (fst g); [congruence | discriminate].
  - cbn [fold_left]. unfold add_note at 2.
    rewrite (Hs n (or_introl eq_refl)), (by_time_add_new _ _ _ Hk).
    apply (fold_same_start c ns [n] table Hk). intros; apply Hs; now right.
Qed.

Lemma keys_below_step (c d : Q) (notes : list NoteEvent)
  (table : list (Q * list NoteEvent)) :
  0 < d -> keys_below c table -> keys_below (c + d) (table ++ [(c, notes)])%list.
Proof.
  intros Hd Hk. apply Forall_app. split.
  - eapply Forall_impl; [|exact Hk]. intros e He. cbn in He. lra.
  - constructor; [cbn; lra | constructor].
Qed.

Lemma fold_lay_out (groups : list Group) :
  Forall proper_group groups ->
  forall c table, keys_below c table ->
  fold_left add_note (lay_out c groups) table = (table ++ entries c groups)%list.
Proof.
  induction 1 as [|g groups [Hne Hd] _ IH]; intros c table Hk; cbn.
  - now rewrite app_nil_r.
  - rewrite fold_left_app, (fold_group _ _ _ Hk Hne).
    rewrite (IH _ _ (keys_below_step _ _ _ _ Hd Hk)).
    now rewrite <- app_assoc.
Qed.

Lemma group_by_time_lay_out (groups : list Group) :
  Forall proper_group groups ->
  group_by_time (lay_out 0 groups) = entries 0 groups.
Proof.
  intros H. unfold group_by_time.
  exact (fold_lay_out groups H 0 [] (Forall_nil _)).
Qed.

(** The keys of the table are already in order. *)
Lemma sorted_entries (groups : list Group) :
  Forall proper_group groups ->
  forall c, sorted (List.map fst (entries c groups)) = List.map fst (entries c groups).
Proof.
  induction 1 as [|g groups [_ Hd] _ IH]; intros c; [reflexivity|].
  cbn [entries List.map fst]. unfold sorted in *. cbn [fold_right].
  rewrite IH. destruct groups as [|g' groups]; [reflexivity|].
  cbn [entries List.map fst insert_sorted].
  assert (E : Qle_bool c (c + snd g) = true) by (apply Qle_bool_iff; lra).
  now rewrite E.
Qed.

Lemma by_time_get_entry (c : Q) (notes : list NoteEvent)
  (table later : list (Q * list NoteEvent)) :
  keys_below c table ->
  by_time_get c (table ++ (c, notes) :: later) = notes.
Proof.
  induction 1 as [|[k g] table Hk _ IH]; cbn.
  - now rewrite Qeq_bool_refl.
  - cbn in Hk. destruct (Qeq_bool c k) eqn:E; [|assumption].
    apply Qeq_bool_eq in E. rewrite E in Hk. now apply Qlt_irrefl in Hk.
Qed.

(* ================================================================= *)
(** ** Round trip: the text of a program *)

Lemma join_empty_separator (l : list string) : Py.join "" l = flat l.
Proof.
  unfold Py.join. induction l as [|a l IH]; [reflexivity|].
  cbn [flat fold_right]. fold (flat l). rewrite <- IH.
  destruct l as [|b l]; cbn; [now rewrite app_empty_r | reflexivity].
Qed.

Lemma midi_to_abc_one (p : Z) :
  pitch_in_range p = true -> midi_to_abc p 1 = Ok (pitch_text p).
Proof.
  intros Hp. apply pitch_in_range_writes_back in Hp.
  unfold pitch_writes_back in Hp.
  destruct (pitch_parts p) as [[[acc letter] ups] downs].
  destruct (midi_to_abc p 1) as [text|]; [|discriminate].
  destruct (accidental_delta acc); [|discriminate].
  destruct (ABC_BASE_NOTES letter); [|discriminate].
  apply andb_prop in Hp as [Hp _]. apply andb_prop in Hp as [Htext _].
  apply String.eqb_eq in Htext. now subst.
Qed.

Lemma chord_member_texts (c d : Q) (members : list (Z * Q)) :
  List.forallb (fun m => pitch_in_range (fst m)) members = true ->
  map_result (fun n => p <- pitch_or_raise n ;; midi_to_abc p 1)
    (List.map (fun '(p, vel) => mkNote (Some p) (Some c) (Some d) (Some vel)) members)
  = Ok (List.map (fun m => pitch_text (fst m)) members).
Proof.
  induction members as [|[p vel] members IH]; cbn [List.map map_result forallb];
    [reflexivity|].
  intros H. apply andb_prop in H as [Hp Hms].
  cbn [pitch_or_raise pitch bind fst]. rewrite (midi_to_abc_one p Hp).
  cbn [bind]. now rewrite (IH Hms).
Qed.

Lemma group_to_abc_writable (c : Q) (g : Group) :
  writable_group g = true -> group_to_abc (group_notes c g) = Ok (group_text g).
Proof.
  destruct g as [members d]. unfold writable_group, group_text, group_notes.
  cbn [fst snd].
  destruct members as [|[p vel] [|m members]]; [discriminate | |]; intros H.
  - apply andb_prop in H as [Hp _].
    cbn [List.map group_to_abc pitch_or_raise pitch bind length_or_one lengthBeats].
    rewrite midi_to_abc_split, (midi_to_abc_one p Hp). reflexivity.
  - apply andb_prop in H as [Hps _].
    pose proof (chord_member_texts c d _ Hps) as Htexts.
    destruct m as [p' vel'].
    cbn [List.map] in Htexts |- *. cbn [group_to_abc].
    rewrite Htexts. cbn [bind length_or_one lengthBeats].
    rewrite join_empty_separator. reflexivity.
Qed.

Lemma abc_parts_loop_lay_out (beats_per_bar : Z) (groups : list Group) :
  beats_per_bar <> 0%Z ->
  Forall (fun g => writable_group g = true) groups ->
  forall c table notes_in_bar,
    keys_below c table ->
    exists flags,
      List.length flags = List.length groups /\
      (notes_in_bar = 0%Z -> List.hd false flags = false) /\
      abc_parts_loop (table ++ entries c groups) beats_per_bar
                     (List.map fst (entries c groups)) notes_in_bar
      = Ok (with_bars (List.combine flags (List.map group_text groups))).
Proof.
  intros Hb. induction 1 as [|g groups Hg _ IH]; intros c table nib Hk.
  - exists []. repeat split.
  - cbn [entries List.map fst abc_parts_loop].
    rewrite (by_time_get_entry _ _ _ _ Hk).
    unfold floordiv, float_mod.
    assert (Hz : (beats_per_bar =? 0)%Z = false) by now apply Z.eqb_neq.
    rewrite Hz. cbv beta iota. cbn [bind].
    match goal with
    | |- context [if ?b then ?x else Ok false] =>
        assert (E : exists new_bar,
                   (if b then x else Ok false) = Ok new_bar /\
                   (nib = 0%Z -> new_bar = false))
    end.
    { match goal with |- context [if ?b then _ else _] => destruct b eqn:Eb end.
      - eexists. split; [cbn [bind]; reflexivity|].
        intros ->. rewrite andb_false_r in Eb. discriminate.
      - exists false. auto. }
    destruct E as (new_bar & E & Hfirst).
    rewrite E. cbn [bind]. rewrite (group_to_abc_writable _ _ Hg). cbn [bind].
    pose proof (writable_group_proper _ Hg) as [_ Hd].
    destruct (IH (c + snd g) (table ++ [(c, group_notes c g)])%list
                 ((if new_bar then 0 else nib) + 1)%Z
                 (keys_below_step _ _ _ _ Hd Hk)) as (flags & Hlen & _ & Hloop).
    rewrite <- app_assoc in Hloop. cbn [app] in Hloop. rewrite Hloop. cbn [bind].
    exists (new_bar :: flags). split; [cbn; now rewrite Hlen|]. split.
    + exact Hfirst.
    + reflexivity.
Qed.

Lemma program_to_abc_lay_out (beats_per_bar : Z) (lb : option Q) (g : Group)
  (groups : list Group) :
  beats_per_bar <> 0%Z ->
  Forall (fun g => writable_group g = true) (g :: groups) ->
  exists flags,
    List.length flags = List.length groups /\
    program_to_abc {| lengthBars := lb; notes := lay_out 0 (g :: groups) |}
                   beats_per_bar
    = Ok (Py.join " "
            (with_bars ((false, group_text g)
                        :: List.combine flags (List.map group_text groups))
             ++ ["|"%string])%list).
Proof.
  intros Hb Hw.
  assert (Hp : Forall proper_group (g :: groups)).
  { eapply Forall_impl; [|exact Hw]. intros; now apply writable_group_proper. }
  unfold program_to_abc. cbn [notes].
  destruct (lay_out 0 (g :: groups)) as [|n ns] eqn:El.
  { exfalso. inversion Hp as [|? ? [Hne _] _]; subst.
    cbn in El. unfold group_notes in El.
    destruct (fst g); [congruence | discriminate]. }
  rewrite <- El. clear El n ns.
  rewrite (group_by_time_lay_out _ Hp), (sorted_entries _ Hp).
  destruct (abc_parts_loop_lay_out beats_per_bar (g :: groups) Hb Hw 0 [] 0%Z
              (Forall_nil _)) as (flags & Hlen & Hfirst & Hloop).
  cbn [app] in Hloop. rewrite Hloop. cbn [bind].
  destruct flags as [|f flags]; [discriminate|].
  cbn in Hfirst. rewrite (Hfirst eq_refl).
  exists flags. split; [cbn in Hlen; congruence | reflexivity].
Qed.

(* ================================================================= *)
(** ** Round trip: the text the tokenizer scans *)

Lemma units_cons (t : string) (l : list string) :
  units (t :: l) = (t ++ String " " (units l))%string.
Proof. unfold units. cbn. now rewrite app_assoc_str. Qed.

Lemma join_then_last (parts : list string) (x : string) :
  Py.join " " (parts ++ [x])%list = (units parts ++ x)%string.
Proof.
  unfold Py.join. induction parts as [|p parts IH]; [reflexivity|].
  rewrite units_cons, app_assoc_str. cbn [String.append]. rewrite <- IH.
  destruct parts; reflexivity.
Qed.

Lemma join_as_units (t : string) (l : list string) :
  (Py.join " " (t :: l) ++ " ")%string = units (t :: l).
Proof.
  unfold Py.join. revert t. induction l as [|u l IH]; intros t.
  - now rewrite units_cons.
  - change (String.concat " " (t :: u :: l))
      with (t ++ " " ++ String.concat " " (u :: l))%string.
    rewrite !app_assoc_str, IH, (units_cons t). reflexivity.
Qed.

Section Runs.

Variable p : ascii -> bool.

Lemma sub_runs_from_pass (b : bool) (c : ascii) (s : string) :
  p c = false -> sub_runs_from p b (String c s) = String c (sub_runs_from p false s).
Proof. intros H. cbn. now rewrite H. Qed.

(** A stretch without any character of the runs is copied. *)
Lemma sub_runs_from_text (t rest : string) :
  Py.all (fun c => negb (p c)) t = true ->
  sub_runs_from p false (t ++ rest) = (t ++ sub_runs_from p false rest)%string.
Proof.
  induction t as [|c t IH]; cbn [String.append Py.all]; [reflexivity|].
  intros H. apply andb_prop in H as [Hc Ht]. apply negb_true_iff in Hc.
  now rewrite (sub_runs_from_pass _ _ _ Hc), (IH Ht).
Qed.

Lemma sub_runs_from_text_any (b : bool) (t rest : string) :
  Py.is_empty t = false -> Py.all (fun c => negb (p c)) t = true ->
  sub_runs_from p b (t ++ rest) = (t ++ sub_runs_from p false rest)%string.
Proof.
  destruct t as [|c t]; [discriminate|]. intros _ H.
  cbn [String.append Py.all] in *. apply andb_prop in H as [Hc Ht].
  apply negb_true_iff in Hc.
  now rewrite (sub_runs_from_pass _ _ _ Hc), (sub_runs_from_text _ _ Ht).
Qed.

End Runs.

Lemma clean_no_bar (t : string) :
  Py.all clean_char t = true ->
  Py.all (fun c => negb (Ascii.eqb "|" c)) t = true.
Proof. apply all_impl. intros c. bits c; vm_compute; congruence. Qed.

Lemma clean_no_space (t : string) :
  Py.all clean_char t = true ->
  Py.all (fun c => negb (Py.isspace c)) t = true.
Proof. apply all_impl. intros c. bits c; vm_compute; congruence. Qed.

Lemma spaced_cons (bar : bool) (t : string) (items : list (bool * string)) :
  spaced ((bar, t) :: items) =
  ((if bar then "  " else "") ++ t ++ String " " (spaced items))%string.
Proof. unfold spaced. cbn. now rewrite !app_assoc_str. Qed.

Lemma bars_to_spaces (items : list (bool * string)) (rest : string) :
  Forall (fun i => clean (snd i)) items ->
  sub_runs_from (Ascii.eqb "|") false (units (with_bars items) ++ rest) =
  (spaced items ++ sub_runs_from (Ascii.eqb "|") false rest)%string.
Proof.
  induction 1 as [|[bar t] items [_ Ht] _ IH]; [reflexivity|].
  cbn [snd] in Ht.
  assert (Htext : forall tail,
             sub_runs_from (Ascii.eqb "|") false (t ++ String " " tail) =
             (t ++ String " " (sub_runs_from (Ascii.eqb "|") false tail))%string).
  { intros tail. rewrite (sub_runs_from_text _ _ _ (clean_no_bar _ Ht)).
    reflexivity. }
  rewrite spaced_cons. destruct bar; cbn [with_bars app].
  - rewrite !units_cons. cbn [String.append].
    change (sub_runs_from (Ascii.eqb "|") false
              (String "|" (String " " ((t ++ String " " (units (with_bars items))) ++ rest))))
      with (String " " (String " "
              (sub_runs_from (Ascii.eqb "|") false
                 ((t ++ String " " (units (with_bars items))) ++ rest)))).
    rewrite !app_assoc_str. cbn [String.append]. now rewrite Htext, IH.
  - rewrite units_cons, !app_assoc_str. cbn [String.append]. now rewrite Htext, IH.
Qed.

Lemma spaces_collapse (items : list (bool * string)) :
  Forall (fun i => clean (snd i)) items ->
  sub_runs_from Py.isspace true (spaced items ++ " ") = units (List.map snd items).
Proof.
  induction 1 as [|[bar t] items [Hne Ht] _ IH]; [reflexivity|].
  cbn [snd] in Hne, Ht.
  assert (Hstep : forall tail,
             sub_runs_from Py.isspace true (t ++ String " " tail) =
             (t ++ String " " (sub_runs_from Py.isspace true tail))%string).
  { intros tail.
    now rewrite (sub_runs_from_text_any _ _ _ _ Hne (clean_no_space _ Ht)). }
  rewrite spaced_cons. cbn [List.map snd]. rewrite units_cons.
  destruct bar; rewrite !app_assoc_str; cbn [String.append].
  - change (sub_runs_from Py.isspace true
              (String " " (String " " (t ++ String " " (spaced items ++ " ")))))
      with (sub_runs_from Py.isspace true (t ++ String " " (spaced items ++ " "))).
    now rewrite Hstep, IH.
  - now rewrite Hstep, IH.
Qed.

Lemma rstrip_by_app (p : ascii -> bool) (a b : string) :
  Py.is_empty (Py.rstrip_by p b) = false ->
  Py.rstrip_by p (a ++ b) = (a ++ Py.rstrip_by p b)%string.
Proof.
  intros H. induction a as [|c a IH]; cbn; [reflexivity|].
  rewrite IH. destruct (a ++ Py.rstrip_by p b)%string eqn:E; [|reflexivity].
  destruct a; cbn in E; [|discriminate]. rewrite E in H. discriminate.
Qed.

Lemma rstrip_units (t : string) (l : list string) :
  Forall clean (t :: l) ->
  Py.rstrip_by Py.isspace (units (t :: l)) = Py.join " " (t :: l).
Proof.
  revert t. induction l as [|u l IH]; intros t H; inversion H as [|? ? [Hne Ht] Hl]; subst.
  - unfold units. cbn [List.map flat fold_right Py.join String.concat].
    rewrite app_empty_r.
    assert (E : Py.rstrip_by Py.isspace " " = ""%string) by reflexivity.
    pose proof (rstrip_by_none _ _ (clean_no_space _ Ht)) as Hkeep.
    clear - Hne Hkeep. induction t as [|c t IHt]; [discriminate|].
    cbn [String.append Py.rstrip_by] in *.
    destruct t as [|c' t].
    + cbn in *. destruct (Py.isspace c); [discriminate | reflexivity].
    + assert (Hk : Py.rstrip_by Py.isspace (String c' t) = String c' t).
      { destruct (Py.is_empty (Py.rstrip_by Py.isspace (String c' t)) && Py.isspace c);
          [discriminate | congruence]. }
      rewrite (IHt eq_refl Hk). reflexivity.
  - change (units (t :: u :: l)) with ((t ++ " ") ++ units (u :: l))%string.
    rewrite rstrip_by_app; rewrite (IH u Hl).
    + unfold Py.join. change (String.concat " " (t :: u :: l))
        with (t ++ " " ++ String.concat " " (u :: l))%string.
      now rewrite app_assoc_str.
    + inversion Hl as [|? ? [Hu _] _]; subst.
      unfold Py.join. destruct u; [discriminate|]. destruct l; reflexivity.
Qed.

Lemma lstrip_clean_head (t rest : string) :
  clean t -> Py.lstrip_by Py.isspace (t ++ rest) = (t ++ rest)%string.
Proof.
  intros [Hne Ht]. destruct t as [|c t]; [discriminate|].
  cbn [String.append Py.all] in *. apply andb_prop in Ht as [Hc _].
  apply lstrip_by_head. revert Hc. clear. bits c; vm_compute; congruence.
Qed.

Lemma join_head (t : string) (l : list string) :
  exists rest, Py.join " " (t :: l) = (t ++ rest)%string.
Proof.
  destruct l as [|u l]; [exists ""%string; now rewrite app_empty_r|].
  eexists. reflexivity.
Qed.

Lemma units_head (t : string) (l : list string) :
  exists rest, units (t :: l) = (t ++ rest)%string.
Proof. eexists. unfold units. cbn. now rewrite app_assoc_str. Qed.

(** White space is stripped from the collapsed text. *)
Lemma strip_units (t : string) (l : list string) :
  Forall clean (t :: l) -> Py.strip (units (t :: l)) = Py.join " " (t :: l).
Proof.
  intros H. unfold Py.strip. rewrite (rstrip_units t l H).
  destruct (join_head t l) as [rest ->].
  apply lstrip_clean_head. now inversion H.
Qed.

Lemma all_units (p : ascii -> bool) (parts : list string) :
  p " "%char = true -> Forall (fun t => Py.all p t = true) parts ->
  Py.all p (units parts) = true.
Proof.
  intros Hsp. induction 1 as [|t parts Ht _ IH]; [reflexivity|].
  rewrite units_cons, all_app. cbn [Py.all]. now rewrite Ht, Hsp, IH.
Qed.

Lemma with_bars_written (items : list (bool * string)) :
  Forall (fun i => clean (snd i)) items ->
  Forall (fun t => Py.all written_char t = true) (with_bars items).
Proof.
  induction 1 as [|[bar t] items [_ Ht] _ IH]; [constructor|].
  cbn [with_bars snd] in *.
  assert (Hw : Py.all written_char t = true).
  { revert Ht. apply all_impl. intros c Hc. unfold written_char. now rewrite Hc. }
  destruct bar; cbn [app]; repeat constructor; assumption.
Qed.

Lemma split_no_separator (sep : ascii) (s : string) :
  Py.mem sep s = false -> Py.split sep s = [s].
Proof.
  induction s as [|c s IH]; cbn; [reflexivity|].
  intros H. apply orb_false_iff in H as [Hc Hs].
  rewrite Ascii.eqb_sym, Hc, (IH Hs). reflexivity.
Qed.

Lemma no_colon_no_header (l : string) :
  Py.mem ":" l = false -> is_header_line l = false.
Proof.
  destruct l as [|c [|d l]]; try reflexivity.
  cbn [Py.mem]. intros H. apply orb_false_iff in H as [_ H].
  apply orb_false_iff in H as [H _]. revert H. clear.
  unfold is_header_line. bits d; try reflexivity. discriminate.
Qed.

Lemma written_no_newline (s : string) :
  Py.all written_char s = true -> Py.mem (Py.chr 10) s = false.
Proof.
  intros H. apply mem_all_false. revert H. apply all_impl.
  intros c. bits c; vm_compute; congruence.
Qed.

Lemma written_no_colon (s : string) :
  Py.all written_char s = true -> Py.mem ":" s = false.
Proof.
  intros H. apply mem_all_false. revert H. apply all_impl.
  intros c. bits c; vm_compute; congruence.
Qed.

(** The text the tokenizer scans, for a written program: the texts of the
    groups with one space between them. *)
Lemma note_content_written (t : string) (items : list (bool * string)) :
  Forall (fun i => clean (snd i)) ((false, t) :: items) ->
  note_content (Py.join " " (with_bars ((false, t) :: items) ++ ["|"%string])%list)
  = Py.join " " (t :: List.map snd items).
Proof.
  intros H. inversion H as [|? ? Hct Hitems]; subst. cbn [snd] in Hct.
  rewrite join_then_last.
  set (W := (units (with_bars ((false, t) :: items)) ++ "|")%string).
  assert (Hchars : Py.all written_char W = true).
  { unfold W. rewrite all_app, (all_units _ _ eq_refl (with_bars_written _ H)).
    reflexivity. }
  assert (Hstrip : Py.strip W = W).
  { unfold Py.strip, W. rewrite rstrip_by_app by reflexivity.
    change (Py.rstrip_by Py.isspace "|") with "|"%string.
    cbn [with_bars app]. rewrite units_cons, app_assoc_str.
    now apply lstrip_clean_head. }
  unfold note_content. rewrite Hstrip.
  rewrite (split_no_separator _ _ (written_no_newline _ Hchars)).
  cbn [List.filter]. rewrite (no_colon_no_header _ (written_no_colon _ Hchars)).
  cbn [negb Py.join String.concat].
  unfold sub_runs, W. rewrite (bars_to_spaces _ _ H).
  change (sub_runs_from (Ascii.eqb "|") false "|") with " "%string.
  rewrite spaced_cons. cbn [String.append]. rewrite app_assoc_str.
  cbn [String.append].
  destruct Hct as [Hne Hcl].
  rewrite (sub_runs_from_text _ _ _ (clean_no_space _ Hcl)).
  change (sub_runs_from Py.isspace false (String " " (spaced items ++ " ")))
    with (String " " (sub_runs_from Py.isspace true (spaced items ++ " "))).
  rewrite (spaces_collapse _ Hitems), <- units_cons.
  apply strip_units. constructor; [now split|].
  clear - Hitems. induction Hitems as [|[b u] items Hu _ IH]; constructor; assumption.
Qed.

(* ================================================================= *)
(** ** Round trip: the tokens of a written program *)

Lemma stop_after_suffix (p : ascii -> bool) (sfx rest : string) :
  (forall c, is_duration_char c = true -> p c = false) -> p " "%char = false ->
  Py.all is_duration_char sfx = true -> stops rest ->
  match (sfx ++ rest)%string with
  | String c _ => p c = false
  | EmptyString => True
  end.
Proof.
  intros Hp Hsp Hs Hr. destruct sfx as [|c sfx]; cbn [String.append].
  - destruct rest as [|c rest]; [exact I|]. cbn in Hr. now subst.
  - cbn in Hs. apply andb_prop in Hs as [Hc _]. now apply Hp.
Qed.

Lemma stop_at_rest (rest : string) :
  stops rest ->
  match rest with
  | String c _ => is_duration_char c = false
  | EmptyString => True
  end.
Proof. destruct rest as [|c rest]; [easy|]. cbn. now intros ->. Qed.

Lemma duration_char_not_octave (c : ascii) :
  is_duration_char c = true -> is_octave_char c = false.
Proof. bits c; vm_compute; congruence. Qed.

Lemma pitch_letter_facts (l : ascii) :
  is_pitch_letter l = true ->
  Py.isspace l = false /\ Ascii.eqb l "[" = false /\
  Py.mem l "ABCDEFGabcdefgzZ^_=" = true /\ Py.mem l "^_=" = false /\
  Py.mem l "ABCDEFGabcdefgzZ" = true.
Proof. bits l; vm_compute; intros H; try discriminate; repeat split. Qed.

Lemma find_close_first (body after : string) :
  Py.mem "]" body = false ->
  find_close (body ++ String "]" after) = Some (body, after).
Proof.
  induction body as [|c body IH]; cbn [find_close String.append Py.mem];
    [reflexivity|].
  intros H. apply orb_false_iff in H as [Hc Hb].
  rewrite Ascii.eqb_sym, Hc, (IH Hb). reflexivity.
Qed.

Lemma tokenize_note_form (fuel : nat) (t rest : string) :
  note_form t -> stops rest ->
  tokenize_loop (S fuel) (t ++ rest) = t :: tokenize_loop fuel rest.
Proof.
  intros (acc & letter & octs & sfx & -> & Hacc & Hl & Ho & Hs) Hr.
  destruct (pitch_letter_facts _ Hl) as (L1 & L2 & L3 & L4 & L5).
  rewrite !app_assoc_str. cbn [String.append]. rewrite !app_assoc_str.
  set (tail := (octs ++ sfx ++ rest)%string).
  assert (Hspan1 : Py.span (fun c => Py.mem c "^_=") (acc ++ String letter tail)
                   = (acc, String letter tail)).
  { apply span_app_stop; [destruct Hacc as [->| ->]; reflexivity | exact L4]. }
  assert (Hspan2 : Py.span (fun c => Py.mem c (String Py.squote ",")) tail
                   = (octs, (sfx ++ rest)%string)).
  { apply span_app_stop; [exact Ho|].
    apply (stop_after_suffix is_octave_char);
      [exact duration_char_not_octave | reflexivity | assumption | assumption]. }
  assert (Hspan3 : Py.span is_duration_char (sfx ++ rest) = (sfx, rest)).
  { apply span_app_stop; [exact Hs | now apply stop_at_rest]. }
  assert (Hbranch : exists c X, (acc ++ String letter tail)%string = String c X /\
                      Py.isspace c = false /\ Ascii.eqb c "[" = false /\
                      Py.mem c "ABCDEFGabcdefgzZ^_=" = true).
  { destruct Hacc as [->| ->]; cbn [String.append]; eexists _, _;
      (split; [reflexivity|]); repeat split; assumption || reflexivity. }
  destruct Hbranch as (c & X & Hc & C1 & C2 & C3).
  cbn [tokenize_loop]. rewrite Hc, C1, C2, C3, <- Hc, Hspan1, L5, Hspan2, Hspan3.
  assert (Htoken : (acc ++ String letter "" ++ octs ++ sfx)%string
                   = (acc ++ String letter (octs ++ sfx))%string) by reflexivity.
  rewrite Htoken.
  assert (Hne : Py.is_empty (acc ++ String letter (octs ++ sfx)) = false).
  { destruct acc; reflexivity. }
  rewrite Hne. reflexivity.
Qed.

Lemma tokenize_chord_form (fuel : nat) (t rest : string) :
  chord_form t -> stops rest ->
  tokenize_loop (S fuel) (t ++ rest) = t :: tokenize_loop fuel rest.
Proof.
  intros (body & sfx & -> & Hb & Hs) Hr.
  rewrite !app_assoc_str. cbn [String.append]. rewrite !app_assoc_str.
  cbn [String.append tokenize_loop].
  change (Py.isspace "[") with false. change (Ascii.eqb "[" "[") with true.
  cbv iota. rewrite (find_close_first _ _ Hb).
  rewrite (span_app_stop _ _ _ Hs (stop_at_rest _ Hr)).
  rewrite app_assoc_str. reflexivity.
Qed.

Lemma written_token_nonempty (t : string) :
  written_token t -> (1 <= String.length t)%nat.
Proof.
  intros [(acc & l & o & s & -> & _)|(b & s & -> & _)].
  - destruct acc; cbn; lia.
  - cbn. lia.
Qed.

Lemma length_app_str (a b : string) :
  String.length (a ++ b) = (String.length a + String.length b)%nat.
Proof. induction a; cbn; congruence. Qed.

Lemma tokenize_written_token (fuel : nat) (t rest : string) :
  written_token t -> stops rest ->
  tokenize_loop (S fuel) (t ++ rest) = t :: tokenize_loop fuel rest.
Proof. intros [H|H]; [now apply tokenize_note_form | now apply tokenize_chord_form]. Qed.

(** The tokenizer gives back the written tokens. *)
Lemma tokenize_written (texts : list string) :
  Forall written_token texts ->
  forall fuel, (String.length (Py.join " " texts) <= fuel)%nat ->
  tokenize_loop fuel (Py.join " " texts) = texts.
Proof.
  unfold Py.join.
  induction 1 as [|t texts Ht Hts IH]; intros fuel Hfuel.
  - destruct fuel; reflexivity.
  - pose proof (written_token_nonempty _ Ht) as Hlen.
    destruct texts as [|u texts].
    + cbn [String.concat] in *. destruct fuel as [|fuel]; [lia|].
      rewrite <- (app_empty_r t) at 1.
      rewrite (tokenize_written_token fuel t "" Ht I). destruct fuel; reflexivity.
    + change (String.concat " " (t :: u :: texts))
        with (t ++ String " " (String.concat " " (u :: texts)))%string in *.
      rewrite length_app_str in Hfuel. cbn [String.length] in Hfuel.
      destruct fuel as [|[|fuel]]; [lia | lia |].
      rewrite (tokenize_written_token _ t (String " " (String.concat " " (u :: texts))) Ht eq_refl).
      cbn [tokenize_loop]. change (Py.isspace " ") with true. cbv iota.
      rewrite IH by lia. reflexivity.
Qed.

(* ================================================================= *)
(** ** Round trip: reading the written tokens back *)

Lemma all_pitch_texts_plain :
  List.forallb (fun p => Py.all is_pitch_text_char (pitch_text p))
               (List.map Z.of_nat (List.seq 0 128)) = true.
Proof. vm_compute. reflexivity. Qed.

Lemma pitch_text_chars (p : Z) :
  pitch_in_range p = true -> Py.all is_pitch_text_char (pitch_text p) = true.
Proof.
  unfold pitch_in_range. intros H. apply andb_prop in H as [H0 H1].
  apply Z.leb_le in H0, H1.
  pose proof all_pitch_texts_plain as Hall.
  rewrite forallb_forall in Hall. apply Hall.
  apply in_map_iff. exists (Z.to_nat p). split; [lia|]. apply in_seq. lia.
Qed.

(** The parts of the text of a pitch in the MIDI range. *)
Lemma pitch_text_parts (p : Z) :
  pitch_in_range p = true ->
  exists acc delta letter base ups downs,
    pitch_text p = note_token acc letter ups downs "" /\
    accidental_delta acc = Some delta /\
    ABC_BASE_NOTES letter = Some base /\
    (base + delta + 12 * Z.of_nat ups - 12 * Z.of_nat downs)%Z = p /\
    (acc = ""%string \/ acc = "^"%string).
Proof.
  intros Hp. apply pitch_in_range_writes_back in Hp.
  unfold pitch_writes_back, pitch_text in *.
  destruct (pitch_parts p) as [[[acc letter] ups] downs].
  destruct (midi_to_abc p 1) as [text|]; [|discriminate].
  destruct (accidental_delta acc) as [delta|] eqn:Ea; [|discriminate].
  destruct (ABC_BASE_NOTES letter) as [base|] eqn:Eb; [|discriminate].
  apply andb_prop in Hp as [Hp Hacc]. apply andb_prop in Hp as [_ Hsum].
  apply Z.eqb_eq in Hsum.
  exists acc, delta, letter, base, ups, downs. repeat split; try assumption.
  apply orb_prop in Hacc as [H|H]; apply String.eqb_eq in H; auto.
Qed.

Lemma base_letter_is_pitch_letter (l : ascii) (b : Z) :
  ABC_BASE_NOTES l = Some b -> is_pitch_letter l = true.
Proof. bits l; vm_compute; congruence. Qed.

Lemma octaves_all (ups downs : nat) :
  Py.all is_octave_char (quotes ups ++ commas downs ++ "") = true.
Proof.
  rewrite !all_app. unfold quotes, commas, single_quote.
  now rewrite !all_repeat_str by reflexivity.
Qed.

Lemma note_token_form acc delta letter base ups downs (sfx : string) :
  accidental_delta acc = Some delta -> ABC_BASE_NOTES letter = Some base ->
  (acc = ""%string \/ acc = "^"%string) ->
  Py.all is_duration_char sfx = true ->
  note_form (note_token acc letter ups downs sfx).
Proof.
  intros Ha Hb Hacc Hs.
  exists acc, letter, (quotes ups ++ commas downs ++ "")%string, sfx.
  split; [|split; [assumption|split; [now apply (base_letter_is_pitch_letter _ base)|]]].
  - unfold note_token. now rewrite !app_assoc_str.
  - split; [apply octaves_all | assumption].
Qed.

Lemma all_flat (p : ascii -> bool) (l : list string) :
  Forall (fun t => Py.all p t = true) l -> Py.all p (flat l) = true.
Proof.
  induction 1 as [|t l Ht _ IH]; [reflexivity|].
  cbn [flat fold_right]. fold (flat l). now rewrite all_app, Ht, IH.
Qed.

Lemma chord_body_chars (members : list (Z * Q)) :
  List.forallb (fun m => pitch_in_range (fst m)) members = true ->
  Py.all is_pitch_text_char (chord_body members) = true.
Proof.
  intros H. apply all_flat. rewrite forallb_forall in H.
  apply Forall_forall. intros t Ht. apply in_map_iff in Ht as (m & <- & Hm).
  apply pitch_text_chars. now apply H.
Qed.

Lemma pitch_text_char_facts (c : ascii) :
  is_pitch_text_char c = true ->
  clean_char c = true /\ is_duration_char c = false /\
  Py.mem c "[]" = false /\ Ascii.eqb "]" c = false /\ Ascii.eqb c "]" = false.
Proof. bits c; vm_compute; intros H; try discriminate; repeat split. Qed.

Lemma duration_char_facts (c : ascii) :
  is_duration_char c = true ->
  clean_char c = true /\ Py.mem c "[]" = false /\ Py.isspace c = false /\
  Py.mem c "^_=ABCDEFGabcdefg" = false /\ Ascii.eqb c "," = false /\
  Ascii.eqb c Py.squote = false /\ Ascii.eqb c "]" = false.
Proof. bits c; vm_compute; intros H; try discriminate; repeat split. Qed.

Lemma group_text_single (p : Z) (vel d : Q) :
  group_text ([(p, vel)], d) = (pitch_text p ++ duration_suffix d)%string.
Proof. reflexivity. Qed.

Lemma group_text_chord (m1 m2 : Z * Q) (members : list (Z * Q)) (d : Q) :
  group_text (m1 :: m2 :: members, d) =
  (String "[" (chord_body (m1 :: m2 :: members) ++ "]") ++ chord_suffix d)%string.
Proof. destruct m1. reflexivity. Qed.

(** The text of a writable group is a token the tokenizer recognises, made
    of clean characters. *)
Lemma group_text_written (g : Group) :
  writable_group g = true -> written_token (group_text g) /\ clean (group_text g).
Proof.
  destruct g as [members d]. unfold writable_group. cbn [fst snd].
  destruct members as [|[p vel] [|m2 members]]; [discriminate | |]; intros H;
    apply andb_prop in H as [Hp Hd].
  - rewrite group_text_single.
    destruct (pitch_text_parts p Hp) as (acc & delta & l & base & ups & downs
                                        & Et & Ha & Hb & _ & Hacc).
    destruct (duration_suffix_writes d Hd) as (Hc & _).
    pose proof (pitch_text_chars p Hp) as Hchars.
    split.
    + left. rewrite Et, note_token_suffix.
      now apply (note_token_form acc delta l base).
    + split.
      * rewrite Et. unfold note_token. destruct acc; reflexivity.
      * rewrite all_app.
        rewrite (all_impl _ clean_char _
                   (fun c Hc' => proj1 (pitch_text_char_facts c Hc')) Hchars).
        rewrite (all_impl _ clean_char _
                   (fun c Hc' => proj1 (duration_char_facts c Hc')) Hc).
        reflexivity.
  - rewrite group_text_chord.
    destruct (chord_suffix_writes d Hd) as (Hc & _).
    pose proof (chord_body_chars _ Hp) as Hchars.
    split.
    + right. exists (chord_body ((p, vel) :: m2 :: members)), (chord_suffix d).
      split; [reflexivity|]. split; [|assumption].
      apply mem_all_false. revert Hchars. apply all_impl.
      intros c Hc'. destruct (pitch_text_char_facts c Hc') as (_ & _ & _ & E & _).
      now rewrite E.
    + split; [reflexivity|].
      cbn [String.append Py.all]. rewrite !all_app.
      rewrite (all_impl _ clean_char _
                 (fun c Hc' => proj1 (pitch_text_char_facts c Hc')) Hchars).
      rewrite (all_impl _ clean_char _
                 (fun c Hc' => proj1 (duration_char_facts c Hc')) Hc).
      reflexivity.
Qed.

Lemma startswith_other (c : ascii) (s : string) :
  c <> "["%char -> Py.startswith (String c s) "[" = false.
Proof.
  intros H. unfold Py.startswith. cbn [String.prefix].
  destruct (ascii_dec "[" c); congruence.
Qed.

Lemma suffix_after_octaves_duration (downs : nat) (sfx : string) :
  Py.all is_duration_char sfx = true -> suffix_after_octaves downs sfx = true.
Proof.
  destruct sfx as [|c sfx]; [reflexivity|]. cbn [Py.all]. intros H.
  apply andb_prop in H as [Hc _].
  destruct (duration_char_facts c Hc) as (_ & _ & _ & _ & E1 & E2 & _).
  unfold suffix_after_octaves. now rewrite E1, E2.
Qed.

Lemma duration_chars_no_space (sfx : string) :
  Py.all is_duration_char sfx = true ->
  Py.all (fun c => negb (Py.isspace c)) sfx = true.
Proof.
  apply all_impl. intros c Hc.
  destruct (duration_char_facts c Hc) as (_ & _ & E & _). now rewrite E.
Qed.

(** A written note reads back as its pitch and its duration. *)
Lemma read_note_back (p : Z) (sfx : string) (q : Q) :
  pitch_in_range p = true ->
  Py.all is_duration_char sfx = true -> suffix_value sfx = Ok q ->
  parse_abc_note (pitch_text p ++ sfx) = Ok (p, q) /\
  Py.startswith (pitch_text p ++ sfx) "[" = false.
Proof.
  intros Hp Hc Hv.
  destruct (pitch_text_parts p Hp) as (acc & delta & l & base & ups & downs
                                      & Et & Ha & Hb & Hsum & Hacc).
  rewrite Et, note_token_suffix. split.
  - rewrite (parse_abc_note_grammatical _ _ _ _ ups downs _ Ha Hb
               (suffix_after_octaves_duration downs _ Hc)
               (duration_chars_no_space _ Hc)).
    rewrite Hsum.
    unfold pitch_in_range in Hp. apply andb_prop in Hp as [H0 H1].
    apply Z.leb_le in H0, H1.
    assert (R : (p <? 0)%Z || (p >? 127)%Z = false).
    { apply orb_false_iff. split; [apply Z.ltb_ge | rewrite Z.gtb_ltb; apply Z.ltb_ge]; lia. }
    rewrite R. unfold suffix_value, float_or_raise in Hv.
    destruct (Py.is_empty sfx); [now rewrite Hv|].
    destruct (Py.mem "/" sfx); [now rewrite Hv|].
    destruct (Py.float sfx); [now rewrite Hv | discriminate].
  - unfold note_token.
    apply base_letter_is_pitch_letter in Hb.
    destruct Hacc as [->| ->]; cbn [String.append]; apply startswith_other;
      [|discriminate].
    intros ->. discriminate.
Qed.

(* ================================================================= *)
(** ** Round trip: reading a written chord back *)

Lemma rstrip_by_all (p : ascii -> bool) (b : string) :
  Py.all p b = true -> Py.rstrip_by p b = ""%string.
Proof.
  induction b as [|c b IH]; cbn; [reflexivity|].
  intros H. apply andb_prop in H as [Hc Hb]. now rewrite (IH Hb), Hc.
Qed.

Lemma rstrip_by_run (p : ascii -> bool) (a b : string) :
  Py.all p b = true -> Py.rstrip_by p (a ++ b) = Py.rstrip_by p a.
Proof.
  intros H. induction a as [|c a IH]; cbn; [now apply rstrip_by_all|].
  now rewrite IH.
Qed.

Lemma rstrip_chord (p : ascii -> bool) (body sfx : string) :
  p "]"%char = true ->
  Py.is_empty body = false ->
  Py.all (fun c => negb (p c)) body = true ->
  Py.all (fun c => negb (p c)) sfx = true ->
  Py.rstrip_by p (String "[" (body ++ "]") ++ sfx) =
  String "[" (body ++ after_body sfx).
Proof.
  intros Hp Hne Hb Hs. unfold after_body.
  assert (Hbody : Py.rstrip_by p (String "[" body) = String "[" body).
  { cbn [Py.rstrip_by]. rewrite (rstrip_by_none _ _ Hb).
    destruct body; [discriminate | reflexivity]. }
  destruct sfx as [|c sfx]; cbn [Py.is_empty].
  - rewrite !app_empty_r.
    change (String "[" (body ++ "]")) with (String "[" body ++ "]")%string.
    rewrite rstrip_by_run; [exact Hbody | cbn; now rewrite Hp].
  - change (String "[" (body ++ "]") ++ String c sfx)%string
      with ((String "[" body ++ "]") ++ String c sfx)%string.
    rewrite rstrip_by_app; rewrite (rstrip_by_none _ _ Hs); [|reflexivity].
    cbn [String.append]. now rewrite app_assoc_str.
Qed.

Lemma not_bracket (q : ascii -> bool) (s : string) :
  (forall c, q c = true -> Py.mem c "[]" = false) ->
  Py.all q s = true -> Py.all (fun c => negb (Py.mem c "[]")) s = true.
Proof. intros Hq. apply all_impl. intros c Hc. now rewrite (Hq c Hc). Qed.

Lemma not_close (q : ascii -> bool) (s : string) :
  (forall c, q c = true -> Ascii.eqb c "]" = false) ->
  Py.all q s = true -> Py.all (fun c => negb (Py.mem c "]")) s = true.
Proof.
  intros Hq. apply all_impl. intros c Hc. cbn. now rewrite (Hq c Hc).
Qed.

Section WrittenChord.

Variables (body sfx : string).
Hypothesis body_nonempty : Py.is_empty body = false.
Hypothesis body_chars : Py.all is_pitch_text_char body = true.
Hypothesis sfx_chars : Py.all is_duration_char sfx = true.

Let token : string := (String "[" (body ++ "]") ++ sfx)%string.

Lemma strip_chord_brackets : Py.strip_chars "[]" token = (body ++ after_body sfx)%string.
Proof.
  unfold Py.strip_chars, token.
  rewrite rstrip_chord; try reflexivity; try assumption.
  - cbn [Py.lstrip_by]. change (Py.mem "[" "[]") with true. cbv iota.
    destruct body as [|c b]; [discriminate|].
    cbn [String.append]. apply lstrip_by_head.
    cbn in body_chars. apply andb_prop in body_chars as [Hc _].
    now destruct (pitch_text_char_facts c Hc) as (_ & _ & E & _).
  - apply (not_bracket is_pitch_text_char); [|assumption].
    intros c Hc. now destruct (pitch_text_char_facts c Hc) as (_ & _ & E & _).
  - apply (not_bracket is_duration_char); [|assumption].
    intros c Hc. now destruct (duration_char_facts c Hc) as (_ & E & _).
Qed.

Lemma rstrip_chord_close :
  Py.rstrip_chars "]" token = String "[" (body ++ after_body sfx).
Proof.
  unfold Py.rstrip_chars, token.
  apply rstrip_chord; try reflexivity; try assumption.
  - apply (not_close is_pitch_text_char); [|assumption].
    intros c Hc. now destruct (pitch_text_char_facts c Hc) as (_ & _ & _ & _ & E).
  - apply (not_close is_duration_char); [|assumption].
    intros c Hc. now destruct (duration_char_facts c Hc) as (_ & _ & _ & _ & _ & _ & E).
Qed.

End WrittenChord.

(** The pattern of a duration only matches where a duration character
    stands. *)
Lemma duration_at_end_head (s d : string) :
  duration_at_end s = Some d ->
  exists c r, s = String c r /\ is_duration_char c = true.
Proof.
  assert (Htext : forall t, is_duration_text t = true ->
                            exists c r, t = String c r /\ is_duration_char c = true).
  { intros t Ht. pose proof (is_duration_text_chars _ Ht) as Hc.
    destruct t as [|c r]; [discriminate|].
    cbn in Hc. apply andb_prop in Hc as [Hc _]. eauto. }
  unfold duration_at_end.
  destruct (is_duration_text s) eqn:E; [intros _; now apply Htext|].
  set (b := Py.rstrip_by (Ascii.eqb (Py.chr 10)) s).
  destruct (String.eqb_spec s (b ++ String (Py.chr 10) "")) as [Hs|]; [|discriminate].
  cbn [andb]. destruct (is_duration_text b) eqn:Eb; [|discriminate].
  intros _. destruct (Htext b Eb) as (c & r & Hb & Hc).
  rewrite Hs, Hb. cbn [String.append]. eauto.
Qed.

Lemma search_duration_skip (pre s : string) :
  Py.all (fun c => negb (is_duration_char c)) pre = true ->
  search_duration (pre ++ s) = search_duration s.
Proof.
  induction pre as [|c pre IH]; [reflexivity|].
  cbn [Py.all String.append]. intros H. apply andb_prop in H as [Hc Hpre].
  apply negb_true_iff in Hc. cbn [search_duration].
  destruct (duration_at_end (String c (pre ++ s))) as [d|] eqn:E.
  - apply duration_at_end_head in E as (c' & r & [= <- _] & Hc'). congruence.
  - now apply IH.
Qed.

Lemma search_duration_here (s : string) :
  is_duration_text s = true -> search_duration s = Some s.
Proof.
  intros H. destruct s as [|c s]; cbn [search_duration]; unfold duration_at_end;
    now rewrite H.
Qed.

Lemma search_duration_empty : search_duration "" = None.
Proof. reflexivity. Qed.

Lemma not_duration_chars (s : string) :
  Py.all is_pitch_text_char s = true ->
  Py.all (fun c => negb (is_duration_char c)) s = true.
Proof.
  apply all_impl. intros c Hc.
  destruct (pitch_text_char_facts c Hc) as (_ & E & _). now rewrite E.
Qed.

(** The builder reads the written duration of a chord. *)
Lemma chord_token_duration_written (body sfx : string) (d : Q) :
  Py.is_empty body = false ->
  Py.all is_pitch_text_char body = true ->
  writes_duration sfx d ->
  exists q, chord_token_duration (String "[" (body ++ "]") ++ sfx) = Ok q /\ q == d.
Proof.
  intros Hne Hb (Hc & Ht & q & Hv & Hq). exists q. split; [|assumption].
  unfold chord_token_duration.
  rewrite (rstrip_chord_close body sfx Hne Hb Hc).
  assert (Hpre : Py.all (fun c => negb (is_duration_char c)) (String "[" body) = true).
  { cbn [Py.all]. now rewrite (not_duration_chars _ Hb). }
  unfold after_body. destruct sfx as [|c sfx]; cbn [Py.is_empty].
  - rewrite app_empty_r.
    rewrite <- (app_empty_r (String "[" body)), (search_duration_skip _ _ Hpre).
    rewrite search_duration_empty. exact Hv.
  - destruct Ht as [Ht|Ht]; [discriminate|].
    replace (String "[" (body ++ String "]" (String c sfx)))
      with ((String "[" body ++ "]") ++ String c sfx)%string
      by (cbn [String.append]; now rewrite app_assoc_str).
    rewrite search_duration_skip, (search_duration_here _ Ht).
    + unfold suffix_value in Hv. cbn [Py.is_empty] in Hv. exact Hv.
    + rewrite all_app, Hpre. reflexivity.
Qed.

Lemma pitch_letter_cases (l : ascii) :
  is_pitch_letter l = true ->
  In l ["A"; "B"; "C"; "D"; "E"; "F"; "G"; "a"; "b"; "c"; "d"; "e"; "f"; "g"]%char.
Proof. bits l; vm_compute; intros H; try discriminate; tauto. Qed.

(** The pattern of a chord member matches a written pitch and stops after
    its quotes and commas. *)
Lemma note_pattern_at_token (acc : string) (letter : ascii) (octs rest : string) :
  (acc = ""%string \/ acc = "^"%string) ->
  is_pitch_letter letter = true ->
  Py.all is_octave_char octs = true ->
  match rest with
  | String c _ => is_octave_char c = false
  | EmptyString => True
  end ->
  note_pattern_at (acc ++ String letter (octs ++ rest)) = Some (acc, letter, octs, rest).
Proof.
  intros Hacc Hl Ho Hr.
  pose proof (span_app_stop is_octave_char octs rest Ho Hr) as Hspan.
  unfold is_octave_char in Hspan. cbn -[Py.span Py.squote] in Hspan.
  apply pitch_letter_cases in Hl. cbn [In] in Hl.
  destruct Hacc as [->| ->];
    repeat (destruct Hl as [<-|Hl]); try contradiction;
    unfold note_pattern_at; cbn -[Py.span Py.squote]; rewrite Hspan; reflexivity.
Qed.

Lemma note_pattern_at_inert (c : ascii) (r : string) :
  Py.mem c "^_=ABCDEFGabcdefg" = false -> note_pattern_at (String c r) = None.
Proof.
  intros H. unfold note_pattern_at.
  bits c; try discriminate H; clear H; cbn -[Py.span Py.squote]; reflexivity.
Qed.

(** No chord member is found where no accidental and no letter stands. *)
Lemma finditer_inert (fuel : nat) (tail : string) :
  Py.all (fun c => negb (Py.mem c "^_=ABCDEFGabcdefg")) tail = true ->
  note_pattern_finditer fuel tail = [].
Proof.
  revert tail. induction fuel as [|fuel IH]; intros tail H; [reflexivity|].
  destruct tail as [|c r]; [reflexivity|].
  cbn [Py.all] in H. apply andb_prop in H as [Hc Hr].
  apply negb_true_iff in Hc.
  cbn [note_pattern_finditer]. rewrite (note_pattern_at_inert _ _ Hc).
  now apply IH.
Qed.

Lemma after_body_inert (sfx : string) :
  Py.all is_duration_char sfx = true ->
  Py.all (fun c => negb (Py.mem c "^_=ABCDEFGabcdefg")) (after_body sfx) = true.
Proof.
  intros H. unfold after_body. destruct (Py.is_empty sfx); [reflexivity|].
  cbn [Py.all]. change (negb (Py.mem "]" "^_=ABCDEFGabcdefg")) with true.
  cbn [andb]. revert H. apply all_impl. intros c Hc.
  destruct (duration_char_facts c Hc) as (_ & _ & _ & E & _). now rewrite E.
Qed.

Lemma after_body_head (sfx : string) :
  match after_body sfx with
  | String c _ => is_octave_char c = false
  | EmptyString => True
  end.
Proof. unfold after_body. destruct (Py.is_empty sfx); [exact I | reflexivity]. Qed.

(** The text of a pitch read alone. *)
Lemma parse_pitch_text (p : Z) :
  pitch_in_range p = true -> parse_abc_note (pitch_text p) = Ok (p, 1).
Proof.
  intros Hp.
  destruct (read_note_back p "" 1 Hp eq_refl eq_refl) as [Hparse _].
  now rewrite app_empty_r in Hparse.
Qed.

Lemma pitch_text_head (p : Z) (rest : string) :
  pitch_in_range p = true ->
  match (pitch_text p ++ rest)%string with
  | String c _ => is_octave_char c = false
  | EmptyString => True
  end.
Proof.
  intros Hp.
  destruct (pitch_text_parts p Hp) as (acc & delta & l & base & ups & downs
                                      & Et & Ha & Hb & Hsum & Hacc).
  rewrite Et. unfold note_token. apply base_letter_is_pitch_letter in Hb.
  destruct Hacc as [->| ->]; cbn [String.append]; [|reflexivity].
  revert Hb. clear. bits l; vm_compute; congruence.
Qed.

Lemma chord_body_cons (m : Z * Q) (members : list (Z * Q)) :
  chord_body (m :: members) = (pitch_text (fst m) ++ chord_body members)%string.
Proof. reflexivity. Qed.

Lemma chord_body_head (members : list (Z * Q)) (tail : string) :
  List.forallb (fun m => pitch_in_range (fst m)) members = true ->
  match tail with
  | String c _ => is_octave_char c = false
  | EmptyString => True
  end ->
  match (chord_body members ++ tail)%string with
  | String c _ => is_octave_char c = false
  | EmptyString => True
  end.
Proof.
  destruct members as [|m members]; [intros _ H; exact H|].
  cbn [forallb]. intros H _. apply andb_prop in H as [Hp _].
  rewrite chord_body_cons, app_assoc_str. now apply pitch_text_head.
Qed.

Lemma finditer_match (fuel : nat) (s acc octs after : string) (l : ascii) :
  note_pattern_at s = Some (acc, l, octs, after) ->
  note_pattern_finditer (S fuel) s = (acc, l, octs) :: note_pattern_finditer fuel after.
Proof.
  intros H. destruct s as [|c s]; [discriminate H|].
  cbn [note_pattern_finditer]. now rewrite H.
Qed.

(** The members the chord parser finds in a written chord, read back. *)
Lemma chord_members_written (members : list (Z * Q)) (tail : string) :
  List.forallb (fun m => pitch_in_range (fst m)) members = true ->
  Py.all (fun c => negb (Py.mem c "^_=ABCDEFGabcdefg")) tail = true ->
  match tail with
  | String c _ => is_octave_char c = false
  | EmptyString => True
  end ->
  forall fuel,
    (String.length (chord_body members ++ tail) <= fuel)%nat ->
    chord_members 1 (note_pattern_finditer fuel (chord_body members ++ tail)) =
    Ok (List.map (fun m => (fst m, 1)) members).
Proof.
  intros Hps Htail Hhead.
  induction members as [|m members IH]; intros fuel Hfuel.
  - cbn [chord_body List.map flat fold_right String.append].
    now rewrite (finditer_inert _ _ Htail).
  - cbn [forallb] in Hps. apply andb_prop in Hps as [Hp Hms].
    destruct (pitch_text_parts _ Hp) as (acc & delta & l & base & ups & downs
                                        & Et & Ha & Hb & Hsum & Hacc).
    pose proof (parse_pitch_text _ Hp) as Hparse.
    pose proof (octaves_all ups downs) as Hocts.
    rewrite chord_body_cons, app_assoc_str in *.
    rewrite Et in Hfuel, Hparse |- *. unfold note_token in *.
    set (octs := (quotes ups ++ commas downs ++ "")%string) in *.
    set (rest := (chord_body members ++ tail)%string) in *.
    assert (Hs : ((acc ++ String l octs) ++ rest)%string
                 = (acc ++ String l (octs ++ rest))%string).
    { now rewrite app_assoc_str. }
    rewrite Hs in *.
    pose proof (note_pattern_at_token acc l octs rest Hacc
                  (base_letter_is_pitch_letter _ _ Hb) Hocts
                  (chord_body_head _ _ Hms Hhead)) as Hat.
    rewrite length_app_str in Hfuel. cbn [String.length] in Hfuel.
    rewrite length_app_str in Hfuel.
    destruct fuel as [|fuel]; [lia|].
    rewrite (finditer_match _ _ _ _ _ _ Hat).
    cbn [chord_members]. rewrite Hparse. cbn [List.map fst].
    rewrite IH by (assumption || lia). reflexivity.
Qed.

(** A written chord reads back as its pitches. *)
Lemma parse_abc_chord_written (members : list (Z * Q)) (sfx : string) :
  members <> [] ->
  List.forallb (fun m => pitch_in_range (fst m)) members = true ->
  Py.all is_duration_char sfx = true ->
  parse_abc_chord (String "[" (chord_body members ++ "]") ++ sfx) =
  Ok (List.map (fun m => (fst m, 1)) members).
Proof.
  intros Hne Hps Hs.
  assert (Hbody : Py.is_empty (chord_body members) = false).
  { destruct members as [|m members]; [congruence|].
    cbn [forallb] in Hps. apply andb_prop in Hps as [Hp _].
    rewrite chord_body_cons.
    destruct (pitch_text_parts _ Hp) as (acc & delta & l & base & ups & downs
                                        & Et & _).
    rewrite Et. unfold note_token. destruct acc; reflexivity. }
  unfold parse_abc_chord.
  rewrite (strip_chord_brackets _ _ Hbody (chord_body_chars _ Hps) Hs).
  assert (Hinner : Py.is_empty (chord_body members ++ after_body sfx) = false).
  { destruct (chord_body members); [discriminate | reflexivity]. }
  rewrite Hinner.
  apply chord_members_written;
    [assumption | now apply after_body_inert | apply after_body_head | lia].
Qed.

(* ================================================================= *)
(** ** Round trip: the builder on a written program *)

Lemma startswith_bracket (s : string) : Py.startswith (String "[" s) "[" = true.
Proof. unfold Py.startswith. cbn. apply prefix_empty. Qed.

(** The builder reads the text of a writable group as the pitches of the
    group, with a duration equal to the one of the group. *)
Lemma build_group (g : Group) (v : Q) (st : Builder) :
  writable_group g = true ->
  exists q,
    q == snd g /\
    build_token v st (group_text g) =
    Ok {| parse_errors := parse_errors st;
          built_notes :=
            built_notes st ++
            List.map (fun m => note_event (fst m) (current_beat st) q v) (fst g);
          current_beat := current_beat st + q |}.
Proof.
  destruct g as [members d]. unfold writable_group. cbn [fst snd].
  destruct members as [|[p vel] [|m2 members]]; [discriminate | |]; intros H;
    apply andb_prop in H as [Hp Hd].
  - rewrite group_text_single.
    destruct (duration_suffix_writes d Hd) as (Hc & _ & q & Hv & Hq).
    destruct (read_note_back p _ q Hp Hc Hv) as [Hparse Hstart].
    exists q. split; [assumption|].
    unfold build_token. rewrite Hstart, Hparse. cbn [bind].
    unfold pitch_in_range in Hp. apply andb_prop in Hp as [H0 _].
    apply Z.leb_le in H0.
    assert (G : (p >=? 0)%Z = true) by (apply Z.geb_le; lia).
    rewrite G. reflexivity.
  - rewrite group_text_chord.
    pose proof (chord_suffix_writes d Hd) as Hw.
    assert (Hbody : Py.is_empty (chord_body ((p, vel) :: m2 :: members)) = false).
    { cbn [forallb] in Hp. apply andb_prop in Hp as [Hp1 _].
      rewrite chord_body_cons.
      destruct (pitch_text_parts _ Hp1) as (acc & delta & l & base & ups & downs
                                           & Et & _).
      rewrite Et. unfold note_token. destruct acc; reflexivity. }
    destruct (chord_token_duration_written _ _ d Hbody (chord_body_chars _ Hp) Hw)
      as (q & Hdur & Hq).
    exists q. split; [assumption|].
    unfold build_token. cbn [String.append]. rewrite startswith_bracket.
    change (String "[" ((chord_body ((p, vel) :: m2 :: members) ++ "]")
                        ++ chord_suffix d))
      with (String "[" (chord_body ((p, vel) :: m2 :: members) ++ "]")
            ++ chord_suffix d)%string.
    rewrite parse_abc_chord_written;
      [|discriminate | assumption | exact (proj1 Hw)].
    cbn [bind]. rewrite Hdur. cbn [bind]. now rewrite map_map.
Qed.

Lemma same_triples_of_group (c cur d q v : Q) (members : list (Z * Q)) :
  cur == c -> q == d ->
  Forall2 same_triple (group_notes c (members, d))
          (List.map (fun m => note_event (fst m) cur q v) members).
Proof.
  intros Hc Hq. unfold group_notes. cbn [fst snd].
  induction members as [|[p vel] members IH]; cbn [List.map]; constructor;
    [|assumption].
  repeat split; cbn; [now symmetry | now symmetry].
Qed.

Lemma builder_loop_written (v : Q) (groups : list Group) :
  Forall (fun g => writable_group g = true) groups ->
  forall (c : Q) (st : Builder),
    current_beat st == c ->
    exists st' new,
      builder_loop v st (List.map group_text groups) = Ok st' /\
      parse_errors st' = parse_errors st /\
      built_notes st' = (built_notes st ++ new)%list /\
      Forall2 same_triple (lay_out c groups) new.
Proof.
  induction 1 as [|g groups Hg _ IH]; intros c st Hc.
  - exists st, []. cbn. rewrite app_nil_r. repeat split. constructor.
  - destruct (build_group g v st Hg) as (q & Hq & Hbuild).
    cbn [List.map builder_loop]. unfold builder_step. rewrite Hbuild. cbn [bind].
    match goal with
    | |- context [builder_loop v ?st1 _] =>
        destruct (IH (c + snd g) st1) as (st' & new & Hloop & Herr & Hnotes & Hsame)
    end.
    { cbn [current_beat]. now rewrite Hc, Hq. }
    exists st', (List.map (fun m => note_event (fst m) (current_beat st) q v) (fst g)
                 ++ new)%list.
    split; [exact Hloop|]. split; [exact Herr|]. split.
    + rewrite Hnotes. cbn [built_notes]. now rewrite app_assoc.
    + cbn [lay_out]. apply Forall2_app; [|assumption].
      destruct g as [members d]. now apply same_triples_of_group.
Qed.

Lemma map_snd_combine {A B : Type} (l : list A) (l' : list B) :
  List.length l = List.length l' -> List.map snd (List.combine l l') = l'.
Proof.
  revert l'. induction l as [|a l IH]; intros [|b l'] H; try discriminate;
    [reflexivity|].
  cbn. f_equal. apply IH. now injection H.
Qed.

Lemma combine_clean (flags : list bool) (texts : list string) :
  Forall clean texts -> Forall (fun i => clean (snd i)) (List.combine flags texts).
Proof.
  intros H. revert flags. induction H as [|t texts Ht _ IH]; intros [|f flags];
    cbn; constructor; auto.
Qed.

Lemma group_texts_written (groups : list Group) :
  Forall (fun g => writable_group g = true) groups ->
  Forall written_token (List.map group_text groups) /\
  Forall clean (List.map group_text groups).
Proof.
  induction 1 as [|g groups Hg _ [IH1 IH2]]; [split; constructor|].
  destruct (group_text_written g Hg). split; constructor; assumption.
Qed.

(** The tokens of a written program are the texts of its groups. *)
Lemma tokenize_written_program (beats_per_bar : Z) (lb : option Q)
  (groups : list Group) :
  beats_per_bar <> 0%Z -> groups <> [] ->
  Forall (fun g => writable_group g = true) groups ->
  exists text,
    program_to_abc {| lengthBars := lb; notes := lay_out 0 groups |} beats_per_bar
    = Ok text /\
    tokenize_abc text = List.map group_text groups.
Proof.
  intros Hb Hne Hw. destruct groups as [|g groups]; [congruence|].
  destruct (program_to_abc_lay_out beats_per_bar lb g groups Hb Hw)
    as (flags & Hlen & Htext).
  eexists. split; [exact Htext|].
  destruct (group_texts_written _ Hw) as [Hwritten Hclean].
  inversion Hclean as [|? ? Hcg Hcgs]; subst.
  unfold tokenize_abc. rewrite note_content_written.
  - rewrite map_snd_combine by (now rewrite length_map).
    now apply (tokenize_written (List.map group_text (g :: groups))).
  - constructor; [assumption | now apply combine_clean].
Qed.




(* ================================================================= *)
(** ** The notes of a scale *)

Lemma SCALES_intervals (name : string) (intervals : list Z) :
  SCALES name = Some intervals -> Forall (fun i => (0 <= i < 12)%Z) intervals.
Proof.
  unfold SCALES.
  repeat match goal with
         | |- (if ?b then _ else _) = _ -> _ => destruct b
         end;
    intros H; try discriminate; injection H as <-;
    repeat constructor; lia.
Qed.

Lemma get_scale_notes_in (root : Z) (name : string)
  (intervals : list Z) (n : Z) :
  SCALES name = Some intervals ->
  In n (get_scale_notes root name) <->
  (root mod 12 <= n <= 127)%Z /\ In ((n - root) mod 12)%Z intervals.
Proof.
  intros Hs. unfold get_scale_notes. rewrite Hs.
  pose proof (SCALES_intervals _ _ Hs) as Hi. rewrite Forall_forall in Hi.
  assert (Hr : (0 <= root mod 12 < 12)%Z) by (apply Z.mod_pos_bound; lia).
  rewrite in_flat_map. split.
  - intros (octave & Ho & Hn). apply filter_In in Hn as [Hn Hrange].
    apply in_map_iff in Hn as (i & <- & Hin). specialize (Hi i Hin).
    assert (0 <= octave <= 10)%Z by (cbn in Ho; lia).
    apply andb_true_iff in Hrange as [H0%Z.leb_le H127%Z.leb_le].
    split; [lia|].
    replace ((octave * 12 + root mod 12 + i - root) mod 12)%Z with i; [assumption|].
    apply (Z.mod_unique_pos _ _ (octave - root / 12)); [lia|].
    pose proof (Z.div_mod root 12). lia.
  - intros [Hn Hin]. specialize (Hi _ Hin).
    set (i := ((n - root) mod 12)%Z) in *.
    assert (Hq : exists q, (n = q * 12 + root mod 12 + i)%Z).
    { exists ((n - root) / 12 + root / 12)%Z. subst i.
      pose proof (Z.div_mod (n - root) 12). pose proof (Z.div_mod root 12). lia. }
    destruct Hq as [q Hq]. exists q. split.
    + assert (0 <= q <= 10)%Z by lia. cbn. lia.
    + apply filter_In. split.
      * apply in_map_iff. exists i. split; [lia | assumption].
      * apply andb_true_iff. split; apply Z.leb_le; lia.
Qed.

(** X1: for a scale of the table, a pitch is in the set of [get_scale_notes]
    exactly when it lies between the pitch class of the root and 127 and its
    distance from the root, modulo 12, is an interval of the scale.  The
    pitches below the pitch class of the root are never in the set. *)
Theorem get_scale_notes_membership (root : Z) (name : string)
  (intervals : list Z) (n : Z) :
  SCALES name = Some intervals ->
  In n (get_scale_notes root name) <->
  (root mod 12 <= n <= 127)%Z /\ In ((n - root) mod 12)%Z intervals.
Proof.
  exact (get_scale_notes_in root name intervals n).
Qed.

Lemma get_scale_notes_membership_witness :
  SCALES "major" = Some [0; 2; 4; 5; 7; 9; 11]%Z /\
  (In 13%Z (get_scale_notes 11 "major") /\ ~ In 1%Z (get_scale_notes 11 "major")).
Proof.
  split; [reflexivity|]. split.
  - apply (get_scale_notes_membership 11 "major" [0; 2; 4; 5; 7; 9; 11]%Z 13 eq_refl).
    split; [vm_compute; split; discriminate | vm_compute; tauto].
  - intros H.
    apply (get_scale_notes_membership 11 "major" [0; 2; 4; 5; 7; 9; 11]%Z 1 eq_refl) in H.
    destruct H as [[H _] _]. vm_compute in H. apply H. reflexivity.
Defined.

(* ================================================================= *)
(** ** What the validator accepts *)

Lemma Qle_bool_false (a b : Q) : Qle_bool a b = false <-> b < a.
Proof.
  split.
  - intros H. apply Qnot_le_lt. intros Hle. apply Qle_bool_iff in Hle. congruence.
  - intros H. destruct (Qle_bool a b) eqn:E; [|reflexivity].
    apply Qle_bool_iff in E. exfalso. exact (Qlt_not_le _ _ H E).
Qed.

Lemma Qlt_bool_false (a b : Q) : Py.Qlt_bool a b = false <-> b <= a.
Proof.
  unfold Py.Qlt_bool. rewrite negb_false_iff. apply Qle_bool_iff.
Qed.

Lemma pitch_check_false (p : Z) :
  (p <? 0)%Z || (p >? 127)%Z = false <-> (0 <= p <= 127)%Z.
Proof.
  rewrite orb_false_iff, Z.ltb_ge, Z.gtb_ltb, Z.ltb_ge. lia.
Qed.

Lemma end_check_false (total s : Q) :
  Py.Qlt_bool 0 total && Qle_bool total s = false <-> (0 < total -> s < total).
Proof.
  rewrite andb_false_iff, Qlt_bool_false, Qle_bool_false. split.
  - intros [H|H] Hpos; [exfalso; exact (Qlt_not_le _ _ Hpos H) | assumption].
  - intros H. destruct (Qlt_le_dec 0 total) as [Hpos|Hle]; [right; auto | now left].
Qed.

Lemma velocity_check_false (v : Q) :
  Py.Qlt_bool v 0 || Py.Qlt_bool 1 v = false <-> 0 <= v <= 1.
Proof.
  rewrite orb_false_iff, !Qlt_bool_false. tauto.
Qed.

Lemma validate_note_accepts (key : option Z) (scale : option string)
  (scale_notes : option (list Z)) (total_beats : Q) (i : nat) (n : NoteEvent) :
  fst (validate_note key scale scale_notes total_beats i n) = [] <->
  well_formed_note total_beats n.
Proof.
  unfold validate_note, well_formed_note.
  destruct n as [[p|] [s|] [l|] [v|]]; cbn [pitch startBeat lengthBeats velocity].
  all: try (split;
            [ repeat match goal with
                     | |- context [if ?b then _ else _] => destruct b
                     | |- context [match ?x with Some _ => _ | None => _ end] => destruct x
                     | |- context [match ?x with [] => _ | _ :: _ => _ end] => destruct x
                     end; cbn; discriminate
            | intros (? & ? & ? & ? & [=] & _) ]).
  assert (W : (exists p0 s0 l0 v0,
                 mkNote (Some p) (Some s) (Some l) (Some v)
                 = mkNote (Some p0) (Some s0) (Some l0) (Some v0) /\
                 (0 <= p0 <= 127)%Z /\ 0 <= s0 /\
                 (0 < total_beats -> s0 < total_beats) /\ 0 < l0 /\ 0 <= v0 <= 1)
              <-> ((0 <= p <= 127)%Z /\ 0 <= s /\
                   (0 < total_beats -> s < total_beats) /\ 0 < l /\ 0 <= v <= 1)).
  { split.
    - intros (? & ? & ? & ? & [= <- <- <- <-] & H). exact H.
    - intros H. exists p, s, l, v. split; [reflexivity | exact H]. }
  rewrite W. clear W.
  rewrite <- (pitch_check_false p), <- (Qlt_bool_false s 0),
    <- (end_check_false total_beats s), <- (Qle_bool_false l 0),
    <- (velocity_check_false v).
  destruct ((p <? 0)%Z || (p >? 127)%Z);
    destruct (Py.Qlt_bool s 0);
    destruct (Py.Qlt_bool 0 total_beats && Qle_bool total_beats s);
    destruct (Qle_bool l 0);
    destruct (Py.Qlt_bool v 0 || Py.Qlt_bool 1 v);
    destruct scale_notes as [[|m ms]|]; cbv beta iota;
    try destruct (negb (existsb (Z.eqb p) (m :: ms)));
    cbn [fst app];
    (split;
     [ try discriminate; intros _; repeat split; reflexivity
     | intros (? & ? & ? & ? & ?); try reflexivity; discriminate ]).
Qed.

Lemma validate_notes_accepts (key : option Z) (scale : option string)
  (scale_notes : option (list Z)) (total_beats : Q) (ns : list NoteEvent) :
  forall i,
    fst (validate_notes key scale scale_notes total_beats i ns) = [] <->
    Forall (well_formed_note total_beats) ns.
Proof.
  induction ns as [|n ns IH]; intros i; cbn [validate_notes].
  - split; [constructor | reflexivity].
  - pose proof (validate_note_accepts key scale scale_notes total_beats i n) as Hn.
    specialize (IH (S i)).
    destruct (validate_note key scale scale_notes total_beats i n) as [e w].
    destruct (validate_notes key scale scale_notes total_beats (S i) ns) as [es ws].
    cbn [fst] in *. split.
    + intros H. apply app_eq_nil in H as [He Hes].
      constructor; [now apply Hn | now apply IH].
    + intros H. inversion H as [|? ? H1 H2]; subst.
      apply Hn in H1. apply IH in H2. now subst.
Qed.

Lemma legal_bar_length_test (lb : Q) :
  existsb (fun v => Py.Qlt_bool (Qabs (lb - v)) 0.001) VALID_BAR_LENGTHS = true <->
  legal_bar_length lb.
Proof.
  unfold legal_bar_length. rewrite existsb_exists.
  split; intros (v & Hin & H); exists v; (split; [assumption|]);
    now apply Qlt_bool_true.
Qed.

Lemma validate_program_no_error (prog : Program) (key : option Z)
  (scale : option string) (beats_per_bar : Z) :
  fst (validate_program prog key scale beats_per_bar) = [] <->
  exists lb,
    lengthBars prog = Some lb /\ legal_bar_length lb /\
    Forall (well_formed_note (lb * inject_Z beats_per_bar)) (notes prog).
Proof.
  unfold validate_program.
  destruct (lengthBars prog) as [lb|].
  - pose proof (legal_bar_length_test lb) as Hlb.
    destruct (existsb (fun v => Py.Qlt_bool (Qabs (lb - v)) 0.001) VALID_BAR_LENGTHS).
    + cbn [negb].
      destruct (notes prog) as [|n ns] eqn:En.
      * cbn [fst]. split; [|reflexivity].
        intros _. exists lb. split; [reflexivity|]. split; [now apply Hlb | constructor].
      * pose proof (validate_notes_accepts key scale
                      (match key, scale with
                       | Some k, Some (String _ _ as name) => Some (get_scale_notes k name)
                       | _, _ => None
                       end) (lb * inject_Z beats_per_bar) (n :: ns) O) as Hns.
        destruct (validate_notes key scale _ (lb * inject_Z beats_per_bar) O (n :: ns))
          as [es ws].
        cbn [fst app] in *. split.
        -- intros H. exists lb. split; [reflexivity|]. split; [now apply Hlb | now apply Hns].
        -- intros (lb' & [= <-] & _ & H). now apply Hns.
    + cbn [negb]. split.
      * destruct (notes prog); [cbn; discriminate|].
        destruct (validate_notes _ _ _ _ _ _). cbn. discriminate.
      * intros (lb' & [= <-] & H & _). apply Hlb in H. discriminate.
  - split.
    + destruct (notes prog); [cbn; discriminate|].
      destruct (validate_notes _ _ _ _ _ _). cbn. discriminate.
    + intros (lb & [=] & _).
Qed.

(** X2: the validator reports no error exactly for the programs that have a
    bar length within 0.001 of a legal one and whose notes all carry a pitch
    in 0..127, a start beat that is not negative and lies before the end of
    the program (when the program has a positive length), a positive length
    and a velocity between 0 and 1. *)
Theorem validate_program_accepts (prog : Program) (key : option Z)
  (scale : option string) (beats_per_bar : Z) :
  fst (validate_program prog key scale beats_per_bar) = [] <->
  exists lb,
    lengthBars prog = Some lb /\ legal_bar_length lb /\
    Forall (well_formed_note (lb * inject_Z beats_per_bar)) (notes prog).
Proof.
  exact (validate_program_no_error prog key scale beats_per_bar).
Qed.

(* ================================================================= *)
(** ** The scale check of the validator *)

Lemma validate_note_errors_ignore_scale (key : option Z) (scale : option string)
  (scale_notes : option (list Z)) (total_beats : Q) (i : nat) (n : NoteEvent) :
  fst (validate_note key scale scale_notes total_beats i n)
  = fst (validate_note None None None total_beats i n).
Proof.
  unfold validate_note. destruct (pitch n) as [p|]; [|reflexivity].
  destruct ((p <? 0)%Z || (p >? 127)%Z); [reflexivity|].
  destruct scale_notes as [[|m ms]|]; cbv beta iota; try reflexivity.
  destruct (negb (existsb (Z.eqb p) (m :: ms))); reflexivity.
Qed.

Lemma validate_notes_errors_ignore_scale (key : option Z) (scale : option string)
  (scale_notes : option (list Z)) (total_beats : Q) (ns : list NoteEvent) :
  forall i,
    fst (validate_notes key scale scale_notes total_beats i ns)
    = fst (validate_notes None None None total_beats i ns).
Proof.
  induction ns as [|n ns IH]; intros i; cbn [validate_notes]; [reflexivity|].
  pose proof (validate_note_errors_ignore_scale key scale scale_notes total_beats i n)
    as Hn.
  specialize (IH (S i)).
  destruct (validate_note key scale scale_notes total_beats i n).
  destruct (validate_note None None None total_beats i n).
  destruct (validate_notes key scale scale_notes total_beats (S i) ns).
  destruct (validate_notes None None None total_beats (S i) ns).
  cbn [fst] in *. now subst.
Qed.

(** X3: the key and the scale never change the errors of the validator:
    whatever they are, the errors are those reported without a key and a
    scale. *)
Theorem validate_program_errors_ignore_scale (prog : Program) (key : option Z)
  (scale : option string) (beats_per_bar : Z) :
  fst (validate_program prog key scale beats_per_bar)
  = fst (validate_program prog None None beats_per_bar).
Proof.
  unfold validate_program.
  destruct (notes prog) as [|n ns]; [reflexivity|].
  match goal with
  | |- fst (let '(_, _) := validate_notes _ _ ?sn ?tb _ _ in _) = _ =>
      pose proof (validate_notes_errors_ignore_scale key scale sn tb (n :: ns) O) as H;
      destruct (validate_notes key scale sn tb O (n :: ns));
      destruct (validate_notes None None None tb O (n :: ns))
  end.
  cbn [fst] in *. now subst.
Qed.

(** The warning of a note, given the members of the scale. *)
Lemma validate_note_warnings (key : option Z) (scale : option string)
  (scale_notes : option (list Z)) (total_beats : Q) (i : nat) (n : NoteEvent) :
  snd (validate_note key scale scale_notes total_beats i n) = [] <->
  (forall p m ms, pitch n = Some p -> (0 <= p <= 127)%Z ->
                  scale_notes = Some (m :: ms) -> In p (m :: ms)).
Proof.
  unfold validate_note. destruct (pitch n) as [p|].
  - destruct ((p <? 0)%Z || (p >? 127)%Z) eqn:Ep.
    + cbn [snd]. split; [|reflexivity]. intros _ p' m ms [= <-] Hr.
      apply pitch_check_false in Hr. congruence.
    + apply pitch_check_false in Ep.
      destruct scale_notes as [[|m ms]|]; cbv beta iota.
      * cbn [snd]. split; [|reflexivity]. intros _ ? ? ? _ _ [=].
      * destruct (existsb (Z.eqb p) (m :: ms)) eqn:Em; cbn [negb snd].
        -- split; [|reflexivity]. intros _ p' m' ms' [= <-] _ [= <- <-].
           apply existsb_exists in Em as (x & Hin & Hx%Z.eqb_eq). now subst.
        -- split; [discriminate|]. intros H. exfalso.
           specialize (H p m ms eq_refl Ep eq_refl).
           assert (existsb (Z.eqb p) (m :: ms) = true); [|congruence].
           apply existsb_exists. exists p. split; [assumption | apply Z.eqb_refl].
      * cbn [snd]. split; [|reflexivity]. intros _ ? ? ? _ _ [=].
  - cbn [snd]. split; [|reflexivity]. intros _ ? ? ? [=].
Qed.

Lemma validate_notes_warnings (key : option Z) (scale : option string)
  (scale_notes : option (list Z)) (total_beats : Q) (ns : list NoteEvent) :
  forall i,
    snd (validate_notes key scale scale_notes total_beats i ns) = [] <->
    Forall (fun n => forall p m ms, pitch n = Some p -> (0 <= p <= 127)%Z ->
                                    scale_notes = Some (m :: ms) -> In p (m :: ms)) ns.
Proof.
  induction ns as [|n ns IH]; intros i; cbn [validate_notes].
  - split; [constructor | reflexivity].
  - pose proof (validate_note_warnings key scale scale_notes total_beats i n) as Hn.
    specialize (IH (S i)).
    destruct (validate_note key scale scale_notes total_beats i n) as [e w].
    destruct (validate_notes key scale scale_notes total_beats (S i) ns) as [es ws].
    cbn [snd] in *. split.
    + intros H. apply app_eq_nil in H as [Hw Hws].
      constructor; [now apply Hn | now apply IH].
    + intros H. inversion H as [|? ? H1 H2]; subst.
      apply Hn in H1. apply IH in H2. now subst.
Qed.

Lemma validate_program_warnings (prog : Program) (key : option Z)
  (scale : option string) (beats_per_bar : Z) :
  snd (validate_program prog key scale beats_per_bar) = [] <->
  notes prog <> [] /\
  Forall (fun n => forall p m ms, pitch n = Some p -> (0 <= p <= 127)%Z ->
                     match key, scale with
                     | Some k, Some (String _ _ as name) => Some (get_scale_notes k name)
                     | _, _ => None
                     end = Some (m :: ms) -> In p (m :: ms)) (notes prog).
Proof.
  unfold validate_program.
  destruct (notes prog) as [|n ns].
  - cbn [snd]. split; [discriminate | intros [H _]; congruence].
  - match goal with
    | |- snd (let '(_, _) := validate_notes _ _ ?sn ?tb _ _ in _) = _ <-> _ =>
        pose proof (validate_notes_warnings key scale sn tb (n :: ns) O) as H;
        destruct (validate_notes key scale sn tb O (n :: ns))
    end.
    cbn [snd] in *. rewrite H. split; [intros G; split; [discriminate | exact G] | tauto].
Qed.

(** X4: without a key, without a scale, or with a scale name that is not in
    the table, a program with notes gets no warning: the scale check is
    left out silently. *)
Theorem no_scale_check_without_a_known_scale (prog : Program) (key : option Z)
  (scale : option string) (beats_per_bar : Z) :
  notes prog <> [] ->
  key = None \/ scale = None \/ (exists name, scale = Some name /\ SCALES name = None) ->
  snd (validate_program prog key scale beats_per_bar) = [].
Proof.
  intros Hne Hcase. apply validate_program_warnings. split; [assumption|].
  apply Forall_forall. intros n _ p m ms _ _ Hs.
  destruct Hcase as [-> | [-> | (name & -> & Hn)]].
  - discriminate.
  - destruct key; discriminate.
  - destruct key; [|discriminate]. destruct name; [discriminate|].
    unfold get_scale_notes in Hs. rewrite Hn in Hs. discriminate.
Qed.

Lemma no_scale_check_without_a_known_scale_witness :
  snd (validate_program {| lengthBars := Some 1; notes := [note_event 61 0 1 0.8] |}
         (Some 0%Z) (Some "lydian") 4) = [].
Proof.
  apply (no_scale_check_without_a_known_scale
           {| lengthBars := Some 1; notes := [note_event 61 0 1 0.8] |}
           (Some 0%Z) (Some "lydian") 4).
  - discriminate.
  - right. right. exists "lydian". split; reflexivity.
Defined.

Lemma get_scale_notes_root (k : Z) (name : string) (intervals : list Z) :
  SCALES name = Some intervals -> In (k mod 12)%Z (get_scale_notes k name).
Proof.
  intros Hs. apply (get_scale_notes_in k name intervals _ Hs).
  assert (Hr : (0 <= k mod 12 < 12)%Z) by (apply Z.mod_pos_bound; lia).
  split; [lia|].
  replace ((k mod 12 - k) mod 12)%Z with 0%Z.
  - revert Hs. unfold SCALES.
    repeat match goal with
           | |- (if ?b then _ else _) = _ -> _ => destruct b
           end;
      intros H; try discriminate; injection H as <-; now left.
  - apply (Z.mod_unique_pos _ _ (- (k / 12))); [lia|].
    pose proof (Z.div_mod k 12). lia.
Qed.

(** X5: with a key and a scale of the table, the validator gives no warning
    exactly when the program has notes and every pitch in 0..127 lies at or
    above the pitch class of the key and at an interval of the scale from
    the key, modulo 12. *)
Theorem scale_check_passes (prog : Program) (k : Z) (name : string)
  (intervals : list Z) (beats_per_bar : Z) :
  SCALES name = Some intervals ->
  snd (validate_program prog (Some k) (Some name) beats_per_bar) = [] <->
  notes prog <> [] /\
  Forall (fun n => forall p, pitch n = Some p -> (0 <= p <= 127)%Z ->
                   (k mod 12 <= p)%Z /\ In ((p - k) mod 12)%Z intervals) (notes prog).
Proof.
  intros Hs. rewrite validate_program_warnings.
  destruct name as [|c name']; [discriminate|].
  pose proof (get_scale_notes_root k _ _ Hs) as Hroot.
  destruct (get_scale_notes k (String c name')) as [|m ms] eqn:Eg; [contradiction|].
  rewrite <- Eg in *. clear Hroot.
  split; intros [Hne H]; (split; [assumption|]);
    rewrite Forall_forall in *; intros n Hin.
  - intros p Hp Hr.
    rewrite Eg in H. specialize (H n Hin p m ms Hp Hr eq_refl). rewrite <- Eg in H.
    apply (get_scale_notes_in k _ _ p Hs) in H. split; [lia | tauto].
  - intros p m' ms' Hp Hr Hm. injection Hm as Hm. rewrite <- Hm.
    apply (get_scale_notes_in k _ _ p Hs).
    destruct (H n Hin p Hp Hr). split; [lia | assumption].
Qed.

Lemma scale_check_passes_witness :
  SCALES "chromatic" = Some [0; 1; 2; 3; 4; 5; 6; 7; 8; 9; 10; 11]%Z /\
  snd (validate_program {| lengthBars := Some 1; notes := [note_event 5 0 1 0.8] |}
         (Some 11%Z) (Some "chromatic") 4) <> [].
Proof.
  split; [reflexivity|]. intros H.
  apply (scale_check_passes
           {| lengthBars := Some 1; notes := [note_event 5 0 1 0.8] |}
           11 "chromatic" [0; 1; 2; 3; 4; 5; 6; 7; 8; 9; 10; 11]%Z 4 eq_refl) in H.
  destruct H as [_ H]. inversion H as [|? ? H1 _]; subst.
  destruct (H1 5%Z eq_refl ltac:(lia)) as [Hle _]. vm_compute in Hle. now apply Hle.
Defined.

(* ================================================================= *)
(** ** A validated program can be written *)

Lemma abc_parts_loop_returns (table : list (Q * list NoteEvent)) (beats_per_bar : Z)
  (times : list Q) :
  beats_per_bar <> 0%Z ->
  sound_table table -> (forall k, In k times -> In k (List.map fst table)) ->
  forall notes_in_bar,
    exists parts, abc_parts_loop table beats_per_bar times notes_in_bar = Ok parts.
Proof.
  intros Hb Ht Hk nib.
  destruct (abc_parts_loop_sound table beats_per_bar times Ht Hk nib) as [H|H];
    [assumption|].
  exfalso. clear Hk Ht. revert nib H.
  induction times as [|k times IH]; intros nib; cbn [abc_parts_loop]; [discriminate|].
  unfold floordiv, float_mod.
  apply Z.eqb_neq in Hb. rewrite Hb. cbn [bind].
  match goal with
  | |- context [if ?b then ?x else Ok false] =>
      assert (E : exists new_bar, (if b then x else Ok false) = Ok new_bar)
  end.
  { match goal with |- context [if ?b then _ else _] => destruct b end;
      eexists; cbn [bind]; reflexivity. }
  destruct E as [new_bar ->]. cbn [bind].
  destruct (group_to_abc (by_time_get k table)) as [text|e] eqn:Eg; cbn [bind].
  - destruct (abc_parts_loop table beats_per_bar times
                ((if new_bar then 0 else nib) + 1)%Z) eqn:El; cbn [bind];
      [discriminate|].
    intros [= ->]. exact (IH _ El).
  - intros [= ->]. revert Eg. unfold group_to_abc.
    destruct (by_time_get k table) as [|n [|n' ns]]; [discriminate | |].
    + unfold pitch_or_raise. destruct (pitch n) as [p|]; cbn [bind]; [|discriminate].
      destruct (midi_to_abc_returns p (length_or_one n)) as [t ->]. discriminate.
    + match goal with
      | |- context [map_result ?f ?l] =>
          assert (M : forall l', map_result f l' <> Raise ZeroDivisionError)
      end.
      { induction l' as [|a l' IHl]; cbn [map_result]; [discriminate|].
        unfold pitch_or_raise at 1. destruct (pitch a) as [p|]; cbn [bind];
          [|discriminate].
        destruct (midi_to_abc_returns p 1) as [t ->]. cbn [bind].
        destruct (map_result _ l'); cbn [bind]; [discriminate | congruence]. }
      match goal with
      | |- context [map_result ?f ?l] =>
          specialize (M l); destruct (map_result f l); cbn [bind];
            [discriminate | congruence]
      end.
Qed.

Lemma well_formed_notes_pitched (total : Q) (ns : list NoteEvent) :
  Forall (well_formed_note total) ns -> pitched ns.
Proof.
  apply Forall_impl. intros n (p & s & l & v & -> & _). now exists p.
Qed.

Lemma validated_program_serializes (prog : Program) (key : option Z)
  (scale : option string) (beats_per_bar : Z) :
  fst (validate_program prog key scale beats_per_bar) = [] ->
  beats_per_bar <> 0%Z ->
  exists text, program_to_abc prog beats_per_bar = Ok text.
Proof.
  intros Hv Hb. apply validate_program_no_error in Hv as (lb & _ & _ & Hns).
  apply well_formed_notes_pitched in Hns.
  unfold program_to_abc.
  destruct (notes prog) as [|n ns] eqn:En; [eexists; reflexivity|].
  rewrite <- En in *.
  destruct (abc_parts_loop_returns (group_by_time (notes prog)) beats_per_bar
              (sorted (List.map fst (group_by_time (notes prog)))) Hb
              (group_by_time_sound _ Hns) (fun k H => sorted_in _ _ H) 0%Z)
    as [parts ->].
  cbn [bind]. eexists. reflexivity.
Qed.



(* ================================================================= *)
(** ** What [midi_to_abc] writes *)

Lemma str_int_chars (n : Z) : Py.all is_note_text_char (Py.str_int n) = true.
Proof.
  assert (D : forall s, Py.all Py.isdigit s = true ->
                        Py.all is_note_text_char s = true).
  { intros s. apply all_impl. intros c. bits c; vm_compute; congruence. }
  destruct n as [|p|p].
  - now vm_compute.
  - apply D. now apply (str_int_digits (Z.pos p)).
  - unfold Py.str_int. cbn [Z.to_int NilZero.string_of_int].
    pose proof (DecimalPos.Unsigned.to_uint_nonnil p) as Hnil.
    assert (E : NilZero.string_of_uint (Pos.to_uint p) =
                NilEmpty.string_of_uint (Pos.to_uint p)).
    { unfold NilZero.string_of_uint. destruct (Pos.to_uint p); congruence. }
    rewrite E. cbn [Py.all]. rewrite (D _ (string_of_uint_digits _)).
    reflexivity.
Qed.

Lemma duration_suffix_chars (d : Q) :
  Py.all is_note_text_char (duration_suffix d) = true.
Proof.
  unfold duration_suffix.
  repeat match goal with
         | |- context [if ?b then _ else _] => destruct b
         end;
    try reflexivity; try apply str_int_chars.
  rewrite all_app, str_int_chars. reflexivity.
Qed.

Lemma midi_to_abc_chars (p : Z) (d : Q) (text : string) :
  midi_to_abc p d = Ok text -> Py.all is_note_text_char text = true.
Proof.
  unfold midi_to_abc. cbv zeta.
  destruct (index_of _ natural_notes) as [i|]; [|discriminate].
  intros [= <-]. rewrite all_app, duration_suffix_chars, andb_true_r.
  unfold single_quote.
  do 7 (destruct i as [|i];
        [ repeat match goal with
                 | |- context [if ?b then _ else _] => destruct b
                 end;
          rewrite all_app; apply andb_true_iff;
          (split; [reflexivity | try reflexivity; apply all_repeat_str; reflexivity])
        | ]).
  repeat match goal with
         | |- context [if ?b then _ else _] => destruct b
         end;
    rewrite all_app; apply andb_true_iff;
    (split; [reflexivity | try reflexivity; apply all_repeat_str; reflexivity]).
Qed.


(* ================================================================= *)
(** ** A written note read back *)

Lemma quarter_multiple_of (k : Z) :
  (0 < k)%Z -> is_quarter_multiple (inject_Z k / 4) = true.
Proof.
  intros Hk. unfold is_quarter_multiple.
  assert (E : inject_Z k / 4 * 4 == inject_Z k) by field.
  apply andb_true_iff. split.
  - apply Qlt_bool_true. rewrite Zlt_Qlt in Hk. change (inject_Z 0) with 0 in Hk. lra.
  - apply Qeq_bool_iff. rewrite (Qfloor_comp _ _ E), Qfloor_Z. exact E.
Qed.

(** X8: a pitch in 0..127 with a length of [k] quarter beats, [k] positive,
    is written by [midi_to_abc] as a token that [parse_abc_note] reads back
    as the same pitch and the same length. *)
Theorem note_round_trip (p k : Z) :
  (0 <= p <= 127)%Z -> (0 < k)%Z ->
  exists text q,
    midi_to_abc p (inject_Z k / 4) = Ok text /\
    parse_abc_note text = Ok (p, q) /\ q == inject_Z k / 4.
Proof.
  intros Hp Hk.
  assert (Hr : pitch_in_range p = true).
  { unfold pitch_in_range. apply andb_true_iff. split; apply Z.leb_le; lia. }
  destruct (duration_suffix_writes _ (quarter_multiple_of k Hk))
    as (Hc & _ & q & Hv & Hq).
  exists (pitch_text p ++ duration_suffix (inject_Z k / 4))%string, q.
  split; [|split; [|assumption]].
  - rewrite midi_to_abc_split, (midi_to_abc_one p Hr). reflexivity.
  - exact (proj1 (read_note_back p _ q Hr Hc Hv)).
Qed.

Lemma note_round_trip_witness :
  midi_to_abc 61 (inject_Z 6 / 4) = Ok "^c6/4" /\
  exists q, parse_abc_note "^c6/4" = Ok (61%Z, q) /\ q == inject_Z 6 / 4.
Proof.
  destruct (note_round_trip 61 6 ltac:(lia) ltac:(lia)) as (text & q & Ht & Hq).
  vm_compute in Ht. injection Ht as <-.
  split; [reflexivity | exists q; exact Hq].
Defined.

Lemma Qfloor_below_one (d : Q) : 0 <= d -> d < 1 -> Qfloor d = 0%Z.
Proof.
  intros H0 H1. pose proof (Qfloor_le d) as Hle. pose proof (Qlt_floor d) as Hlt.
  assert (A : (Qfloor d < 1)%Z).
  { rewrite Zlt_Qlt. change (inject_Z 1) with 1. lra. }
  assert (B : (0 < Qfloor d + 1)%Z).
  { rewrite Zlt_Qlt. change (inject_Z 0) with 0. lra. }
  lia.
Qed.

(** X9: a note shorter than 0.24 beats is written without a duration, so it
    reads back one beat long. *)
Theorem short_note_reads_back_as_one_beat (p : Z) (d : Q) :
  (0 <= p <= 127)%Z -> 0 < d -> d < 0.24 ->
  exists text,
    midi_to_abc p d = Ok text /\ parse_abc_note text = Ok (p, 1).
Proof.
  intros Hp H0 H1.
  assert (Hr : pitch_in_range p = true).
  { unfold pitch_in_range. apply andb_true_iff. split; apply Z.leb_le; lia. }
  assert (Hs : duration_suffix d = ""%string).
  { unfold duration_suffix.
    assert (Hfar : forall x, 0.25 <= x -> Py.Qlt_bool (Qabs (d - x)) 0.01 = false).
    { intros x Hx. apply Qlt_bool_false.
      rewrite Qabs_neg by lra. lra. }
    rewrite !Hfar by lra.
    assert (Hi : Py.int_of_float d = 0%Z).
    { rewrite int_of_float_nonneg by lra. apply Qfloor_below_one; lra. }
    rewrite Hi.
    assert (Hne : Qeq_bool d (inject_Z 0) = false).
    { destruct (Qeq_bool d (inject_Z 0)) eqn:E; [|reflexivity].
      apply Qeq_bool_eq in E. change (inject_Z 0) with 0 in E. lra. }
    rewrite Hne.
    assert (Hn : Py.int_of_float (d * 4) = 0%Z).
    { rewrite int_of_float_nonneg by lra. apply Qfloor_below_one; lra. }
    rewrite Hn. reflexivity. }
  exists (pitch_text p).
  rewrite midi_to_abc_split, (midi_to_abc_one p Hr), Hs. cbn [bind].
  rewrite app_empty_r. split; [reflexivity|].
  rewrite <- (app_empty_r (pitch_text p)) at 1.
  exact (proj1 (read_note_back p "" 1 Hr eq_refl eq_refl)).
Qed.

Lemma short_note_reads_back_as_one_beat_witness :
  midi_to_abc 60 0.125 = Ok "c" /\ parse_abc_note "c" = Ok (60%Z, 1).
Proof.
  destruct (short_note_reads_back_as_one_beat 60 0.125) as (text & Ht & Hp);
    [lia | reflexivity | reflexivity |].
  vm_compute in Ht. injection Ht as <-. split; [reflexivity | exact Hp].
Defined.

(* ================================================================= *)
(** ** Note names *)

Lemma str_int_injective (a b : Z) : Py.str_int a = Py.str_int b -> a = b.
Proof.
  unfold Py.str_int. intros H.
  assert (N : forall z, NilZero.int_of_string (NilZero.string_of_int (Z.to_int z))
                        = Some (Z.to_int z)).
  { intros z. apply NilZero.isi; destruct z as [|p|p]; cbn; try discriminate;
      intros [= E]; exact (DecimalPos.Unsigned.to_uint_nonnil p E). }
  apply (f_equal NilZero.int_of_string) in H. rewrite !N in H.
  injection H as H. apply (f_equal Z.of_int) in H.
  now rewrite !DecimalZ.of_to in H.
Qed.

Lemma str_int_head (n : Z) :
  exists c rest, Py.str_int n = String c rest /\ c <> "#"%char.
Proof.
  pose proof (str_int_chars n) as Hc.
  assert (Hne : Py.str_int n <> ""%string).
  { destruct n as [|p|p].
    - now vm_compute.
    - destruct (str_int_digits (Z.pos p) ltac:(lia)) as [He _].
      intros E. rewrite E in He. discriminate.
    - unfold Py.str_int. cbn [Z.to_int NilZero.string_of_int]. discriminate. }
  destruct (Py.str_int n) as [|c rest]; [congruence|].
  exists c, rest. split; [reflexivity|].
  cbn [Py.all] in Hc. apply andb_prop in Hc as [Hc _].
  intros ->. discriminate.
Qed.

(** X10: two different pitches never get the same name. *)
Theorem midi_to_note_name_injective (a b : Z) :
  midi_to_note_name a = midi_to_note_name b -> a = b.
Proof.
  unfold midi_to_note_name. cbv zeta. intros H.
  assert (Ha : (0 <= a mod 12 < 12)%Z) by (apply Z.mod_pos_bound; lia).
  assert (Hb : (0 <= b mod 12 < 12)%Z) by (apply Z.mod_pos_bound; lia).
  assert (G : (a mod 12 = b mod 12 /\ a / 12 - 1 = b / 12 - 1)%Z).
  { destruct (str_int_head (a / 12 - 1)) as (ca & ra & Ea & Hca).
    destruct (str_int_head (b / 12 - 1)) as (cb & rb & Eb & Hcb).
    assert (S : Py.str_int (a / 12 - 1) = Py.str_int (b / 12 - 1) ->
                (a / 12 - 1 = b / 12 - 1)%Z) by apply str_int_injective.
    rewrite Ea, Eb in H, S. clear Ea Eb.
    set (ia := (a mod 12)%Z) in *. set (ib := (b mod 12)%Z) in *.
    assert (Ca : In ia [0; 1; 2; 3; 4; 5; 6; 7; 8; 9; 10; 11]%Z) by (cbn; lia).
    assert (Cb : In ib [0; 1; 2; 3; 4; 5; 6; 7; 8; 9; 10; 11]%Z) by (cbn; lia).
    clearbody ia ib. clear Ha Hb. cbn [In] in Ca, Cb.
    repeat (destruct Ca as [<-|Ca]; [|]); try contradiction;
      repeat (destruct Cb as [<-|Cb]; [|]); try contradiction;
      vm_compute in H;
      (split; [|apply S]); congruence. }
  destruct G as [G1 G2].
  rewrite (Z.div_mod a 12), (Z.div_mod b 12) by lia. lia.
Qed.

Lemma midi_to_note_name_injective_witness :
  midi_to_note_name 60 = "C4" /\ midi_to_note_name 61 = "C#4" /\
  midi_to_note_name 60 <> midi_to_note_name 61.
Proof.
  split; [reflexivity|]. split; [reflexivity|].
  intros H. apply (midi_to_note_name_injective 60 61) in H. discriminate.
Defined.

(* ================================================================= *)
(** ** The characters of the tokens *)

Section Characters.

Variable q : ascii -> bool.

Lemma all_lstrip_by (p : ascii -> bool) (s : string) :
  Py.all q s = true -> Py.all q (Py.lstrip_by p s) = true.
Proof.
  induction s as [|d s IH]; cbn; [easy|].
  intros H. destruct (p d); [|exact H].
  apply andb_prop in H as [_ H]. now apply IH.
Qed.

Lemma all_rstrip_by (p : ascii -> bool) (s : string) :
  Py.all q s = true -> Py.all q (Py.rstrip_by p s) = true.
Proof.
  induction s as [|d s IH]; cbn; [easy|].
  intros H. apply andb_prop in H as [Hd Hs].
  destruct (Py.is_empty (Py.rstrip_by p s) && p d); cbn; [reflexivity|].
  now rewrite Hd, IH.
Qed.

Lemma all_strip (s : string) : Py.all q s = true -> Py.all q (Py.strip s) = true.
Proof. intros H. unfold Py.strip. now apply all_lstrip_by, all_rstrip_by. Qed.

Lemma all_split (sep : ascii) (s : string) :
  Py.all q s = true -> Forall (fun l => Py.all q l = true) (Py.split sep s).
Proof.
  induction s as [|d s IH]; cbn.
  - intros _. repeat constructor.
  - intros H. apply andb_prop in H as [Hd Hs]. specialize (IH Hs).
    destruct (Ascii.eqb d sep).
    + constructor; [reflexivity | assumption].
    + destruct (Py.split sep s) as [|part parts].
      * constructor; [|constructor]. cbn. now rewrite Hd.
      * inversion IH as [|? ? Hp Hps]; subst.
        constructor; [|assumption]. cbn. now rewrite Hd, Hp.
Qed.

Lemma all_join (sep : string) (parts : list string) :
  Py.all q sep = true -> Forall (fun l => Py.all q l = true) parts ->
  Py.all q (Py.join sep parts) = true.
Proof.
  intros Hsep. unfold Py.join.
  induction 1 as [|part parts Hp Hps IH]; [reflexivity|].
  cbn [String.concat]. destruct parts as [|part' parts]; [assumption|].
  now rewrite !all_app, Hp, Hsep, IH.
Qed.

Lemma all_sub_runs_from (p : ascii -> bool) (s : string) :
  q " "%char = true -> Py.all q s = true ->
  forall in_run, Py.all q (sub_runs_from p in_run s) = true.
Proof.
  intros Hsp. induction s as [|d s IH]; cbn; [reflexivity|].
  intros H in_run. apply andb_prop in H as [Hd Hs].
  destruct (p d).
  - destruct in_run; cbn; [|rewrite Hsp]; now apply IH.
  - cbn. rewrite Hd. now apply IH.
Qed.

(** The text the tokenizer scans holds characters of the input and spaces. *)
Lemma all_note_content (abc_str : string) :
  q " "%char = true -> Py.all q abc_str = true ->
  Py.all q (note_content abc_str) = true.
Proof.
  intros Hsp H. unfold note_content, sub_runs.
  apply all_strip, all_sub_runs_from; [assumption|].
  apply all_sub_runs_from; [assumption|].
  apply all_join; [cbn; now rewrite Hsp|].
  apply Forall_forall. intros l Hl. apply filter_In in Hl as [Hl _].
  pose proof (all_split (Py.chr 10) _ (all_strip _ H)) as Hall.
  rewrite Forall_forall in Hall. now apply Hall.
Qed.

End Characters.

(** ** Text without notes *)

Lemma tokenize_loop_nothing (fuel : nat) (content : string) :
  Py.all opens_no_token content = true -> tokenize_loop fuel content = [].
Proof.
  revert content. induction fuel as [|fuel IH]; intros content H;
    cbn [tokenize_loop]; [reflexivity|].
  destruct content as [|c rest]; [reflexivity|].
  cbn [Py.all] in H. apply andb_prop in H as [Hc Hrest].
  destruct (Py.isspace c); [now apply IH|].
  assert (E : Ascii.eqb c "[" = false /\ Py.mem c "ABCDEFGabcdefgzZ^_=" = false).
  { revert Hc. clear. unfold opens_no_token. bits c; vm_compute; intros H;
      first [discriminate | split; reflexivity]. }
  destruct E as [-> ->]. now apply IH.
Qed.



(* ================================================================= *)
(** ** A chord token never adds a parse error *)

Lemma digits_value_some (s : string) :
  Py.is_empty s = false -> Py.all Py.isdigit s = true ->
  exists z, Py.digits_value s = Some z.
Proof.
  intros He Hd.
  assert (U : exists u, NilEmpty.uint_of_string s = Some u).
  { clear He. induction s as [|c s IH]; [eexists; reflexivity|].
    cbn [Py.all] in Hd. apply andb_prop in Hd as [Hc Hs].
    destruct (IH Hs) as [u Hu]. cbn [NilEmpty.uint_of_string]. rewrite Hu.
    revert Hc. clear. bits c; vm_compute; intros Hc; try discriminate; eauto. }
  destruct U as [u Hu]. unfold Py.digits_value.
  destruct s; [discriminate|]. rewrite Hu. eexists. reflexivity.
Qed.

Lemma float_or_raise_digits (s : string) :
  Py.is_empty s = false -> Py.all Py.isdigit s = true ->
  exists q, float_or_raise s = Ok q.
Proof.
  intros He Hd. destruct (digits_value_some _ He Hd) as [z Hz].
  unfold float_or_raise. rewrite (float_of_digits _ _ Hd Hz). eauto.
Qed.

Lemma truediv_returns_or_divides_by_zero (a b : Q) :
  (exists q, Py.truediv a b = Ok q) \/ Py.truediv a b = Raise ZeroDivisionError.
Proof. unfold Py.truediv. destruct (Qeq_bool b 0); eauto. Qed.

(** A text of the duration pattern reads as a number unless its
    denominator is zero. *)
Lemma duration_text_value (d : string) :
  is_duration_text d = true ->
  (exists q, (if Py.mem "/" d then slash_duration d else float_or_raise d) = Ok q)
  \/ (if Py.mem "/" d then slash_duration d else float_or_raise d)
     = Raise ZeroDivisionError.
Proof.
  unfold is_duration_text.
  destruct (Py.span Py.isdigit d) as [a r] eqn:E.
  destruct (span_spec _ _ _ _ E) as (-> & Ha & _).
  destruct r as [|c b].
  - intros He. apply negb_true_iff in He. rewrite app_empty_r.
    rewrite (digits_no_slash _ Ha). left. now apply float_or_raise_digits.
  - destruct (Ascii.eqb_spec c "/"%char) as [->|Hc].
    + intros H. apply andb_prop in H as [He Hb]. apply negb_true_iff in He.
      assert (M : Py.mem "/" (a ++ String "/" b) = true).
      { rewrite mem_app. cbn. apply orb_true_r. }
      rewrite M. unfold slash_duration.
      rewrite (split_at_first _ _ _ (digits_no_slash _ Ha)).
      rewrite (split_no_separator _ _ (digits_no_slash _ Hb)).
      destruct (float_or_raise_digits _ He Hb) as [qb Eb].
      destruct (Py.is_empty a) eqn:Ea.
      * rewrite Eb. cbn [bind]. apply truediv_returns_or_divides_by_zero.
      * destruct (float_or_raise_digits _ Ea Ha) as [qa Eqa].
        rewrite Eqa, Eb. cbn [bind]. apply truediv_returns_or_divides_by_zero.
    + revert Hc. clear. bits c; intros Hc H; try discriminate. congruence.
Qed.

Lemma chord_token_duration_value (token : string) :
  (exists q, chord_token_duration token = Ok q)
  \/ chord_token_duration token = Raise ZeroDivisionError.
Proof.
  unfold chord_token_duration.
  destruct (search_duration _) as [d|] eqn:E; [|left; eauto].
  exact (duration_text_value d (search_duration_text _ _ E)).
Qed.

Lemma parse_abc_chord_value (token : string) :
  (exists members, parse_abc_chord token = Ok members)
  \/ parse_abc_chord token = Raise ZeroDivisionError.
Proof.
  unfold parse_abc_chord. destruct (Py.is_empty _); [left; eauto|].
  destruct (chord_members _ _) as [members|e] eqn:E; [left; eauto|].
  right. now rewrite (chord_members_raises _ _ _ E).
Qed.

(** X12: a token that opens with a bracket never adds a parse error: the turn
    of the loop leaves the list of errors as it was, whatever the chord
    holds, unless a division by zero stops the builder. *)
Theorem chord_token_adds_no_error (v : Q) (st : Builder) (token : string) :
  Py.startswith token "[" = true ->
  (exists st', builder_step v st token = Ok st' /\
               parse_errors st' = parse_errors st)
  \/ builder_step v st token = Raise ZeroDivisionError.
Proof.
  intros Hb. unfold builder_step, build_token. rewrite Hb.
  destruct (parse_abc_chord_value token) as [[members ->]| ->]; cbn [bind];
    [|now right].
  destruct (chord_token_duration_value token) as [[q ->]| ->]; cbn [bind];
    [|now right].
  left. eexists. split; reflexivity.
Qed.

Lemma chord_token_adds_no_error_witness :
  builder_step 0.8 initial_builder "[xyz,]3" =
    Ok {| parse_errors := []; built_notes := []; current_beat := 3 |}.
Proof.
  destruct (chord_token_adds_no_error 0.8 initial_builder "[xyz,]3" eq_refl)
    as [(st' & H & _)|H]; [|discriminate H].
  vm_compute in H. vm_compute. exact eq_refl.
Defined.

(* ================================================================= *)
(** ** The pitches of the tokens *)

Lemma prefix_drop (a s : string) :
  String.prefix a s = true -> s = (a ++ Py.drop (String.length a) s)%string.
Proof.
  revert s. induction a as [|c a IH]; intros s; [reflexivity|].
  destruct s as [|d s]; cbn; [discriminate|].
  destruct (ascii_dec c d) as [->|]; [|discriminate].
  intros H. now rewrite <- (IH _ H).
Qed.

Lemma note_pattern_at_spec (s acc oct after : string) (l : ascii) :
  note_pattern_at s = Some (acc, l, oct, after) ->
  s = (acc ++ String l (oct ++ after))%string /\ member_match (acc, l, oct).
Proof.
  assert (W : forall a m,
             (if Py.startswith s a then
                match Py.drop (String.length a) s with
                | String l r =>
                    if is_pitch_letter l then
                      let '(oct, after) :=
                        Py.span (fun c => Py.mem c (String Py.squote ",")) r in
                      Some (a, l, oct, after)
                    else None
                | EmptyString => None
                end
              else None) = Some m ->
             let '(acc', l', oct', after') := m in
             acc' = a /\ s = (a ++ String l' (oct' ++ after'))%string /\
             is_pitch_letter l' = true /\ Py.all is_octave_char oct' = true).
  { intros a m. destruct (Py.startswith s a) eqn:Ep; [|discriminate].
    apply prefix_drop in Ep.
    destruct (Py.drop (String.length a) s) as [|l' r]; [discriminate|].
    destruct (is_pitch_letter l') eqn:El; [|discriminate].
    destruct (Py.span _ r) as [oct' after'] eqn:Es. intros [= <-].
    destruct (span_spec _ _ _ _ Es) as (-> & Ho & _).
    repeat split; assumption. }
  unfold note_pattern_at. cbv zeta. cbn [fold_right]. unfold member_match.
  repeat match goal with
         | |- match ?x with Some _ => _ | None => _ end = Some _ -> _ =>
             let E := fresh "E" in
             destruct x as [[[[? ?] ?] ?]|] eqn:E;
               [ intros [= -> -> -> ->]; apply W in E;
                 destruct E as (-> & E & ? & ?); split; [exact E|];
                 split; [cbn; tauto | split; assumption]
               | ]
         end.
  discriminate.
Qed.

Lemma finditer_members (fuel : nat) (s : string) :
  Forall member_match (note_pattern_finditer fuel s).
Proof.
  revert s. induction fuel as [|fuel IH]; intros s; cbn [note_pattern_finditer];
    [constructor|].
  destruct s as [|c s]; [constructor|].
  destruct (note_pattern_at (String c s)) as [[[[acc l] oct] after]|] eqn:E;
    [|apply IH].
  constructor; [|apply IH]. exact (proj2 (note_pattern_at_spec _ _ _ _ _ E)).
Qed.

(** A note token gives the pitch -1 of a rest or a pitch in 0..127. *)
Lemma parse_abc_note_pitch (token : string) (midi : Z) (d : Q) :
  parse_abc_note token = Ok (midi, d) ->
  (if Py.startswith (Py.strip token) "z" || Py.startswith (Py.strip token) "Z"
   then midi = (-1)%Z else (0 <= midi <= 127)%Z).
Proof.
  unfold parse_abc_note.
  destruct (Py.is_empty token); [discriminate|].
  destruct (Py.startswith _ "z" || Py.startswith _ "Z").
  - match goal with |- bind ?r _ = _ -> _ => destruct r end; cbn [bind];
      [now intros [= <- _] | discriminate].
  - destruct (accidental_prefix _) as [accidental note].
    destruct note as [|base_char note]; [discriminate|].
    destruct (ABC_BASE_NOTES base_char) as [base|]; [|discriminate].
    destruct (Py.span (Ascii.eqb Py.squote) note) as [ups note1].
    destruct (Py.span (Ascii.eqb ",") note1) as [downs note2].
    match goal with |- context [if ?b then _ else _] => destruct b eqn:Er end;
      [discriminate|].
    apply pitch_check_false in Er.
    match goal with |- bind ?r _ = _ -> _ => destruct r end; cbn [bind];
      [|discriminate].
    now intros [= <- _].
Qed.

Lemma member_token_no_space (acc oct : string) (l : ascii) :
  member_match (acc, l, oct) ->
  Py.all (fun c => negb (Py.isspace c) && negb (Py.mem c "zZ/"))
         (acc ++ String l oct) = true.
Proof.
  intros (Hacc & Hl & Ho). rewrite all_app. cbn [Py.all].
  assert (A : Py.all (fun c => negb (Py.isspace c) && negb (Py.mem c "zZ/")) acc = true).
  { cbn [In] in Hacc.
    repeat (destruct Hacc as [<-|Hacc]; [reflexivity|]). contradiction. }
  assert (L : negb (Py.isspace l) && negb (Py.mem l "zZ/") = true).
  { revert Hl. clear. bits l; vm_compute; congruence. }
  assert (O : Py.all (fun c => negb (Py.isspace c) && negb (Py.mem c "zZ/")) oct = true).
  { revert Ho. apply all_impl. clear. intros c. bits c; vm_compute; congruence. }
  now rewrite A, L, O.
Qed.

Lemma member_token_pitch (acc oct : string) (l : ascii) (midi : Z) (d : Q) :
  member_match (acc, l, oct) ->
  parse_abc_note (acc ++ String l oct) = Ok (midi, d) -> (0 <= midi <= 127)%Z.
Proof.
  intros Hm Hp. pose proof (member_token_no_space _ _ _ Hm) as Hc.
  apply parse_abc_note_pitch in Hp.
  assert (Hs : Py.strip (acc ++ String l oct) = (acc ++ String l oct)%string).
  { apply strip_no_space. revert Hc. apply all_impl.
    intros c H. now apply andb_prop in H. }
  rewrite Hs in Hp.
  assert (Hz : Py.startswith (acc ++ String l oct) "z"
               || Py.startswith (acc ++ String l oct) "Z" = false).
  { destruct (acc ++ String l oct)%string as [|c t]; [reflexivity|].
    cbn [Py.all] in Hc. apply andb_prop in Hc as [Hc _]. revert Hc. clear.
    unfold Py.startswith. bits c; vm_compute; congruence. }
  now rewrite Hz in Hp.
Qed.

Lemma chord_members_pitches (d : Q) (matches : list (string * ascii * string))
  (pairs : list (Z * Q)) :
  Forall member_match matches ->
  chord_members d matches = Ok pairs ->
  Forall (fun pr => (0 <= fst pr <= 127)%Z) pairs.
Proof.
  intros Hm. revert pairs.
  induction Hm as [|[[acc l] oct] matches Hm _ IH]; intros pairs;
    cbn [chord_members]; [intros [= <-]; constructor|].
  destruct (parse_abc_note _) as [[midi x]|[msg| | | |]] eqn:E; try discriminate.
  - destruct (chord_members d matches) as [later|]; cbn [bind]; [|discriminate].
    intros [= <-]. constructor; [|now apply IH].
    exact (member_token_pitch _ _ _ _ _ Hm E).
  - apply IH.
Qed.

Lemma parse_abc_chord_pitches (chord_str : string) (pairs : list (Z * Q)) :
  parse_abc_chord chord_str = Ok pairs ->
  Forall (fun pr => (0 <= fst pr <= 127)%Z) pairs.
Proof.
  unfold parse_abc_chord. destruct (Py.is_empty _); [intros [= <-]; constructor|].
  apply chord_members_pitches, finditer_members.
Qed.

Lemma token_pitches_in_range (token : string) :
  Forall (fun p => (0 <= p <= 127)%Z) (token_pitches token).
Proof.
  unfold token_pitches. destruct (Py.startswith token "[").
  - destruct (parse_abc_chord token) as [members|] eqn:E; [|constructor].
    destruct (chord_token_duration token); [|constructor].
    apply parse_abc_chord_pitches in E. apply Forall_map. exact E.
  - destruct (parse_abc_note token) as [[midi d]|] eqn:E; [|constructor].
    apply parse_abc_note_pitch in E.
    destruct (midi >=? 0)%Z eqn:G; [|constructor].
    constructor; [|constructor].
    destruct (Py.startswith _ "z" || Py.startswith _ "Z"); [subst; discriminate|].
    assumption.
Qed.

(* ================================================================= *)
(** ** What every built program satisfies *)

(** A property of the loop state that every turn keeps is kept by the loop. *)
Lemma builder_loop_keeps (v : Q) (P : Builder -> Prop) (T : string -> Prop) :
  (forall st st' token, T token -> P st -> builder_step v st token = Ok st' -> P st') ->
  forall tokens, Forall T tokens ->
  forall st st', P st -> builder_loop v st tokens = Ok st' -> P st'.
Proof.
  intros Hstep. induction 1 as [|token tokens Ht _ IH]; intros st st' HP;
    cbn [builder_loop].
  - now intros [= <-].
  - destruct (builder_step v st token) as [st1|] eqn:E; cbn [bind]; [|discriminate].
    apply IH. exact (Hstep _ _ _ Ht HP E).
Qed.

Lemma quantize_bars_legal (total_beats : Q) (beats_per_bar : Z) :
  In (quantize_bars total_beats beats_per_bar) VALID_BAR_LENGTHS.
Proof.
  unfold quantize_bars.
  match goal with
  | |- context [first_at_least ?x ?l] => destruct (first_at_least x l) as [w|] eqn:E
  end.
  - exact (proj1 (first_at_least_some _ _ _ E)).
  - cbn. tauto.
Qed.

Lemma builder_loop_built (v : Q) (tokens : list string) (st : Builder) :
  Forall token_shape tokens ->
  builder_loop v initial_builder tokens = Ok st ->
  Forall (built_note v) (built_notes st).
Proof.
  intros Hshape E.
  apply (builder_loop_keeps v
           (fun st => 0 <= current_beat st /\ Forall (built_note v) (built_notes st))
           token_shape) with (st := initial_builder) (st' := st) in E;
    [tauto | | assumption | split; [discriminate | constructor]].
  clear. intros st st' token Hshape [Hcur Hnotes]. unfold builder_step.
  destruct (build_token v st token) as [st1|[msg| | | |]] eqn:E; try discriminate.
  - intros [= <-].
    destruct (build_token_ok _ _ _ _ Hshape E) as (d & Hd & _ & Hn & Hc).
    rewrite Hn, Hc. split; [now apply Qplus_nonneg|].
    apply Forall_app. split; [assumption|].
    apply Forall_map. eapply Forall_impl; [|apply token_pitches_in_range].
    intros p Hp. exists p, (current_beat st), d.
    split; [reflexivity|]. split; [exact Hp|]. split; assumption.
  - intros [= <-]. cbn. tauto.
Qed.

Lemma abc_to_program_built (abc_str : string) (beats_per_bar : Z)
  (v : Q) (prog : Program) (perrs : list string) :
  abc_to_program abc_str beats_per_bar v = Ok (prog, perrs) ->
  (exists lb, lengthBars prog = Some lb /\ In lb VALID_BAR_LENGTHS) /\
  Forall (built_note v) (notes prog).
Proof.
  unfold abc_to_program.
  destruct (builder_loop v initial_builder (tokenize_abc abc_str)) as [st|] eqn:E;
    cbn [bind]; [|discriminate].
  intros [= <- _]. cbn [lengthBars notes]. split.
  - eexists. split; [reflexivity | apply quantize_bars_legal].
  - exact (builder_loop_built v _ st (tokenize_abc_shape abc_str) E).
Qed.



(* ================================================================= *)
(** ** The message for an empty token *)

Lemma tokenize_loop_nonempty (fuel : nat) (content : string) :
  Forall (fun t => Py.is_empty t = false) (tokenize_loop fuel content).
Proof.
  revert content. induction fuel as [|fuel IH]; intros content;
    cbn [tokenize_loop]; [constructor|].
  destruct content as [|c rest]; [constructor|].
  destruct (Py.isspace c); [apply IH|].
  destruct (Ascii.eqb c "[").
  - destruct (find_close rest) as [[inside after]|]; [|apply IH].
    destruct (Py.span is_duration_char after) as [suffix after'].
    constructor; [reflexivity | apply IH].
  - destruct (Py.mem c "ABCDEFGabcdefgzZ^_="); [|apply IH].
    destruct (Py.span _ (String c rest)) as [accidentals r1].
    match goal with
    | |- context [let '(_, _) := ?pick in _] => destruct pick as [letter r2]
    end.
    destruct (Py.span _ r2) as [octaves r3].
    destruct (Py.span is_duration_char r3) as [duration r4].
    apply Forall_app. split; [|apply IH].
    destruct (Py.is_empty _) eqn:E; constructor; [assumption | constructor].
Qed.

Ltac other_result :=
  cbn [bind]; let G := fresh "G" in intros G; discriminate G.

Lemma float_or_raise_message (s msg : string) :
  float_or_raise s = Raise (ValueError msg) -> msg <> "Empty note token"%string.
Proof.
  unfold float_or_raise. destruct (Py.float s); [other_result|].
  intros [= <-]. cbn [String.append]. intros G. discriminate G.
Qed.

Lemma truediv_message (a b : Q) (msg : string) :
  Py.truediv a b <> Raise (ValueError msg).
Proof. unfold Py.truediv. destruct (Qeq_bool b 0); other_result. Qed.

Lemma slash_duration_message (s msg : string) :
  slash_duration s = Raise (ValueError msg) -> msg <> "Empty note token"%string.
Proof.
  unfold slash_duration.
  destruct (Py.split "/" s) as [|p0 [|p1 parts]]; try other_result.
  destruct (Py.is_empty p0).
  - destruct (float_or_raise p1) eqn:E1; cbn [bind];
      [intros H; now apply truediv_message in H
      | intros [= ->]; exact (float_or_raise_message _ _ E1)].
  - destruct (float_or_raise p0) eqn:E0; cbn [bind];
      [|intros [= ->]; exact (float_or_raise_message _ _ E0)].
    destruct (float_or_raise p1) eqn:E1; cbn [bind];
      [intros H; now apply truediv_message in H
      | intros [= ->]; exact (float_or_raise_message _ _ E1)].
Qed.

Lemma parse_abc_note_message (token msg : string) :
  Py.is_empty token = false ->
  parse_abc_note token = Raise (ValueError msg) -> msg <> "Empty note token"%string.
Proof.
  intros He. unfold parse_abc_note.
  destruct (Py.is_empty token); [discriminate He|]. clear He.
  destruct (Py.startswith _ "z" || Py.startswith _ "Z").
  - destruct (Py.is_empty _); [other_result|].
    destruct (Py.mem "/" _).
    + destruct (slash_duration _) eqn:E; [other_result|]. cbn [bind].
      intros [= ->]. exact (slash_duration_message _ _ E).
    + destruct (Py.float _); other_result.
  - destruct (accidental_prefix _) as [accidental note].
    destruct note as [|base_char note];
      [intros [= <-]; cbn [String.append]; intros G; discriminate G|].
    destruct (ABC_BASE_NOTES base_char);
      [|intros [= <-]; cbn [String.append]; intros G; discriminate G].
    destruct (Py.span (Ascii.eqb Py.squote) note) as [ups note1].
    destruct (Py.span (Ascii.eqb ",") note1) as [downs note2].
    match goal with |- context [if ?b then _ else _] => destruct b end;
      [intros [= <-]; cbn [String.append]; intros G; discriminate G|].
    destruct (Py.is_empty note2); [other_result|].
    destruct (Py.mem "/" note2).
    + destruct (slash_duration note2) eqn:E; [other_result|]. cbn [bind].
      intros [= ->]. exact (slash_duration_message _ _ E).
    + destruct (Py.float note2); [other_result|]. cbn [bind].
      intros [= <-]. cbn [String.append]. intros G. discriminate G.
Qed.

Lemma build_token_message (v : Q) (st : Builder) (token msg : string) :
  Py.is_empty token = false ->
  build_token v st token = Raise (ValueError msg) ->
  msg <> "Empty note token"%string.
Proof.
  intros He. unfold build_token. destruct (Py.startswith token "[").
  - destruct (parse_abc_chord_value token) as [[members ->]| ->];
      [|other_result]. cbn [bind].
    destruct (chord_token_duration_value token) as [[q ->]| ->]; other_result.
  - destruct (parse_abc_note token) as [[midi d]|] eqn:E; [other_result|].
    cbn [bind]. intros [= ->]. exact (parse_abc_note_message _ _ He E).
Qed.

Lemma build_token_errors (v : Q) (st st' : Builder) (token : string) :
  build_token v st token = Ok st' -> parse_errors st' = parse_errors st.
Proof.
  unfold build_token. destruct (Py.startswith token "[").
  - destruct (parse_abc_chord token); cbn [bind]; [|discriminate].
    destruct (chord_token_duration token); cbn [bind]; [|discriminate].
    now intros [= <-].
  - destruct (parse_abc_note token) as [[midi d]|]; cbn [bind]; [|discriminate].
    now intros [= <-].
Qed.

(** X14: the tokenizer never hands an empty token to the parsers, so the
    message of [parse_abc_note] for an empty token is never among the parse
    errors [abc_to_program] returns. *)
Theorem empty_token_is_never_reported (abc_str : string) (beats_per_bar : Z)
  (v : Q) (prog : Program) (perrs : list string) :
  abc_to_program abc_str beats_per_bar v = Ok (prog, perrs) ->
  Forall (fun t => t <> ""%string) (tokenize_abc abc_str) /\
  ~ In "Empty note token"%string perrs.
Proof.
  intros H. split.
  - eapply Forall_impl; [|apply tokenize_loop_nonempty].
    intros t Ht ->. discriminate.
  - revert H. unfold abc_to_program.
    destruct (builder_loop v initial_builder (tokenize_abc abc_str)) as [st|] eqn:E;
      cbn [bind]; [|discriminate].
    intros [= _ <-].
    apply (builder_loop_keeps v
             (fun st => ~ In "Empty note token"%string (parse_errors st))
             (fun t => Py.is_empty t = false))
      with (st := initial_builder) (st' := st) in E;
      [assumption | | apply tokenize_loop_nonempty | cbn; tauto].
    clear. intros st st' token He HP. unfold builder_step.
    destruct (build_token v st token) as [st1|[msg| | | |]] eqn:E; try discriminate.
    + intros [= <-]. now rewrite (build_token_errors _ _ _ _ E).
    + intros [= <-]. cbn [parse_errors]. intros Hin.
      apply in_app_or in Hin as [Hin|[Hin|[]]]; [now apply HP|].
      exact (build_token_message _ _ _ _ He E Hin).
Qed.

Lemma empty_token_is_never_reported_witness :
  abc_to_program "^ C/" 4 0.8 =
    Ok ({| lengthBars := Some 0.125; notes := [] |},
        ["Invalid ABC note: ^"%string;
         "could not convert string to float: ''"%string]) /\
  ~ In "Empty note token"%string
       ["Invalid ABC note: ^"%string; "could not convert string to float: ''"%string].
Proof.
  split; [vm_compute; reflexivity|].
  apply (empty_token_is_never_reported "^ C/" 4 0.8
           {| lengthBars := Some 0.125; notes := [] |}
           ["Invalid ABC note: ^"%string;
            "could not convert string to float: ''"%string]).
  vm_compute. reflexivity.
Defined.

(* ================================================================= *)
(** ** Text free of a character *)

Lemma free_all (c : ascii) (s : string) :
  free c s -> Py.all (fun d => negb (Ascii.eqb c d)) s = true.
Proof.
  unfold free. induction s as [|d s IH]; cbn; [reflexivity|].
  intros H. apply orb_false_iff in H as [Hd Hs]. now rewrite Hd, IH.
Qed.

(* ================================================================= *)
(** ** What the serializer writes *)

Lemma note_text_is_program_text (s : string) :
  Py.all is_note_text_char s = true -> Py.all is_program_text_char s = true.
Proof.
  apply all_impl. intros c H. unfold is_program_text_char. now rewrite H.
Qed.

Lemma map_midi_to_abc_chars (d : Q) (ns : list NoteEvent) (texts : list string) :
  map_result (fun n => p <- pitch_or_raise n ;; midi_to_abc p d) ns = Ok texts ->
  Forall (fun t => Py.all is_program_text_char t = true) texts.
Proof.
  revert texts. induction ns as [|n ns IH]; intros texts; cbn [map_result].
  - intros [= <-]. constructor.
  - destruct (pitch_or_raise n) as [p|]; cbn [bind]; [|discriminate].
    destruct (midi_to_abc p d) as [t|] eqn:Et; cbn [bind]; [|discriminate].
    destruct (map_result _ ns) as [ts|]; cbn [bind]; [|discriminate].
    intros [= <-]. constructor; [|now apply IH].
    exact (note_text_is_program_text _ (midi_to_abc_chars _ _ _ Et)).
Qed.

Lemma group_to_abc_chars (group : list NoteEvent) (text : string) :
  group_to_abc group = Ok text -> Py.all is_program_text_char text = true.
Proof.
  unfold group_to_abc. destruct group as [|n [|n' ns]]; [discriminate | |].
  - destruct (pitch_or_raise n) as [p|]; cbn [bind]; [|discriminate].
    intros H. exact (note_text_is_program_text _ (midi_to_abc_chars _ _ _ H)).
  - destruct (map_result _ _) as [texts|] eqn:E; cbn [bind]; [|discriminate].
    intros [= <-]. apply map_midi_to_abc_chars in E.
    cbn [Py.all]. rewrite !all_app, (all_join _ "" texts eq_refl E).
    repeat match goal with
           | |- context [if ?b then _ else _] => destruct b
           end;
      try reflexivity.
    now rewrite (note_text_is_program_text _ (str_int_chars _)).
Qed.

Lemma abc_parts_loop_chars (table : list (Q * list NoteEvent)) (beats_per_bar : Z)
  (times : list Q) :
  forall notes_in_bar parts,
    abc_parts_loop table beats_per_bar times notes_in_bar = Ok parts ->
    Forall (fun t => Py.all is_program_text_char t = true) parts.
Proof.
  induction times as [|k times IH]; intros nib parts; cbn [abc_parts_loop].
  - intros [= <-]. constructor.
  - destruct (floordiv k beats_per_bar); cbn [bind]; [|discriminate].
    match goal with
    | |- bind ?r _ = _ -> _ => destruct r as [new_bar|]
    end; cbn [bind]; [|discriminate].
    destruct (group_to_abc _) as [text|] eqn:Eg; cbn [bind]; [|discriminate].
    destruct (abc_parts_loop _ _ times _) as [later|] eqn:El; cbn [bind];
      [|discriminate].
    intros [= <-]. apply Forall_app. split.
    + destruct new_bar; repeat constructor.
    + constructor; [exact (group_to_abc_chars _ _ Eg) | exact (IH _ _ El)].
Qed.

(** X17: the text the serializer writes for a program with notes is made of
    sharps, note letters, octave marks, digits, the slash, the minus sign,
    brackets, bar lines and spaces.  It never holds a rest, a flat or a
    natural: only the program without notes is written with a rest. *)
Theorem program_text_has_no_rest (prog : Program) (beats_per_bar : Z)
  (text : string) :
  notes prog <> [] ->
  program_to_abc prog beats_per_bar = Ok text ->
  Py.all is_program_text_char text = true /\
  Py.mem "z" text = false /\ Py.mem "_" text = false /\ Py.mem "=" text = false.
Proof.
  intros Hne H.
  assert (A : Py.all is_program_text_char text = true).
  { revert H. unfold program_to_abc.
    destruct (notes prog) as [|n ns]; [congruence|].
    destruct (abc_parts_loop _ _ _ _) as [parts|] eqn:E; cbn [bind]; [|discriminate].
    intros [= <-]. apply all_join; [reflexivity|].
    apply Forall_app. split; [exact (abc_parts_loop_chars _ _ _ _ _ E)|].
    repeat constructor. }
  split; [assumption|].
  repeat split; apply (all_free is_program_text_char); (reflexivity || assumption).
Qed.

Lemma program_text_has_no_rest_witness :
  program_to_abc {| lengthBars := Some 1; notes := [note_event 61 2 1 0.8] |} 4
  = Ok "^c |"%string /\ Py.mem "z" "^c |" = false.
Proof.
  split; [reflexivity|].
  apply (program_text_has_no_rest
           {| lengthBars := Some 1; notes := [note_event 61 2 1 0.8] |} 4 "^c |");
    [discriminate | reflexivity].
Defined.

(* ================================================================= *)
(** ** The key argument *)

Lemma only_b_and_sharp_removed (k : string) :
  Py.all (fun c => Py.mem c "Bb#") k = true ->
  Py.remove "B" (Py.remove "#" (Py.upper k)) = ""%string.
Proof.
  induction k as [|c k IH]; [reflexivity|].
  cbn [Py.all]. intros H. apply andb_prop in H as [Hc Hk].
  specialize (IH Hk). cbn [Py.mem] in Hc.
  repeat (apply orb_prop in Hc as [Hc|Hc]); try discriminate;
    apply Ascii.eqb_eq in Hc; subst c; exact IH.
Qed.

(** X18: a key argument written with the letter B alone, in either case and
    with or without a sharp or a flat sign (B, b, Bb, B#, ...), names no
    key: the letter is removed before the table of keys is read.  Every
    key that is recognised is a pitch class from 0 to 11. *)
Theorem key_b_is_not_recognised :
  (forall k, Py.all (fun c => Py.mem c "Bb#") k = true -> main_key (Some k) = None) /\
  (forall arg n, main_key arg = Some n -> (0 <= n <= 11)%Z).
Proof.
  split.
  - intros k H. unfold main_key. destruct k as [|c k]; [reflexivity|].
    cbv zeta. now rewrite (only_b_and_sharp_removed _ H).
  - intros arg n. unfold main_key. destruct arg as [[|c k]|]; try discriminate.
    cbv zeta. destruct (key_map _) as [key|]; [|discriminate].
    intros [= <-].
    match goal with
    | |- (0 <= ?x mod 12 <= 11)%Z => pose proof (Z.mod_pos_bound x 12); lia
    end.
Qed.

Lemma key_b_is_not_recognised_witness :
  main_key (Some "Bb") = None /\ main_key (Some "b") = None /\
  main_key (Some "Cb") = Some 11%Z.
Proof.
  split; [|split].
  - apply (proj1 key_b_is_not_recognised "Bb"). reflexivity.
  - apply (proj1 key_b_is_not_recognised "b"). reflexivity.
  - reflexivity.
Defined.

(* ================================================================= *)
(** ** Header lines *)

Lemma rstrip_by_keeps_head (p : ascii -> bool) (c : ascii) (s : string) :
  p c = false -> Py.rstrip_by p (String c s) = String c (Py.rstrip_by p s).
Proof. intros Hc. cbn [Py.rstrip_by]. now rewrite Hc, andb_false_r. Qed.

Lemma rstrip_by_last (p : ascii -> bool) (a : string) (x : ascii) :
  p x = true -> Py.rstrip_by p (a ++ String x "") = Py.rstrip_by p a.
Proof.
  intros Hx. induction a as [|d a IH]; cbn [String.append Py.rstrip_by].
  - now rewrite Hx.
  - now rewrite IH.
Qed.

Lemma upper_is_no_space (c : ascii) :
  Py.isupper c = true -> Py.isspace c = false /\ Ascii.eqb (Py.chr 10) c = false.
Proof. bits c; vm_compute; intros H; first [discriminate H | split; reflexivity]. Qed.

(** X19: a first line that opens with an upper-case letter and a colon is a
    header line and adds nothing to the tokens, whatever it holds: the
    tokens are those of the text after it, provided that text does not open
    with white space. *)
Theorem header_line_is_ignored (c : ascii) (h s : string) :
  Py.isupper c = true -> Py.mem (Py.chr 10) h = false ->
  Py.lstrip_by Py.isspace s = s ->
  tokenize_abc (String c (String ":" (h ++ String (Py.chr 10) s))) = tokenize_abc s.
Proof.
  intros Hc Hh Hs. unfold tokenize_abc.
  destruct (upper_is_no_space c Hc) as [Hsp Hnl].
  assert (E : note_content (String c (String ":" (h ++ String (Py.chr 10) s)))
              = note_content s); [|now rewrite E].
  unfold note_content.
  destruct s as [|d s'].
  - (* nothing follows the header line *)
    assert (S : Py.strip (String c (String ":" (h ++ String (Py.chr 10) "")))
                = String c (String ":" (Py.rstrip_by Py.isspace h))).
    { unfold Py.strip.
      rewrite (rstrip_by_keeps_head _ _ _ Hsp),
        (rstrip_by_keeps_head _ ":" _ eq_refl),
        (rstrip_by_last _ _ _ (eq_refl : Py.isspace (Py.chr 10) = true)).
      apply lstrip_by_head. exact Hsp. }
    rewrite S, split_no_separator.
    + cbn [List.filter is_header_line]. rewrite Hc. reflexivity.
    + cbn [Py.mem]. rewrite Hnl. cbn [orb].
      apply (free_rstrip_by (Py.chr 10)). exact Hh.
  - (* the text after the header line opens with a character that is not
       white space *)
    assert (Hd : Py.isspace d = false).
    { cbn [Py.lstrip_by] in Hs. destruct (Py.isspace d) eqn:Ed; [|reflexivity].
      exfalso.
      assert (L : forall t, (String.length (Py.lstrip_by Py.isspace t)
                             <= String.length t)%nat).
      { induction t as [|x t IHt]; cbn; [lia|].
        destruct (Py.isspace x); cbn; lia. }
      specialize (L s'). rewrite Hs in L. cbn in L. lia. }
    assert (R : Py.rstrip_by Py.isspace (String d s')
                = String d (Py.rstrip_by Py.isspace s'))
      by exact (rstrip_by_keeps_head _ _ _ Hd).
    assert (S1 : Py.strip (String d s') = String d (Py.rstrip_by Py.isspace s')).
    { unfold Py.strip. rewrite R. apply lstrip_by_head. exact Hd. }
    assert (S2 : Py.strip (String c (String ":" (h ++ String (Py.chr 10) (String d s'))))
                 = (String c (String ":" h)
                    ++ String (Py.chr 10) (String d (Py.rstrip_by Py.isspace s')))%string).
    { unfold Py.strip.
      replace (String c (String ":" (h ++ String (Py.chr 10) (String d s'))))
        with ((String c (String ":" h) ++ String (Py.chr 10) "")
              ++ String d s')%string
        by (cbn [String.append]; now rewrite app_assoc_str).
      rewrite rstrip_by_app by (rewrite R; reflexivity).
      rewrite R, app_assoc_str. cbn [String.append].
      apply lstrip_by_head. exact Hsp. }
    rewrite S1, S2, split_at_first.
    + cbn [List.filter is_header_line]. rewrite Hc. reflexivity.
    + cbn [Py.mem]. rewrite Hnl. cbn [orb]. exact Hh.
Qed.

Lemma header_line_is_ignored_witness :
  tokenize_abc ("K:C major" ++ String (Py.chr 10) "c d e") = tokenize_abc "c d e".
Proof.
  apply (header_line_is_ignored "K" "C major" "c d e"); reflexivity.
Defined.

(* ================================================================= *)
(** ** The pitch of a note token *)

(** X20: a note token made of an accidental, a letter of the table, [ups]
    quotes and then [downs] commas reads as the base pitch of the letter,
    moved by the accidental, twelve semitones up for each quote and twelve
    down for each comma, with the duration 1 when that pitch is in 0..127;
    any other pitch is refused with the out-of-range [ValueError]. *)
Theorem note_token_pitch (acc : string) (delta : Z) (letter : ascii) (base : Z)
  (ups downs : nat) :
  accidental_delta acc = Some delta -> ABC_BASE_NOTES letter = Some base ->
  let token := note_token acc letter ups downs "" in
  let midi := (base + delta + 12 * Z.of_nat ups - 12 * Z.of_nat downs)%Z in
  ((0 <= midi <= 127)%Z -> parse_abc_note token = Ok (midi, 1)) /\
  (~ (0 <= midi <= 127)%Z ->
   parse_abc_note token =
     Raise (ValueError ("Note out of MIDI range (0-127): " ++ token
                        ++ " -> " ++ Py.str_int midi))).
Proof.
  intros Ha Hb token midi.
  pose proof (parse_abc_note_grammatical acc delta letter base ups downs ""
                Ha Hb eq_refl eq_refl) as H.
  cbv zeta in H. fold token midi in H. rewrite H. clear H.
  destruct ((midi <? 0)%Z || (midi >? 127)%Z) eqn:E.
  - split; [|reflexivity]. intros Hr. apply pitch_check_false in Hr. congruence.
  - split; [reflexivity|]. intros Hr. apply pitch_check_false in E. contradiction.
Qed.

Lemma note_token_pitch_witness :
  parse_abc_note "^c''" = Ok (85%Z, 1) /\
  parse_abc_note "_C,,,," =
    Raise (ValueError "Note out of MIDI range (0-127): _C,,,, -> -1").
Proof.
  split.
  - apply (note_token_pitch "^" 1 "c" 60 2 0 eq_refl eq_refl). vm_compute.
    split; discriminate.
  - apply (note_token_pitch "_" (-1) "C" 48 0 4 eq_refl eq_refl). vm_compute.
    intros [H _]. apply H. reflexivity.
Defined.

(* ================================================================= *)
(** ** What the pipeline accepts *)

Lemma legal_member (lb : Q) : In lb VALID_BAR_LENGTHS -> legal_bar_length lb.
Proof.
  intros H. exists lb. split; [assumption|].
  assert (E : lb - lb == 0) by ring. rewrite E. reflexivity.
Qed.

(** For a program of the builder, the validator has nothing left to check
    but the lengths of the notes and the end of the program. *)
Lemma built_program_no_error (prog : Program) (key : option Z)
  (scale : option string) (beats_per_bar : Z) (lb : Q) :
  lengthBars prog = Some lb -> In lb VALID_BAR_LENGTHS ->
  Forall (built_note default_velocity_value) (notes prog) ->
  fst (validate_program prog key scale beats_per_bar) = [] <->
  Forall (playable_note (lb * inject_Z beats_per_bar)) (notes prog).
Proof.
  intros Hlb Hin Hbuilt. rewrite validate_program_no_error. split.
  - intros (lb' & Hlb' & _ & Hall). rewrite Hlb in Hlb'. injection Hlb' as <-.
    revert Hall. apply Forall_impl.
    intros n (p & s & l & v & -> & _ & _ & Hend & Hl & _).
    exists s, l. repeat split; assumption.
  - intros Hall. exists lb. split; [assumption|]. split; [now apply legal_member|].
    rewrite Forall_forall in *. intros n Hn.
    destruct (Hbuilt n Hn) as (p & s & d & -> & Hp & Hs & _).
    destruct (Hall _ Hn) as (s' & d' & [= <-] & [= <-] & Hd & Hend).
    exists p, s, d, default_velocity_value.
    split; [reflexivity|]. split; [assumption|]. split; [assumption|].
    split; [assumption|]. split; [assumption|]. split; discriminate.
Qed.

(* ================================================================= *)
(** ** Beats per bar that are not positive *)

Lemma first_at_least_comp (x y : Q) (l : list Q) :
  x == y -> first_at_least x l = first_at_least y l.
Proof.
  intros E. induction l as [|v l IH]; cbn [first_at_least]; [reflexivity|].
  assert (B : Qle_bool x v = Qle_bool y v).
  { destruct (Qle_bool x v) eqn:Hx; destruct (Qle_bool y v) eqn:Hy; try reflexivity.
    - apply Qle_bool_iff in Hx. rewrite E in Hx. apply Qle_bool_iff in Hx. congruence.
    - apply Qle_bool_iff in Hy. rewrite <- E in Hy. apply Qle_bool_iff in Hy.
      congruence. }
  now rewrite B, IH.
Qed.

(** X22: a number of beats per bar that is zero or negative is not an
    error for the builder: it returns what it returns for one beat per
    bar, the elapsed beats being taken as the number of bars. *)
Theorem beats_per_bar_not_positive (abc_str : string) (beats_per_bar : Z) (v : Q) :
  (beats_per_bar <= 0)%Z ->
  abc_to_program abc_str beats_per_bar v = abc_to_program abc_str 1 v.
Proof.
  intros Hb. unfold abc_to_program.
  destruct (builder_loop v initial_builder (tokenize_abc abc_str)) as [st|];
    cbn [bind]; [|reflexivity].
  assert (E : quantize_bars (current_beat st) beats_per_bar
              = quantize_bars (current_beat st) 1).
  { unfold quantize_bars.
    assert (G : (beats_per_bar >? 0)%Z = false).
    { rewrite Z.gtb_ltb. apply Z.ltb_ge. exact Hb. }
    rewrite G. cbn [Z.gtb Z.compare].
    rewrite (first_at_least_comp (current_beat st - 0.001)
               (current_beat st / inject_Z 1 - 0.001)); [reflexivity|].
    change (inject_Z 1) with 1. field. }
  now rewrite E.
Qed.

Lemma beats_per_bar_not_positive_witness :
  abc_to_program "C D E" (-3) 0.8 =
    Ok ({| lengthBars := Some 4;
           notes := [note_event 48 0 1 0.8; note_event 50 1 1 0.8;
                     note_event 52 2 1 0.8] |}, []).
Proof.
  rewrite (beats_per_bar_not_positive "C D E" (-3) 0.8) by lia.
  vm_compute. reflexivity.
Defined.

(* ================================================================= *)
(** ** Zero beats per bar *)

Lemma by_time_add_not_empty (start : Q) (n : NoteEvent)
  (table : list (Q * list NoteEvent)) : by_time_add start n table <> [].
Proof.
  destruct table as [|[k g] table]; cbn [by_time_add]; [discriminate|].
  destruct (Qeq_bool start k); discriminate.
Qed.

Lemma group_by_time_not_empty (ns : list NoteEvent) :
  ns <> [] -> group_by_time ns <> [].
Proof.
  unfold group_by_time.
  assert (G : forall l table, table <> [] ->
            fold_left (fun by_time note =>
                         by_time_add (start_or_zero note) note by_time) l table <> []).
  { induction l as [|n l IH]; intros table Ht; cbn [fold_left]; [assumption|].
    apply IH, by_time_add_not_empty. }
  destruct ns as [|n ns]; [congruence|]. intros _. cbn [fold_left].
  apply G, by_time_add_not_empty.
Qed.

Lemma sorted_not_empty (l : list Q) : l <> [] -> sorted l <> [].
Proof.
  destruct l as [|x l]; [congruence|]. intros _. unfold sorted. cbn [fold_right].
  destruct (fold_right insert_sorted [] l) as [|y l']; cbn [insert_sorted];
    [discriminate|].
  destruct (Qle_bool x y); discriminate.
Qed.

Lemma program_to_abc_zero (prog : Program) :
  notes prog <> [] -> program_to_abc prog 0 = Raise ZeroDivisionError.
Proof.
  intros Hne. unfold program_to_abc.
  destruct (notes prog) as [|n ns] eqn:En; [congruence|]. rewrite <- En in *.
  pose proof (group_by_time_not_empty _ Hne) as Ht.
  assert (Hk : sorted (List.map fst (group_by_time (notes prog))) <> []).
  { apply sorted_not_empty. destruct (group_by_time (notes prog)); [congruence|].
    discriminate. }
  destruct (sorted _) as [|k times]; [congruence|].
  reflexivity.
Qed.

(** X23: with zero beats per bar, a text that parses without an error to a
    program with notes, all of a positive length, passes the validator and
    then stops the pipeline with a [ZeroDivisionError] in the serializer:
    no result is returned. *)
Theorem zero_beats_per_bar_stops_the_pipeline (abc_str : string)
  (key : option Z) (scale : option string) (prog : Program) :
  abc_to_program abc_str 0 default_velocity_value = Ok (prog, []) ->
  notes prog <> [] ->
  Forall (fun n => exists d, lengthBeats n = Some d /\ 0 < d) (notes prog) ->
  validate_abc abc_str key scale 0 = Raise ZeroDivisionError.
Proof.
  intros Hparse Hne Hpos.
  destruct (abc_to_program_built _ _ _ _ _ Hparse) as [(lb & Hlb & Hin) Hbuilt].
  pose proof (built_program_no_error prog key scale 0 lb Hlb Hin Hbuilt) as Hv.
  unfold validate_abc. rewrite Hparse. cbn [bind].
  assert (E : fst (validate_program prog key scale 0) = []).
  { apply Hv. rewrite Forall_forall in *. intros n Hn.
    destruct (Hbuilt n Hn) as (p & s & d & -> & _).
    destruct (Hpos _ Hn) as (d' & [= <-] & Hd).
    exists s, d. split; [reflexivity|]. split; [reflexivity|]. split; [assumption|].
    intros H. exfalso. revert H. apply Qle_not_lt.
    assert (Z0 : lb * inject_Z 0 == 0) by (change (inject_Z 0) with 0; ring).
    rewrite Z0. apply Qle_refl. }
  destruct (validate_program prog key scale 0) as [verrs vwarns]. cbn [fst] in E.
  subst verrs. now rewrite (program_to_abc_zero prog Hne).
Qed.

Lemma zero_beats_per_bar_stops_the_pipeline_witness :
  validate_abc "C" None None 0 = Raise ZeroDivisionError.
Proof.
  apply (zero_beats_per_bar_stops_the_pipeline "C" None None
           {| lengthBars := Some 1; notes := [note_event 48 0 1 0.8] |}).
  - vm_compute. reflexivity.
  - discriminate.
  - repeat constructor. exists 1. split; reflexivity.
Defined.

(* ================================================================= *)
(** ** The errors name their note *)

Lemma validate_note_messages (key : option Z) (scale : option string)
  (scale_notes : option (list Z)) (total_beats : Q) (i : nat) (n : NoteEvent)
  (msg : string) :
  In msg (fst (validate_note key scale scale_notes total_beats i n)) ->
  Py.startswith msg ("Note " ++ Py.str_int (Z.of_nat i) ++ ": ") = true.
Proof.
  assert (P : forall rest : string,
             Py.startswith (("Note " ++ Py.str_int (Z.of_nat i)) ++ String ":" (String " " rest))
               ("Note " ++ Py.str_int (Z.of_nat i) ++ ": ") = true).
  { intros rest. unfold Py.startswith.
    replace (("Note " ++ Py.str_int (Z.of_nat i)) ++ String ":" (String " " rest))%string
      with (("Note " ++ Py.str_int (Z.of_nat i) ++ ": ") ++ rest)%string.
    - apply prefix_app.
    - cbn [String.append]. f_equal. f_equal. f_equal. f_equal. f_equal.
      now rewrite app_assoc_str. }
  unfold validate_note.
  destruct (pitch n) as [p|]; destruct (startBeat n) as [s|];
    destruct (lengthBeats n) as [l|]; destruct (velocity n) as [v|];
    repeat match goal with
           | |- context [if ?b then _ else _] => destruct b
           | |- context [match ?x with Some _ => _ | None => _ end] => destruct x
           | |- context [match ?x with [] => _ | _ :: _ => _ end] => destruct x
           end;
    cbn [fst app In String.append];
    intros H;
    repeat match goal with
           | H : _ \/ _ |- _ => destruct H as [H|H]
           | H : False |- _ => destruct H
           end;
    subst msg; apply P.
Qed.

Lemma validate_notes_messages (key : option Z) (scale : option string)
  (scale_notes : option (list Z)) (total_beats : Q) (ns : list NoteEvent)
  (msg : string) :
  forall i,
    In msg (fst (validate_notes key scale scale_notes total_beats i ns)) ->
    exists j n,
      nth_error ns j = Some n /\
      In msg (fst (validate_note key scale scale_notes total_beats (i + j) n)).
Proof.
  induction ns as [|n ns IH]; intros i; cbn [validate_notes]; [intros []|].
  specialize (IH (S i)).
  destruct (validate_note key scale scale_notes total_beats i n) as [e w] eqn:En.
  destruct (validate_notes key scale scale_notes total_beats (S i) ns) as [es ws].
  cbn [fst] in *. intros H. apply in_app_or in H as [H|H].
  - exists O, n. split; [reflexivity|]. rewrite Nat.add_0_r, En. exact H.
  - destruct (IH H) as (j & m & Hj & Hm). exists (S j), m. split; [exact Hj|].
    now rewrite Nat.add_succ_r.
Qed.

(** X24: every error of the validator is either one of the two messages
    about the bar length or opens with "Note i: ", where [i] is the
    position in the program of a note that fails a check. *)
Theorem errors_name_their_note (prog : Program) (key : option Z)
  (scale : option string) (beats_per_bar : Z) (msg : string) :
  In msg (fst (validate_program prog key scale beats_per_bar)) ->
  msg = "Missing 'lengthBars'"%string \/
  Py.startswith msg "Invalid bar length " = true \/
  exists i n,
    nth_error (notes prog) i = Some n /\
    Py.startswith msg ("Note " ++ Py.str_int (Z.of_nat i) ++ ": ") = true /\
    ~ well_formed_note
        (match lengthBars prog with Some lb => lb | None => 0 end
         * inject_Z beats_per_bar) n.
Proof.
  unfold validate_program.
  set (bar_errors :=
         match lengthBars prog with
         | Some lb =>
             if negb (existsb (fun v => Py.Qlt_bool (Qabs (lb - v)) 0.001)
                        VALID_BAR_LENGTHS)
             then ["Invalid bar length " ++ Py.str_float lb ++ ". Must be: "
                   ++ str_float_list VALID_BAR_LENGTHS]%string
             else []
         | None => ["Missing 'lengthBars'"%string]
         end).
  assert (B : In msg bar_errors ->
              msg = "Missing 'lengthBars'"%string \/
              Py.startswith msg "Invalid bar length " = true).
  { subst bar_errors. destruct (lengthBars prog) as [lb|].
    - destruct (negb _); [|intros []]. intros [<-|[]]. right.
      unfold Py.startswith. apply prefix_app.
    - intros [<-|[]]. now left. }
  destruct (notes prog) as [|n0 ns0] eqn:En.
  - cbn [fst]. intros H. destruct (B H) as [H1|H1]; auto.
  - rewrite <- En.
    match goal with
    | |- In msg (fst (let '(_, _) := validate_notes _ _ ?sn ?tb _ _ in _)) -> _ =>
        pose proof (validate_notes_messages key scale sn tb (notes prog) msg O) as Hm;
        pose proof (fun i n => validate_note_accepts key scale sn tb i n) as Ha;
        pose proof (fun i n => validate_note_messages key scale sn tb i n msg) as Hp;
        destruct (validate_notes key scale sn tb O (notes prog)) as [es ws]
    end.
    cbn [fst] in *. intros H. apply in_app_or in H as [H|H].
    + destruct (B H) as [H1|H1]; auto.
    + right. right. destruct (Hm H) as (j & n & Hj & Hin). cbn [Nat.add] in Hin.
      exists j, n. split; [assumption|]. split; [exact (Hp _ _ Hin)|].
      intros Hw. apply Ha with (i := j) in Hw. rewrite Hw in Hin. exact Hin.
Qed.

Lemma errors_name_their_note_witness :
  fst (validate_program
         {| lengthBars := Some 1;
            notes := [note_event 60 0 1 0.8; note_event 200 0 1 0.8] |} None None 4)
  = ["Note 1: Invalid pitch 200"%string] /\
  Py.startswith "Note 1: Invalid pitch 200" ("Note " ++ Py.str_int (Z.of_nat 1) ++ ": ")
  = true.
Proof.
  split; [vm_compute; reflexivity|].
  destruct (errors_name_their_note
              {| lengthBars := Some 1;
                 notes := [note_event 60 0 1 0.8; note_event 200 0 1 0.8] |}
              None None 4 "Note 1: Invalid pitch 200")
    as [H|[H|(i & n & Hn & Hs & _)]].
  - vm_compute. now left.
  - discriminate H.
  - discriminate H.
  - vm_compute. reflexivity.
Defined.

(* ================================================================= *)
(** ** The tokens are stable *)

Lemma single_spaced_tail (c : ascii) (s : string) :
  single_spaced (String c s) = true -> single_spaced s = true.
Proof. cbn [single_spaced]. intros H. now apply andb_prop in H. Qed.

Lemma single_spaced_suffix (a b : string) :
  single_spaced (a ++ b) = true -> single_spaced b = true.
Proof.
  induction a as [|c a IH]; cbn [String.append]; [easy|].
  intros H. apply IH. exact (single_spaced_tail _ _ H).
Qed.

Lemma single_spaced_prefix (a b : string) :
  single_spaced (a ++ b) = true -> single_spaced a = true.
Proof.
  induction a as [|c a IH]; cbn [String.append]; [easy|].
  intros H. pose proof (IH (single_spaced_tail _ _ H)) as Ha.
  cbn [single_spaced] in *. rewrite Ha, andb_true_r.
  apply andb_prop in H as [H _]. apply andb_prop in H as [H1 H2].
  rewrite H1. cbn [andb].
  apply orb_prop in H2 as [H2|H2]; [now rewrite H2|].
  apply andb_prop in H2 as [H2 H3]. rewrite H2. cbn [andb].
  destruct a as [|d a]; [apply orb_true_r|]. cbn [String.append] in H3.
  rewrite H3. apply orb_true_r.
Qed.

Lemma single_spaced_app (a b : string) :
  single_spaced a = true -> single_spaced b = true ->
  last_tight a = true \/ head_tight b = true ->
  single_spaced (a ++ b) = true.
Proof.
  induction a as [|c a IH]; cbn [String.append]; [easy|].
  intros Ha Hb Hj. pose proof (single_spaced_tail _ _ Ha) as Ha'.
  assert (Hj' : last_tight a = true \/ head_tight b = true).
  { destruct Hj as [Hj|Hj]; [|now right]. destruct a as [|d a]; [now left|].
    left. exact Hj. }
  specialize (IH Ha' Hb Hj').
  cbn [single_spaced] in *. rewrite IH, andb_true_r.
  apply andb_prop in Ha as [Ha _]. apply andb_prop in Ha as [H1 H2].
  rewrite H1. cbn [andb].
  apply orb_prop in H2 as [H2|H2]; [now rewrite H2|].
  apply andb_prop in H2 as [H2 H3]. rewrite H2. cbn [andb].
  destruct a as [|d a].
  - cbn [String.append]. destruct Hj as [Hj|Hj].
    + cbn [last_tight] in Hj. rewrite Hj. reflexivity.
    + unfold head_tight in Hj. destruct b as [|d b]; [apply orb_true_r|].
      rewrite Hj. apply orb_true_r.
  - cbn [String.append]. rewrite H3. apply orb_true_r.
Qed.

Lemma no_space_single_spaced (s : string) :
  Py.all (fun c => negb (Py.isspace c) && negb (Ascii.eqb c "|")) s = true ->
  single_spaced s = true /\ last_tight s = true /\ head_tight s = true.
Proof.
  induction s as [|c s IH]; [now cbn|].
  cbn [Py.all]. intros H. apply andb_prop in H as [Hc Hs].
  apply andb_prop in Hc as [H1 H2]. destruct (IH Hs) as (I1 & I2 & I3).
  cbn [single_spaced last_tight head_tight]. rewrite H1, H2, I1.
  repeat split. destruct s; assumption.
Qed.

Lemma last_tight_app (a b : string) :
  Py.is_empty b = false -> last_tight b = true -> last_tight (a ++ b) = true.
Proof.
  intros Hb Hl. induction a as [|c a IH]; [assumption|].
  cbn [String.append last_tight].
  destruct (a ++ b)%string eqn:E; [|assumption].
  destruct a; cbn in E; [subst b; discriminate | discriminate].
Qed.

(** *** The scanned text *)

Lemma sub_runs_bar_free (in_run : bool) (s : string) :
  free "|" (sub_runs_from (Ascii.eqb "|") in_run s).
Proof.
  unfold free. revert in_run. induction s as [|c s IH]; intros in_run;
    cbn [sub_runs_from]; [reflexivity|].
  destruct (Ascii.eqb "|" c) eqn:E.
  - destruct in_run; [apply IH|]. cbn [Py.mem]. now rewrite IH.
  - cbn [Py.mem]. now rewrite E, IH.
Qed.

Lemma sub_runs_space_single (s : string) :
  free "|" s ->
  forall in_run,
    single_spaced (sub_runs_from Py.isspace in_run s) = true /\
    (in_run = true -> head_tight (sub_runs_from Py.isspace in_run s) = true).
Proof.
  unfold free. induction s as [|c s IH]; intros H in_run; cbn [sub_runs_from];
    [now split|].
  cbn [Py.mem] in H. apply orb_false_iff in H as [Hc Hs].
  rewrite Ascii.eqb_sym in Hc.
  destruct (Py.isspace c) eqn:E.
  - destruct (IH Hs true) as [I1 I2]. specialize (I2 eq_refl).
    destruct in_run; [now split|].
    split; [|discriminate]. cbn [single_spaced]. rewrite I1.
    unfold head_tight in I2.
    destruct (sub_runs_from Py.isspace true s); [reflexivity|]. now rewrite I2.
  - destruct (IH Hs false) as [I1 _]. split.
    + cbn [single_spaced]. now rewrite Hc, E, I1.
    + intros _. cbn [head_tight]. now rewrite E.
Qed.

Lemma lstrip_by_suffix (p : ascii -> bool) (s : string) :
  exists pre, s = (pre ++ Py.lstrip_by p s)%string.
Proof.
  induction s as [|c s [pre IH]]; [now exists ""%string|].
  cbn [Py.lstrip_by]. destruct (p c); [|now exists ""%string].
  exists (String c pre). cbn [String.append]. now rewrite <- IH.
Qed.

Lemma rstrip_by_prefix (p : ascii -> bool) (s : string) :
  exists post, s = (Py.rstrip_by p s ++ post)%string.
Proof.
  induction s as [|c s [post IH]]; [now exists ""%string|].
  cbn [Py.rstrip_by]. destruct (Py.is_empty (Py.rstrip_by p s) && p c).
  - now exists (String c s).
  - exists post. cbn [String.append]. now rewrite <- IH.
Qed.

Lemma note_content_single_spaced (abc_str : string) :
  single_spaced (note_content abc_str) = true.
Proof.
  unfold note_content, sub_runs, Py.strip.
  match goal with
  | |- context [sub_runs_from Py.isspace false ?x] =>
      destruct (sub_runs_space_single x (sub_runs_bar_free false _) false) as [H _];
      set (text := sub_runs_from Py.isspace false x) in *
  end.
  destruct (rstrip_by_prefix Py.isspace text) as [post Hpost].
  rewrite Hpost in H. apply single_spaced_prefix in H.
  destruct (lstrip_by_suffix Py.isspace (Py.rstrip_by Py.isspace text)) as [pre Hpre].
  rewrite Hpre in H. now apply single_spaced_suffix in H.
Qed.

(** *** The tokens of a single-spaced text *)

Lemma find_close_spec (s inside after : string) :
  find_close s = Some (inside, after) ->
  s = (inside ++ String "]" after)%string /\ Py.mem "]" inside = false.
Proof.
  revert inside. induction s as [|c s IH]; intros inside; cbn [find_close];
    [discriminate|].
  destruct (Ascii.eqb c "]") eqn:E.
  - intros [= <- <-]. apply Ascii.eqb_eq in E. subst c. now split.
  - destruct (find_close s) as [[inside' after']|]; [|discriminate].
    intros [= <- <-]. destruct (IH _ eq_refl) as [-> Hm].
    split; [reflexivity|]. cbn [Py.mem]. rewrite Ascii.eqb_sym, E. exact Hm.
Qed.

Lemma duration_chars_tight (s : string) :
  Py.all is_duration_char s = true ->
  Py.all (fun c => negb (Py.isspace c) && negb (Ascii.eqb c "|")) s = true.
Proof. apply all_impl. intros c. bits c; vm_compute; congruence. Qed.

Lemma note_chars_tight (s : string) :
  Py.all is_note_token_char s = true ->
  Py.all (fun c => negb (Py.isspace c) && negb (Ascii.eqb c "|")) s = true.
Proof. apply all_impl. intros c. bits c; vm_compute; congruence. Qed.

Lemma tokenize_loop_cut (fuel : nat) (content : string) :
  single_spaced content = true ->
  Forall cut_token (tokenize_loop fuel content).
Proof.
  revert content. induction fuel as [|fuel IH]; intros content H;
    cbn [tokenize_loop]; [constructor|].
  destruct content as [|c rest]; [constructor|].
  pose proof (single_spaced_tail _ _ H) as Hrest.
  destruct (Py.isspace c); [now apply IH|].
  destruct (Ascii.eqb c "[").
  - destruct (find_close rest) as [[inside after]|] eqn:Ef; [|now apply IH].
    destruct (find_close_spec _ _ _ Ef) as [-> Hm].
    pose proof (single_spaced_prefix _ _ Hrest) as Hin.
    pose proof (single_spaced_suffix _ _ Hrest) as Haf.
    apply single_spaced_tail in Haf.
    destruct (Py.span is_duration_char after) as [suffix after'] eqn:Es.
    destruct (span_spec _ _ _ _ Es) as (-> & Hs & _).
    constructor; [|apply IH; exact (single_spaced_suffix _ _ Haf)].
    destruct (no_space_single_spaced _ (duration_chars_tight _ Hs))
      as (S1 & S2 & S3).
    assert (Hclose : single_spaced (String "]" suffix) = true
                     /\ last_tight (String "]" suffix) = true).
    { cbn [single_spaced last_tight]. rewrite S1. split; [reflexivity|].
      destruct suffix; [reflexivity | exact S2]. }
    destruct Hclose as [C1 C2].
    split; [|split].
    + right. exists inside, suffix. repeat split; assumption.
    + cbn [String.append single_spaced].
      change (negb (Ascii.eqb "[" "|")) with true.
      change (negb (Py.isspace "[")) with true. cbn [andb orb].
      rewrite app_assoc_str. cbn [String.append].
      apply single_spaced_app; [assumption | assumption | now right].
    + cbn [String.append]. rewrite app_assoc_str. cbn [String.append].
      change (String "[" (inside ++ String "]" suffix))
        with (String "[" inside ++ String "]" suffix)%string.
      apply last_tight_app; [reflexivity | exact C2].
  - destruct (Py.mem c "ABCDEFGabcdefgzZ^_=") eqn:Hstart; [|now apply IH].
    destruct (Py.span (fun c0 => Py.mem c0 "^_=") (String c rest))
      as [accidentals r1] eqn:E1.
    destruct (span_spec _ _ _ _ E1) as (E1s & H1 & _).
    set (pick := match r1 with
                 | String l r' =>
                     if Py.mem l "ABCDEFGabcdefgzZ" then (String l "", r')
                     else (""%string, r1)
                 | EmptyString => (""%string, r1)
                 end).
    assert (Hpick : r1 = (fst pick ++ snd pick)%string /\
                    (fst pick = ""%string \/
                     exists l, fst pick = String l "" /\
                               Py.mem l "ABCDEFGabcdefgzZ" = true)).
    { subst pick. destruct r1 as [|l r']; [split; [reflexivity | now left]|].
      destruct (Py.mem l "ABCDEFGabcdefgzZ") eqn:El; cbn [fst snd].
      - split; [reflexivity|]. right. now exists l.
      - split; [reflexivity | now left]. }
    assert (Hhead : Py.is_empty (accidentals ++ fst pick) = false).
    { subst pick. destruct accidentals as [|a accs]; [|reflexivity].
      cbn [String.append] in *. subst r1.
      assert (Hl : Py.mem c "ABCDEFGabcdefgzZ" = true).
      { cbn [Py.span] in E1. destruct (Py.mem c "^_=") eqn:Ea.
        - destruct (Py.span _ rest); discriminate.
        - revert Hstart Ea. clear. bits c; vm_compute; congruence. }
      now rewrite Hl. }
    destruct pick as [letter r2]. cbn [fst snd] in Hpick, Hhead.
    destruct Hpick as [Er1 Hletter].
    destruct (Py.span (fun c0 => Py.mem c0 (String Py.squote ",")) r2)
      as [octaves r3] eqn:E3.
    destruct (span_spec _ _ _ _ E3) as (E3s & H3 & _).
    destruct (Py.span is_duration_char r3) as [duration r4] eqn:E4.
    destruct (span_spec _ _ _ _ E4) as (E4s & H4 & _).
    assert (Hsuffix : single_spaced r4 = true).
    { rewrite E1s, Er1, E3s, E4s in H.
      do 4 apply single_spaced_suffix in H. exact H. }
    apply Forall_app. split; [|now apply IH].
    assert (Hne : Py.is_empty (accidentals ++ letter ++ octaves ++ duration) = false).
    { destruct accidentals; [|reflexivity]. cbn [String.append] in *.
      destruct letter; [discriminate | reflexivity]. }
    rewrite Hne. constructor; [|constructor].
    assert (Hchars : Py.all is_note_token_char
                       (accidentals ++ letter ++ octaves ++ duration) = true).
    { rewrite !all_app.
      assert (A1 : Py.all is_note_token_char accidentals = true).
      { revert H1. apply all_impl. intros x Hx.
        unfold is_note_token_char. now rewrite Hx. }
      assert (A2 : Py.all is_note_token_char letter = true).
      { destruct Hletter as [->|(l & -> & Hl)]; [reflexivity|].
        cbn [Py.all]. unfold is_note_token_char. rewrite Hl.
        now rewrite orb_true_r. }
      assert (A3 : Py.all is_note_token_char octaves = true).
      { revert H3. apply all_impl. intros x Hx.
        unfold is_note_token_char. rewrite Hx. now rewrite !orb_true_r. }
      assert (A4 : Py.all is_note_token_char duration = true).
      { revert H4. apply all_impl. intros x Hx.
        unfold is_note_token_char. rewrite Hx. now rewrite !orb_true_r. }
      now rewrite A1, A2, A3, A4. }
    destruct (no_space_single_spaced _ (note_chars_tight _ Hchars)) as (S1 & S2 & _).
    split; [|split; assumption].
    left. exists accidentals, letter, octaves, duration. repeat split; assumption.
Qed.

(** *** Scanning a token again *)

Lemma note_shape_head (t : string) :
  note_shape t ->
  exists c X, t = String c X /\ Py.isspace c = false /\ Ascii.eqb c "[" = false /\
              Py.mem c "ABCDEFGabcdefgzZ^_=" = true.
Proof.
  intros (acc & letter & octs & sfx & -> & Hacc & Hl & _ & _ & Hne).
  destruct acc as [|a acc].
  - cbn [String.append] in *. destruct Hl as [->|(l & -> & Hl)]; [discriminate|].
    cbn [String.append]. exists l, (octs ++ sfx)%string. split; [reflexivity|].
    revert Hl. clear. bits l; vm_compute; intros H; try discriminate; repeat split.
  - cbn [String.append]. eexists a, _. split; [reflexivity|].
    cbn [Py.all] in Hacc. apply andb_prop in Hacc as [Ha _].
    revert Ha. clear. bits a; vm_compute; intros H; try discriminate; repeat split.
Qed.

Lemma tokenize_note_shape (fuel : nat) (t rest : string) :
  note_shape t -> stops rest ->
  tokenize_loop (S fuel) (t ++ rest) = t :: tokenize_loop fuel rest.
Proof.
  intros Ht Hr. destruct (note_shape_head t Ht) as (c & X & Hc & C1 & C2 & C3).
  destruct Ht as (acc & letter & octs & sfx & Et & Hacc & Hl & Ho & Hs & Hne).
  assert (Hspan3 : Py.span is_duration_char (sfx ++ rest) = (sfx, rest)).
  { apply span_app_stop; [exact Hs | now apply stop_at_rest]. }
  assert (Hspan2 : Py.span (fun c => Py.mem c (String Py.squote ",")) (octs ++ sfx ++ rest)
                   = (octs, (sfx ++ rest)%string)).
  { apply span_app_stop; [exact Ho|].
    apply (stop_after_suffix is_octave_char);
      [exact duration_char_not_octave | reflexivity | assumption | assumption]. }
  assert (Hafter : match (octs ++ sfx ++ rest)%string with
                   | String d _ => Py.mem d "^_=" = false
                                   /\ Py.mem d "ABCDEFGabcdefgzZ" = false
                   | EmptyString => True
                   end).
  { destruct octs as [|o octs]; cbn [String.append].
    - destruct sfx as [|d sfx]; cbn [String.append].
      + destruct rest as [|d rest]; [exact I|]. cbn in Hr. subst d. now split.
      + cbn [Py.all] in Hs. apply andb_prop in Hs as [Hd _].
        revert Hd. clear. bits d; vm_compute; intros H; try discriminate; now split.
    - cbn [Py.all] in Ho. apply andb_prop in Ho as [Hd _].
      revert Hd. clear. bits o; vm_compute; intros H; try discriminate; now split. }
  assert (Hspan1 : Py.span (fun c => Py.mem c "^_=") (acc ++ letter ++ octs ++ sfx ++ rest)
                   = (acc, (letter ++ octs ++ sfx ++ rest)%string)).
  { apply span_app_stop; [exact Hacc|].
    destruct Hl as [->|(l & -> & Hl)]; cbn [String.append].
    - destruct (octs ++ sfx ++ rest)%string; [exact I | exact (proj1 Hafter)].
    - revert Hl. clear. bits l; vm_compute; congruence. }
  assert (Hwhole : (t ++ rest)%string = (acc ++ letter ++ octs ++ sfx ++ rest)%string).
  { rewrite Et. now rewrite !app_assoc_str. }
  rewrite Hwhole.
  assert (Hc' : (acc ++ letter ++ octs ++ sfx ++ rest)%string = String c (X ++ rest)).
  { rewrite <- Hwhole, Hc. reflexivity. }
  cbn [tokenize_loop]. rewrite Hc', C1, C2, C3, <- Hc', Hspan1.
  assert (Hpick : match (letter ++ octs ++ sfx ++ rest)%string with
                  | String l r' =>
                      if Py.mem l "ABCDEFGabcdefgzZ" then (String l "", r')
                      else (""%string, (letter ++ octs ++ sfx ++ rest)%string)
                  | EmptyString => (""%string, (letter ++ octs ++ sfx ++ rest)%string)
                  end = (letter, (octs ++ sfx ++ rest)%string)).
  { destruct Hl as [->|(l & -> & Hl)]; cbn [String.append].
    - destruct (octs ++ sfx ++ rest)%string as [|d Y]; [reflexivity|].
      now rewrite (proj2 Hafter).
    - now rewrite Hl. }
  rewrite Hpick, Hspan2, Hspan3.
  assert (Hne' : Py.is_empty (acc ++ letter ++ octs ++ sfx) = false).
  { destruct acc; [|reflexivity]. cbn [String.append] in *.
    destruct letter; [discriminate | reflexivity]. }
  rewrite Hne', <- Et. reflexivity.
Qed.

Lemma cut_token_nonempty (t : string) :
  cut_token t -> (1 <= String.length t)%nat /\ head_tight t = true.
Proof.
  intros [[H|(b & s & -> & _)] _].
  - destruct (note_shape_head t H) as (c & X & -> & C1 & _). cbn. rewrite C1.
    split; [lia | reflexivity].
  - cbn. split; [lia | reflexivity].
Qed.

Lemma tokenize_cut_token (fuel : nat) (t rest : string) :
  cut_token t -> stops rest ->
  tokenize_loop (S fuel) (t ++ rest) = t :: tokenize_loop fuel rest.
Proof.
  intros [[H|H] _]; [now apply tokenize_note_shape | now apply tokenize_chord_form].
Qed.

Lemma tokenize_cut (texts : list string) :
  Forall cut_token texts ->
  forall fuel, (String.length (Py.join " " texts) <= fuel)%nat ->
  tokenize_loop fuel (Py.join " " texts) = texts.
Proof.
  unfold Py.join.
  induction 1 as [|t texts Ht Hts IH]; intros fuel Hfuel.
  - destruct fuel; reflexivity.
  - pose proof (proj1 (cut_token_nonempty _ Ht)) as Hlen.
    destruct texts as [|u texts].
    + cbn [String.concat] in *. destruct fuel as [|fuel]; [lia|].
      rewrite <- (app_empty_r t) at 1.
      rewrite (tokenize_cut_token fuel t "" Ht I). destruct fuel; reflexivity.
    + change (String.concat " " (t :: u :: texts))
        with (t ++ String " " (String.concat " " (u :: texts)))%string in *.
      rewrite length_app_str in Hfuel. cbn [String.length] in Hfuel.
      destruct fuel as [|[|fuel]]; [lia | lia |].
      rewrite (tokenize_cut_token _ t (String " " (String.concat " " (u :: texts))) Ht eq_refl).
      cbn [tokenize_loop]. change (Py.isspace " ") with true. cbv iota.
      rewrite IH by lia. reflexivity.
Qed.

(** *** The joined tokens are scanned as they are *)

Lemma rstrip_by_tight (s : string) :
  last_tight s = true -> Py.rstrip_by Py.isspace s = s.
Proof.
  induction s as [|c s IH]; [reflexivity|].
  cbn [last_tight Py.rstrip_by]. destruct s as [|d s].
  - intros H. apply negb_true_iff in H. cbn [Py.rstrip_by Py.is_empty].
    now rewrite H.
  - intros H. rewrite (IH H). reflexivity.
Qed.

Lemma strip_tight (s : string) :
  head_tight s = true -> last_tight s = true -> Py.strip s = s.
Proof.
  intros Hh Hl. unfold Py.strip. rewrite (rstrip_by_tight _ Hl).
  destruct s as [|c s]; [reflexivity|]. apply lstrip_by_head.
  now apply negb_true_iff.
Qed.

Lemma single_spaced_free (c : ascii) (s : string) :
  Ascii.eqb c "|" || (Py.isspace c && negb (Ascii.eqb c " ")) = true ->
  single_spaced s = true -> free c s.
Proof.
  intros Hc. unfold free. induction s as [|d s IH]; [reflexivity|].
  cbn [single_spaced Py.mem]. intros H. apply andb_prop in H as [H Hs].
  rewrite (IH Hs), orb_false_r. apply andb_prop in H as [H1 H2].
  destruct (Ascii.eqb_spec c d) as [->|]; [|reflexivity]. exfalso.
  apply negb_true_iff in H1. rewrite H1 in Hc. cbn [orb] in Hc.
  apply andb_prop in Hc as [Hc1 Hc2]. rewrite Hc1 in H2. cbn [negb orb] in H2.
  apply andb_prop in H2 as [H2 _]. rewrite H2 in Hc2. discriminate.
Qed.

Lemma sub_runs_from_free (p : ascii -> bool) (s : string) :
  Py.all (fun c => negb (p c)) s = true ->
  forall in_run, sub_runs_from p in_run s = s.
Proof.
  induction s as [|c s IH]; intros H in_run; [reflexivity|].
  cbn [Py.all] in H. apply andb_prop in H as [Hc Hs].
  apply negb_true_iff in Hc. cbn [sub_runs_from]. now rewrite Hc, IH.
Qed.

Lemma sub_runs_single_spaced (s : string) :
  single_spaced s = true ->
  sub_runs_from Py.isspace false s = s /\
  (head_tight s = true -> sub_runs_from Py.isspace true s = s).
Proof.
  induction s as [|c s IH]; [now split|].
  intros H. pose proof (single_spaced_tail _ _ H) as Hs.
  destruct (IH Hs) as [I1 I2].
  cbn [single_spaced] in H. apply andb_prop in H as [H _].
  apply andb_prop in H as [_ H].
  cbn [sub_runs_from head_tight]. destruct (Py.isspace c) eqn:E.
  - cbn [negb orb] in H. apply andb_prop in H as [Hc Hn].
    apply Ascii.eqb_eq in Hc. subst c.
    split; [|discriminate]. rewrite I2; [reflexivity|].
    destruct s; [reflexivity | exact Hn].
  - split; [now rewrite I1 | intros _; now rewrite I1].
Qed.

Lemma header_needs_upper (c : ascii) (X : string) :
  Py.isupper c = false -> is_header_line (String c X) = false.
Proof.
  intros H. destruct X as [|d X]; [reflexivity|]. cbn [is_header_line].
  rewrite H. bits d; reflexivity.
Qed.

Lemma note_shape_chars (t : string) :
  note_shape t -> Py.all is_note_token_char t = true.
Proof.
  intros (acc & letter & octs & sfx & -> & Hacc & Hl & Ho & Hs & _).
  rewrite !all_app.
  assert (A1 : Py.all is_note_token_char acc = true).
  { revert Hacc. apply all_impl. intros x Hx.
    unfold is_note_token_char. now rewrite Hx. }
  assert (A2 : Py.all is_note_token_char letter = true).
  { destruct Hl as [->|(l & -> & Hl)]; [reflexivity|].
    cbn [Py.all]. unfold is_note_token_char. rewrite Hl. now rewrite orb_true_r. }
  assert (A3 : Py.all is_note_token_char octs = true).
  { revert Ho. apply all_impl. intros x Hx.
    unfold is_note_token_char, is_octave_char in *. rewrite Hx.
    now rewrite !orb_true_r. }
  assert (A4 : Py.all is_note_token_char sfx = true).
  { revert Hs. apply all_impl. intros x Hx.
    unfold is_note_token_char. rewrite Hx. now rewrite !orb_true_r. }
  now rewrite A1, A2, A3, A4.
Qed.

(** A line that opens with a note token is no header line: no token holds
    a colon. *)
Lemma note_shape_no_header (t rest : string) :
  note_shape t -> stops rest -> is_header_line (t ++ rest) = false.
Proof.
  intros Hn Hr. pose proof (note_shape_chars t Hn) as Hchars.
  destruct (note_shape_head t Hn) as (c & X & -> & _).
  cbn [String.append]. destruct X as [|d X]; cbn [String.append].
  - destruct rest as [|d rest]; [reflexivity|]. cbn in Hr. subst d. reflexivity.
  - cbn [Py.all] in Hchars. apply andb_prop in Hchars as [_ Hd].
    apply andb_prop in Hd as [Hd _].
    cbn [is_header_line]. revert Hd. clear. bits d; vm_compute; congruence.
Qed.

Lemma join_cut (t : string) (texts : list string) :
  Forall cut_token (t :: texts) ->
  single_spaced (Py.join " " (t :: texts)) = true /\
  head_tight (Py.join " " (t :: texts)) = true /\
  last_tight (Py.join " " (t :: texts)) = true /\
  is_header_line (Py.join " " (t :: texts)) = false.
Proof.
  unfold Py.join. revert t. induction texts as [|u texts IH]; intros t H.
  - inversion H as [|? ? Ht _]; subst. cbn [String.concat].
    destruct (cut_token_nonempty _ Ht) as [_ Hh].
    destruct Ht as ([Hn|Hc] & S1 & S2); repeat split; try assumption.
    + rewrite <- (app_empty_r t). exact (note_shape_no_header t "" Hn I).
    + destruct Hc as (b & s & -> & _). cbn [String.append].
      now apply header_needs_upper.
  - inversion H as [|? ? Ht Hrest]; subst.
    destruct (IH u Hrest) as (J1 & J2 & J3 & _).
    change (String.concat " " (t :: u :: texts))
      with (t ++ String " " (String.concat " " (u :: texts)))%string.
    set (J := String.concat " " (u :: texts)) in *.
    assert (HJ : Py.is_empty J = false).
    { inversion Hrest as [|? ? Hu _]; subst.
      destruct (cut_token_nonempty _ Hu) as [Hlen _]. subst J.
      cbn [String.concat]. destruct texts; destruct u; cbn in *; try lia; reflexivity. }
    destruct (cut_token_nonempty _ Ht) as [Hlen Hh].
    pose proof Ht as ([Hn|Hc] & S1 & S2).
    + split; [|split; [|split]].
      * apply single_spaced_app; [assumption | | now left].
        cbn [single_spaced]. rewrite J1. unfold head_tight in J2.
        destruct J; [discriminate HJ|]. now rewrite J2.
      * destruct t; [cbn in Hlen; lia | exact Hh].
      * apply last_tight_app; [reflexivity|]. cbn [last_tight].
        destruct J; [discriminate HJ | exact J3].
      * exact (note_shape_no_header t (String " " J) Hn eq_refl).
    + split; [|split; [|split]].
      * apply single_spaced_app; [assumption | | now left].
        cbn [single_spaced]. rewrite J1. unfold head_tight in J2.
        destruct J; [discriminate HJ|]. now rewrite J2.
      * destruct t; [cbn in Hlen; lia | exact Hh].
      * apply last_tight_app; [reflexivity|]. cbn [last_tight].
        destruct J; [discriminate HJ | exact J3].
      * destruct Hc as (b & s & -> & _). cbn [String.append].
        now apply header_needs_upper.
Qed.

Lemma note_content_joined (t : string) (texts : list string) :
  Forall cut_token (t :: texts) ->
  note_content (Py.join " " (t :: texts)) = Py.join " " (t :: texts).
Proof.
  intros H. destruct (join_cut t texts H) as (J1 & J2 & J3 & J4).
  set (J := Py.join " " (t :: texts)) in *.
  unfold note_content. rewrite (strip_tight _ J2 J3).
  rewrite split_no_separator
    by (apply (single_spaced_free (Py.chr 10)); [reflexivity | exact J1]).
  cbn [List.filter]. rewrite J4. cbn [negb Py.join String.concat].
  unfold sub_runs.
  rewrite (sub_runs_from_free (Ascii.eqb "|") J).
  - rewrite (proj1 (sub_runs_single_spaced _ J1)). exact (strip_tight _ J2 J3).
  - apply free_all. apply (single_spaced_free "|"); [reflexivity | exact J1].
Qed.

(** X25: joining the tokens of a text with single spaces gives a text
    with the same tokens, and so the same program: the tokens hold no
    separator, and the tokenizer cuts each of them out again as it is. *)
Theorem tokens_are_stable (abc_str : string) :
  tokenize_abc (Py.join " " (tokenize_abc abc_str)) = tokenize_abc abc_str /\
  forall beats_per_bar v,
    abc_to_program (Py.join " " (tokenize_abc abc_str)) beats_per_bar v
    = abc_to_program abc_str beats_per_bar v.
Proof.
  assert (T : tokenize_abc (Py.join " " (tokenize_abc abc_str))
              = tokenize_abc abc_str).
  { pose proof (tokenize_loop_cut (String.length (note_content abc_str)) _
                  (note_content_single_spaced abc_str)) as Hcut.
    fold (tokenize_abc abc_str) in Hcut.
    destruct (tokenize_abc abc_str) as [|t texts]; [reflexivity|].
    unfold tokenize_abc at 1. rewrite (note_content_joined t texts Hcut).
    apply tokenize_cut; [assumption | lia]. }
  split; [exact T|]. intros beats_per_bar v. unfold abc_to_program. now rewrite T.
Qed.

(* ================================================================= *)
(** ** Notes of zero length *)

Lemma zeros_digits (n : nat) : Py.all Py.isdigit (zeros n) = true.
Proof. apply all_repeat_str. reflexivity. Qed.

Lemma zeros_value (n : nat) : Py.digits_value (zeros (S n)) = Some 0%Z.
Proof.
  assert (U : forall k, exists u,
               NilEmpty.uint_of_string (zeros k) = Some u /\ Z.of_uint u = 0%Z).
  { induction k as [|k (u & Hu & Hz)].
    - exists Decimal.Nil. split; reflexivity.
    - exists (Decimal.D0 u). split; [|exact Hz].
      change (zeros (S k)) with (String "0" (zeros k)).
      cbn [NilEmpty.uint_of_string]. rewrite Hu. reflexivity. }
  destruct (U (S n)) as (u & Hu & Hz).
  unfold Py.digits_value. change (zeros (S n)) with (String "0" (zeros n)) in *.
  rewrite Hu. cbn [option_map]. now rewrite Hz.
Qed.

Lemma float_zeros (n : nat) : Py.float (zeros (S n)) = Some 0.
Proof.
  rewrite (float_of_digits _ _ (zeros_digits (S n)) (zeros_value n)). reflexivity.
Qed.

(** The duration a zero suffix stands for. *)
Lemma zero_suffix_value (sfx : string) (token : string) :
  zero_suffix sfx ->
  Py.is_empty sfx = false /\
  Py.all is_duration_char sfx = true /\
  exists d,
    (if Py.mem "/" sfx then slash_duration sfx
     else match Py.float sfx with
          | Some d => Ok d
          | None => Raise (ValueError ("Invalid duration in: " ++ token))
          end) = Ok d /\ d == 0.
Proof.
  intros [n [->|(den & v & -> & Hd & Hv & Hnz)]].
  - split; [reflexivity|]. split.
    + apply all_repeat_str. reflexivity.
    + exists 0. rewrite (digits_no_slash _ (zeros_digits (S n))), float_zeros.
      split; reflexivity.
  - split; [reflexivity|]. split.
    + rewrite all_app. unfold zeros at 1.
      rewrite (all_repeat_str is_duration_char "0" (S n) eq_refl).
      cbn [andb Py.all]. change (is_duration_char "/") with true. cbn [andb].
      revert Hd. apply all_impl. intros c Hc. unfold is_duration_char. now rewrite Hc.
    + assert (M : Py.mem "/" (zeros (S n) ++ String "/" den) = true).
      { rewrite mem_app. cbn [Py.mem]. rewrite Ascii.eqb_refl. now rewrite orb_true_r. }
      rewrite M. unfold slash_duration.
      rewrite (split_at_first "/" _ _ (digits_no_slash _ (zeros_digits (S n)))).
      rewrite (split_no_separator "/" den (digits_no_slash _ Hd)).
      change (Py.is_empty (zeros (S n))) with false. cbv beta iota.
      unfold float_or_raise. rewrite float_zeros. cbn [bind].
      rewrite (float_of_digits _ _ Hd Hv). cbn [bind].
      unfold Py.truediv.
      destruct (Qeq_bool (inject_Z 1 * inject_Z v) 0) eqn:E.
      * exfalso. apply Qeq_bool_eq in E. apply Hnz.
        unfold Qeq in E. cbn in E. destruct v; cbn in E; lia.
      * eexists. split; [reflexivity|]. unfold Qdiv. apply Qmult_0_l.
Qed.

(** The parser on a note token with a zero suffix. *)
Lemma parse_zero_length_token (token : string) (midi : Z) :
  zero_length_token token midi ->
  exists d, parse_abc_note token = Ok (midi, d) /\ d == 0.
Proof.
  intros (acc & delta & letter & base & ups & downs & sfx
          & -> & Ha & Hb & Hm & Hr & Hz).
  destruct (zero_suffix_value sfx (note_token acc letter ups downs sfx) Hz)
    as (He & Hc & d & Hd & Hd0).
  assert (Hs : suffix_after_octaves downs sfx = true).
  { destruct Hz as [n [->| (den & v & -> & _)]]; reflexivity. }
  assert (Hsp : Py.all (fun c => negb (Py.isspace c)) sfx = true).
  { revert Hc. apply all_impl. intros c. bits c; vm_compute; congruence. }
  pose proof (parse_abc_note_grammatical acc delta letter base ups downs sfx
                Ha Hb Hs Hsp) as P.
  cbv zeta in P. rewrite <- Hm in P.
  assert (R : (midi <? 0)%Z || (midi >? 127)%Z = false).
  { apply orb_false_iff. split; [apply Z.ltb_ge; lia|].
    rewrite Z.gtb_ltb. apply Z.ltb_ge. lia. }
  rewrite R, He, Hd in P. cbn [bind] in P. eauto.
Qed.

(** Such a token is one the tokenizer cuts out as it stands. *)
Lemma zero_length_token_cut (token : string) (midi : Z) :
  zero_length_token token midi ->
  cut_token token /\ Py.startswith token "[" = false.
Proof.
  intros (acc & delta & letter & base & ups & downs & sfx
          & -> & Ha & Hb & Hm & Hr & Hz).
  destruct (zero_suffix_value sfx "" Hz) as (He & Hc & _).
  assert (Hshape : note_shape (note_token acc letter ups downs sfx)).
  { exists acc, (String letter ""), (quotes ups ++ commas downs)%string, sfx.
    split; [|split; [|split; [|split; [|split]]]].
    - unfold note_token. cbn [String.append]. now rewrite app_assoc_str.
    - destruct (accidental_cases _ _ Ha) as [E|[E|[E|[E|[E|E]]]]];
        injection E as -> _; reflexivity.
    - right. exists letter. split; [reflexivity|].
      pose proof (base_letter_cases _ _ Hb) as Hl. cbn [In] in Hl.
      repeat (destruct Hl as [<-|Hl]; [reflexivity|]). contradiction.
    - rewrite all_app. unfold quotes, commas, single_quote.
      now rewrite !all_repeat_str.
    - exact Hc.
    - destruct acc; reflexivity. }
  split.
  - split; [now left|].
    destruct (no_space_single_spaced _ (note_chars_tight _ (note_shape_chars _ Hshape)))
      as (S1 & S2 & _). now split.
  - unfold note_token.
    destruct (accidental_cases _ _ Ha) as [E|[E|[E|[E|[E|E]]]]];
      injection E as -> _; try reflexivity.
    pose proof (base_letter_cases _ _ Hb) as Hl. cbn [In] in Hl.
    repeat (destruct Hl as [<-|Hl]; [reflexivity|]). contradiction.
Qed.

Lemma tokenize_one_token (token : string) :
  cut_token token -> tokenize_abc token = [token].
Proof.
  intros H. assert (F : Forall cut_token [token]) by (constructor; [assumption | constructor]).
  unfold tokenize_abc.
  pose proof (note_content_joined token [] F) as N.
  change (Py.join " " [token]) with token in N. rewrite N.
  pose proof (tokenize_cut [token] F (String.length token)) as T.
  change (Py.join " " [token]) with token in T. apply T. lia.
Qed.

(** The loop of the builder only ever adds notes at the end. *)
Lemma builder_step_extends (v : Q) (st st' : Builder) (token : string) :
  builder_step v st token = Ok st' ->
  exists more, built_notes st' = (built_notes st ++ more)%list.
Proof.
  assert (Same : forall msg,
             Ok {| parse_errors := parse_errors st ++ [msg];
                   built_notes := built_notes st;
                   current_beat := current_beat st |} = Ok st' ->
             exists more, built_notes st' = (built_notes st ++ more)%list).
  { intros msg [= <-]. exists []. cbn. now rewrite app_nil_r. }
  unfold builder_step, build_token.
  destruct (Py.startswith token "[").
  - destruct (parse_abc_chord token) as [members|[]]; cbn [bind];
      try discriminate; try apply Same.
    destruct (chord_token_duration token) as [d|[]]; cbn [bind];
      try discriminate; try apply Same.
    intros [= <-]. cbn. eauto.
  - destruct (parse_abc_note token) as [[midi d]|[]]; cbn [bind];
      try discriminate; try apply Same.
    intros [= <-]. cbn. eauto.
Qed.

Lemma builder_loop_extends (v : Q) (tokens : list string) :
  forall st st', builder_loop v st tokens = Ok st' ->
  exists more, built_notes st' = (built_notes st ++ more)%list.
Proof.
  induction tokens as [|t tokens IH]; intros st st'; cbn [builder_loop].
  - intros [= <-]. exists []. now rewrite app_nil_r.
  - destruct (builder_step v st t) as [st1|] eqn:E; cbn [bind]; [|discriminate].
    intros L. destruct (builder_step_extends _ _ _ _ E) as [m1 H1].
    destruct (IH _ _ L) as [m2 H2]. exists (m1 ++ m2)%list.
    now rewrite H2, H1, <- app_assoc.
Qed.

(** A note token the parser accepts leaves its event in the program the
    loop builds, whatever the other tokens are. *)
Lemma builder_loop_holds_note (v : Q) (token : string) (midi : Z) (d : Q) :
  Py.startswith token "[" = false ->
  parse_abc_note token = Ok (midi, d) -> (0 <= midi)%Z ->
  forall tokens, In token tokens ->
  forall st st', builder_loop v st tokens = Ok st' ->
  exists i start,
    nth_error (built_notes st') i = Some (note_event midi start d v).
Proof.
  intros Hb Hp Hm. induction tokens as [|t tokens IH]; intros Hin st st';
    [contradiction|].
  cbn [builder_loop].
  destruct (builder_step v st t) as [st1|] eqn:E; cbn [bind]; [|discriminate].
  intros L. destruct Hin as [->|Hin]; [|exact (IH Hin _ _ L)].
  unfold builder_step, build_token in E. rewrite Hb, Hp in E. cbn [bind] in E.
  assert (G : (midi >=? 0)%Z = true) by (apply Z.geb_le; lia).
  rewrite G in E. injection E as <-.
  destruct (builder_loop_extends _ _ _ _ L) as [more Hmore].
  cbn [built_notes] in Hmore.
  exists (List.length (built_notes st)), (current_beat st).
  rewrite Hmore, <- app_assoc. rewrite nth_error_app2 by lia.
  rewrite Nat.sub_diag. reflexivity.
Qed.

(** The validator reports every note whose length is zero or less, under
    the index the note has in the program. *)
Lemma validate_notes_flags_length (key : option Z) (scale : option string)
  (scale_notes : option (list Z)) (total_beats : Q) (notes : list NoteEvent) :
  forall (i k : nat) (n : NoteEvent) (d : Q),
    nth_error notes k = Some n -> lengthBeats n = Some d -> d <= 0 ->
    In ("Note " ++ Py.str_int (Z.of_nat (i + k)) ++ ": Non-positive duration")%string
       (fst (validate_notes key scale scale_notes total_beats i notes)).
Proof.
  induction notes as [|m notes IH]; intros i k n d Hk Hl Hd;
    [destruct k; discriminate|].
  cbn [validate_notes].
  destruct (validate_note key scale scale_notes total_beats i m) as [e w] eqn:E.
  destruct (validate_notes key scale scale_notes total_beats (S i) notes)
    as [es ws] eqn:Es.
  cbn [fst]. apply in_or_app. destruct k as [|k].
  - left. injection Hk as ->. rewrite Nat.add_0_r.
    unfold validate_note in E. rewrite Hl in E.
    assert (T : Qle_bool d 0 = true) by now apply Qle_bool_iff.
    rewrite T in E.
    destruct (match pitch n with Some _ => _ | None => _ end) as [pe pw].
    injection E as <- _.
    apply in_or_app. right. apply in_or_app. right. left. reflexivity.
  - right. cbn [nth_error] in Hk.
    pose proof (IH (S i) k n d Hk Hl Hd) as H. rewrite Es in H. cbn [fst] in H.
    now rewrite Nat.add_succ_r.
Qed.

Lemma validate_program_flags_length (prog : Program) (key : option Z)
  (scale : option string) (beats_per_bar : Z) (i : nat) (n : NoteEvent) (d : Q) :
  nth_error (notes prog) i = Some n -> lengthBeats n = Some d -> d <= 0 ->
  In ("Note " ++ Py.str_int (Z.of_nat i) ++ ": Non-positive duration")%string
     (fst (validate_program prog key scale beats_per_bar)).
Proof.
  intros Hi Hl Hd. unfold validate_program.
  revert Hi. generalize (notes prog) as l. intros l Hi.
  match goal with
  | |- context [validate_notes ?k ?s ?sn ?t 0 l] =>
      pose proof (validate_notes_flags_length k s sn t l 0 i n d Hi Hl Hd) as H;
      destruct (validate_notes k s sn t 0 l) as [es ws]
  end.
  cbn [fst] in H. cbn [Nat.add] in H.
  destruct l as [|m ms]; [destruct i; discriminate|].
  cbn [fst]. apply in_or_app. right. exact H.
Qed.

Lemma quantize_bars_no_beats (total_beats : Q) (beats_per_bar : Z) :
  total_beats == 0 -> quantize_bars total_beats beats_per_bar = 0.125.
Proof.
  intros E. rewrite <- (quantize_bars_zero beats_per_bar). unfold quantize_bars.
  rewrite (first_at_least_comp
             ((if (beats_per_bar >? 0)%Z
               then total_beats / inject_Z beats_per_bar else total_beats) - 0.001)
             ((if (beats_per_bar >? 0)%Z
               then 0 / inject_Z beats_per_bar else 0) - 0.001)).
  - reflexivity.
  - destruct (beats_per_bar >? 0)%Z; now rewrite E.
Qed.

(** What the validator says of the program one zero-length note makes. *)
Lemma validate_one_zero_length_note (midi : Z) (d : Q) (key : option Z)
  (scale : option string) (beats_per_bar : Z) :
  (0 <= midi <= 127)%Z -> d == 0 ->
  fst (validate_program
         {| lengthBars := Some 0.125; notes := [note_event midi 0 d 0.8] |}
         key scale beats_per_bar)
  = ["Note 0: Non-positive duration"%string].
Proof.
  intros Hm Hd. unfold validate_program.
  cbn [lengthBars notes validate_notes].
  change (negb (existsb (fun v => Py.Qlt_bool (Qabs (0.125 - v)) 0.001)
                        VALID_BAR_LENGTHS)) with false.
  cbv iota. unfold validate_note.
  cbn [pitch startBeat lengthBeats velocity note_event].
  assert (R : (midi <? 0)%Z || (midi >? 127)%Z = false).
  { apply orb_false_iff. split; [apply Z.ltb_ge; lia|].
    rewrite Z.gtb_ltb. apply Z.ltb_ge. lia. }
  rewrite R.
  assert (T : Qle_bool d 0 = true) by (apply Qle_bool_iff; rewrite Hd; apply Qle_refl).
  rewrite T.
  change (Py.Qlt_bool 0 0) with false.
  change (Py.Qlt_bool 0.8 0 || Py.Qlt_bool 1 0.8) with false.
  cbv iota.
  match goal with
  | |- context [Py.Qlt_bool 0 ?t && Qle_bool ?t 0] =>
      assert (P : Py.Qlt_bool 0 t && Qle_bool t 0 = false)
        by (unfold Py.Qlt_bool; destruct (Qle_bool t 0); reflexivity);
      rewrite P
  end.
  destruct (match key with
            | Some k => match scale with
                        | Some (String _ _ as name) => Some (get_scale_notes k name)
                        | _ => None
                        end
            | None => None
            end) as [[|x members]|]; try reflexivity.
  destruct (negb (existsb (Z.eqb midi) (x :: members))); reflexivity.
Qed.

(** C10: a note token with an explicit zero duration suffix -- zeros, or
    zeros over a denominator other than zero, after an accidental, a letter
    and octave marks that name a pitch within the MIDI range -- is read by
    [parse_abc_note] without an error, as that pitch with the duration 0.
    In every text that holds such a token and parses without a parse error,
    the program has the event with a length of 0, the validator reports it
    as ["Note i: Non-positive duration"] under the index of the event, and
    the pipeline returns an invalid result that carries the program and no
    normalised text.  On the token alone the pipeline returns just that
    error, with a program of the one event.  The number of beats per bar is
    any that a float can hold. *)
Theorem zero_duration_is_a_validation_error (token : string) (midi : Z) :
  zero_length_token token midi ->
  (exists d, parse_abc_note token = Ok (midi, d) /\ d == 0) /\
  (forall abc_str key scale beats_per_bar prog,
     float_holds beats_per_bar ->
     In token (tokenize_abc abc_str) ->
     abc_to_program abc_str beats_per_bar default_velocity_value = Ok (prog, []) ->
     exists i n d r,
       nth_error (notes prog) i = Some n /\
       pitch n = Some midi /\ lengthBeats n = Some d /\ d == 0 /\
       validate_abc abc_str key scale beats_per_bar = Ok r /\
       valid r = false /\ program r = Some prog /\ abc_output r = None /\
       In ("Note " ++ Py.str_int (Z.of_nat i) ++ ": Non-positive duration")%string
          (errors r)) /\
  (forall key scale beats_per_bar,
     float_holds beats_per_bar ->
     exists d r,
       d == 0 /\
       validate_abc token key scale beats_per_bar = Ok r /\
       valid r = false /\
       program r = Some {| lengthBars := Some 0.125;
                           notes := [note_event midi 0 d 0.8] |} /\
       errors r = ["Note 0: Non-positive duration"%string] /\
       abc_output r = None).
Proof.
  intros Hz.
  destruct (parse_zero_length_token _ _ Hz) as (d & Hp & Hd).
  destruct (zero_length_token_cut _ _ Hz) as [Hcut Hb].
  assert (Hm : (0 <= midi <= 127)%Z).
  { destruct Hz as (? & ? & ? & ? & ? & ? & ? & _ & _ & _ & _ & H & _). exact H. }
  split; [eauto|]. split.
  - intros abc_str key scale beats_per_bar prog _ Hin Hprog.
    destruct (abc_to_program_lengthBars _ _ _ _ _ Hprog) as (st & Hl & _ & Hn & _).
    destruct (builder_loop_holds_note default_velocity_value token midi d Hb Hp
                (proj1 Hm) _ Hin _ _ Hl) as (i & start & Hi).
    rewrite <- Hn in Hi.
    assert (Hle : d <= 0) by (rewrite Hd; apply Qle_refl).
    pose proof (validate_program_flags_length prog key scale beats_per_bar i _ d
                  Hi eq_refl Hle) as Hflag.
    unfold validate_abc. rewrite Hprog. cbn [bind].
    destruct (validate_program prog key scale beats_per_bar)
      as [val_errors val_warnings].
    cbn [fst] in Hflag. destruct val_errors as [|e es]; [contradiction|].
    exists i, (note_event midi start d default_velocity_value), d.
    eexists. repeat split; try eassumption; reflexivity.
  - intros key scale beats_per_bar _.
    assert (Hprog : abc_to_program token beats_per_bar default_velocity_value
                    = Ok ({| lengthBars := Some 0.125;
                             notes := [note_event midi 0 d 0.8] |}, [])).
    { unfold abc_to_program. rewrite (tokenize_one_token _ Hcut).
      cbn [builder_loop]. unfold builder_step, build_token.
      rewrite Hb, Hp. cbn [bind].
      assert (G : (midi >=? 0)%Z = true) by (apply Z.geb_le; lia).
      rewrite G. cbn [bind current_beat built_notes parse_errors initial_builder app].
      rewrite quantize_bars_no_beats by (rewrite Hd; reflexivity).
      reflexivity. }
    pose proof (validate_one_zero_length_note midi d key scale beats_per_bar Hm Hd)
      as Hval.
    exists d. unfold validate_abc. rewrite Hprog. cbn [bind].
    destruct (validate_program _ key scale beats_per_bar)
      as [val_errors val_warnings].
    cbn [fst] in Hval. subst val_errors.
    eexists. repeat split; try eassumption; reflexivity.
Qed.

Lemma zero_duration_is_a_validation_error_witness :
  zero_length_token "C0" 48 /\
  (exists d, parse_abc_note "C0" = Ok (48%Z, d) /\ d == 0) /\
  exists d r,
    d == 0 /\
    validate_abc "C0" None None 4 = Ok r /\
    valid r = false /\
    program r = Some {| lengthBars := Some 0.125;
                        notes := [note_event 48 0 d 0.8] |} /\
    errors r = ["Note 0: Non-positive duration"%string] /\
    abc_output r = None.
Proof.
  assert (H : zero_length_token "C0" 48).
  { exists ""%string, 0%Z, "C"%char, 48%Z, O, O, "0"%string.
    repeat split; try reflexivity; try lia.
    exists O. now left. }
  destruct (zero_duration_is_a_validation_error "C0" 48 H) as (P1 & _ & P3).
  split; [exact H|]. split; [exact P1|].
  apply (P3 None None 4%Z). eexists. reflexivity.
Defined.
